(** * backup.py: grandfather-father-son backup rotation around [dar]

    A shallow embedding of [backup.py] and the properties of its path codec,
    label validator, tree scanner, rotation policy and commit step.

    Conventions of the embedding:
    - a Python exception is a value of [exn]; a function that may raise
      returns a [result];
    - a [datetime] is the record of its seven fields; the library functions
      [strftime] and [strptime] are modelled after CPython's [_strptime]
      (the regular expression built from the format, tried with
      backtracking, then the range checks of the [datetime] constructor);
    - a [PurePath] is its [parts] tuple (POSIX flavour);
    - the file system is a tree of directories whose entries are listed in
      the order in which the operating system enumerates them. *)

From Stdlib Require Import List String Ascii Arith ZArith Bool Lia PeanoNat.
From Stdlib Require Import Permutation Sorted DecimalString.
Import ListNotations.
Set Warnings "-register-all".
Open Scope string_scope.
Open Scope list_scope.
Open Scope Z_scope.

(* ------------------------------------------------------------------ *)
(** ** Exceptions *)

Inductive exn : Type :=
| ValueError
| TypeError
| BadParameter (msg : string)
| CalledProcessError
| FileExistsError
| FileNotFoundError
| NotADirectoryError
| OSError
| IndexError
| AssertionError.

Inductive result (A : Type) : Type :=
| Ok (a : A)
| Raise (e : exn).
Arguments Ok {A} a.
Arguments Raise {A} e.

Definition bind {A B : Type} (r : result A) (k : A -> result B) : result B :=
  match r with
  | Ok a => k a
  | Raise e => Raise e
  end.

Notation "x <- c1 ;; c2" := (bind c1 (fun x => c2))
  (at level 61, c1 at next level, right associativity).

(* ------------------------------------------------------------------ *)
(** ** datetime *)

Record datetime : Type := mkdatetime {
  year : Z;
  month : Z;
  day : Z;
  hour : Z;
  minute : Z;
  second : Z;
  microsecond : Z
}.

Definition is_leap (y : Z) : bool :=
  ((y mod 4 =? 0) && negb (y mod 100 =? 0)) || (y mod 400 =? 0).

Definition days_in_month (y m : Z) : Z :=
  match m with
  | 1 | 3 | 5 | 7 | 8 | 10 | 12 => 31
  | 4 | 6 | 9 | 11 => 30
  | 2 => if is_leap y then 29 else 28
  | _ => 0
  end.

(** The range checks of the [datetime] constructor. *)
Definition valid_datetime (t : datetime) : bool :=
  (1 <=? year t) && (year t <=? 9999) &&
  (1 <=? month t) && (month t <=? 12) &&
  (1 <=? day t) && (day t <=? days_in_month (year t) (month t)) &&
  (0 <=? hour t) && (hour t <=? 23) &&
  (0 <=? minute t) && (minute t <=? 59) &&
  (0 <=? second t) && (second t <=? 59) &&
  (0 <=? microsecond t) && (microsecond t <=? 999999).

(** Python compares sequences lexicographically; a proper prefix is smaller. *)
Fixpoint lex_compare {A : Type} (cmp : A -> A -> comparison)
         (l1 l2 : list A) : comparison :=
  match l1, l2 with
  | [], [] => Eq
  | [], _ :: _ => Lt
  | _ :: _, [] => Gt
  | x :: l1', y :: l2' =>
      match cmp x y with
      | Eq => lex_compare cmp l1' l2'
      | c => c
      end
  end.

Definition dt_fields (t : datetime) : list Z :=
  [year t; month t; day t; hour t; minute t; second t; microsecond t].

(** Comparison of two naive datetimes. *)
Definition dt_compare (a b : datetime) : comparison :=
  lex_compare Z.compare (dt_fields a) (dt_fields b).

Definition dt_ltb (a b : datetime) : bool :=
  match dt_compare a b with Lt => true | _ => false end.

(** [a >= b] *)
Definition dt_geb (a b : datetime) : bool := negb (dt_ltb a b).

(* ------------------------------------------------------------------ *)
(** ** Formats: strftime and strptime *)

Inductive directive : Type :=
| pY | pm | pd | pH | pM | pS
| Lit (c : ascii).

(** ts_format = '%Y-%m-%d_%H:%M:%S' *)
Definition ts_format : list directive :=
  [pY; Lit "-"; pm; Lit "-"; pd; Lit "_"; pH; Lit ":"; pM; Lit ":"; pS].

Definition digit (n : Z) : ascii :=
  ascii_of_nat (Z.to_nat (48 + n mod 10)).

Definition pad2 (n : Z) : string :=
  String (digit (n / 10)) (String (digit n) "").

(** Years are written with four digits.  This is what strftime writes
    for the years 1000 to 9999; below 1000 the C library decides, and
    glibc writes 999 where this definition writes 0999.  The statements
    that depend on the text of a year carry the bound 1000 <= year as a
    hypothesis. *)
Definition pad4 (n : Z) : string :=
  String (digit (n / 1000)) (String (digit (n / 100)) (pad2 n)).

Definition render (t : datetime) (d : directive) : string :=
  match d with
  | pY => pad4 (year t)
  | pm => pad2 (month t)
  | pd => pad2 (day t)
  | pH => pad2 (hour t)
  | pM => pad2 (minute t)
  | pS => pad2 (second t)
  | Lit c => String c ""
  end.

Definition strftime (t : datetime) (fmt : list directive) : string :=
  concat "" (map (render t) fmt).

(** A character class of the regular expressions of [_strptime]: a digit in
    a range, or a space. *)
Inductive cclass : Type :=
| Rng (lo hi : Z)
| Spc.

(** The alternatives of each directive, in the order of the regular
    expression: %Y \d\d\d\d, %m 1[0-2]|0[1-9]|[1-9],
    %d 3[0-1]|[1-2]\d|0[1-9]|[1-9]| [1-9], %H 2[0-3]|[0-1]\d|\d,
    %M [0-5]\d|\d, %S 6[0-1]|[0-5]\d|\d. *)
Definition regex_of (d : directive) : list (list cclass) :=
  match d with
  | pY => [[Rng 0 9; Rng 0 9; Rng 0 9; Rng 0 9]]
  | pm => [[Rng 1 1; Rng 0 2]; [Rng 0 0; Rng 1 9]; [Rng 1 9]]
  | pd => [[Rng 3 3; Rng 0 1]; [Rng 1 2; Rng 0 9]; [Rng 0 0; Rng 1 9];
           [Rng 1 9]; [Spc; Rng 1 9]]
  | pH => [[Rng 2 2; Rng 0 3]; [Rng 0 1; Rng 0 9]; [Rng 0 9]]
  | pM => [[Rng 0 5; Rng 0 9]; [Rng 0 9]]
  | pS => [[Rng 6 6; Rng 0 1]; [Rng 0 5; Rng 0 9]; [Rng 0 9]]
  | Lit _ => []
  end.

Definition digit_val (c : ascii) : option Z :=
  let n := Z.of_nat (nat_of_ascii c) in
  if (48 <=? n) && (n <=? 57) then Some (n - 48) else None.

(** Matches one alternative at the start of [s]; returns the number read
    (as [int] converts the matched text) and the rest of the string. *)
Fixpoint match_seq (p : list cclass) (s : string) (acc : Z)
  : option (Z * string) :=
  match p with
  | [] => Some (acc, s)
  | c :: p' =>
      match s with
      | EmptyString => None
      | String a s' =>
          match c with
          | Spc => if Ascii.eqb a " " then match_seq p' s' acc else None
          | Rng lo hi =>
              match digit_val a with
              | Some v =>
                  if (lo <=? v) && (v <=? hi)
                  then match_seq p' s' (10 * acc + v)
                  else None
              | None => None
              end
          end
      end
  end.

Definition set_field (d : directive) (v : Z) (t : datetime) : datetime :=
  match d with
  | pY => mkdatetime v (month t) (day t) (hour t) (minute t) (second t)
                     (microsecond t)
  | pm => mkdatetime (year t) v (day t) (hour t) (minute t) (second t)
                     (microsecond t)
  | pd => mkdatetime (year t) (month t) v (hour t) (minute t) (second t)
                     (microsecond t)
  | pH => mkdatetime (year t) (month t) (day t) v (minute t) (second t)
                     (microsecond t)
  | pM => mkdatetime (year t) (month t) (day t) (hour t) v (second t)
                     (microsecond t)
  | pS => mkdatetime (year t) (month t) (day t) (hour t) (minute t) v
                     (microsecond t)
  | Lit _ => t
  end.

(** [re.match] of the format's regular expression: alternatives are tried
    in order and abandoned when the rest of the format does not match. *)
Fixpoint regex_match (fmt : list directive) (s : string) (t : datetime)
  : option (datetime * string) :=
  match fmt with
  | [] => Some (t, s)
  | Lit c :: fmt' =>
      match s with
      | String a s' => if Ascii.eqb a c then regex_match fmt' s' t else None
      | EmptyString => None
      end
  | d :: fmt' =>
      (fix try (alts : list (list cclass)) : option (datetime * string) :=
         match alts with
         | [] => None
         | p :: alts' =>
             match match_seq p s 0 with
             | Some (v, s') =>
                 match regex_match fmt' s' (set_field d v t) with
                 | Some r => Some r
                 | None => try alts'
                 end
             | None => try alts'
             end
         end) (regex_of d)
  end.

(** Fields absent from the format default to 1900-01-01 00:00:00. *)
Definition strptime_default : datetime := mkdatetime 1900 1 1 0 0 0 0.

(** datetime.datetime.strptime(s, fmt): no match, unconverted data after
    the match, and fields the constructor refuses all raise ValueError. *)
Definition strptime (s : string) (fmt : list directive) : result datetime :=
  match regex_match fmt s strptime_default with
  | None => Raise ValueError
  | Some (t, rest) =>
      match rest with
      | EmptyString => if valid_datetime t then Ok t else Raise ValueError
      | String _ _ => Raise ValueError
      end
  end.

(* ------------------------------------------------------------------ *)
(** ** PurePath (POSIX flavour), as its [parts] *)

Definition PurePath : Type := list string.

Fixpoint split (sep : ascii) (s : string) : list string :=
  match s with
  | EmptyString => [EmptyString]
  | String c s' =>
      if Ascii.eqb c sep then EmptyString :: split sep s'
      else match split sep s' with
           | [] => [String c EmptyString]
           | w :: ws => String c w :: ws
           end
  end.

(** The root of a path string: "/", or "//" for exactly two leading
    slashes, or none. *)
Definition path_root (s : string) : string :=
  match s with
  | String "/" (String "/" (String "/" _)) => "/"
  | String "/" (String "/" _) => "//"
  | String "/" _ => "/"
  | _ => ""
  end.

(** Empty components and "." are dropped; ".." is kept. *)
Definition is_component (w : string) : bool :=
  negb (String.eqb w "") && negb (String.eqb w ".").

(** PurePath(s) *)
Definition PurePath_of (s : string) : PurePath :=
  (if String.eqb (path_root s) "" then [] else [path_root s])
    ++ filter is_component (split "/" s).

Definition has_root (p : PurePath) : bool :=
  match p with
  | String "/" _ :: _ => true
  | _ => false
  end.

(** [a / b]: a rooted right operand replaces the left one. *)
Definition pjoin (a b : PurePath) : PurePath :=
  if has_root b then b else a ++ b.

(** [a / s] for a string [s] *)
Definition pdiv (a : PurePath) (s : string) : PurePath :=
  pjoin a (PurePath_of s).

(** a.joinpath( *args ) *)
Definition joinpath (a : PurePath) (args : list string) : PurePath :=
  fold_left pdiv args a.

(** str(p) *)
Definition path_str (p : PurePath) : string :=
  match p with
  | [] => "."
  | r :: rest =>
      if has_root p then String.append r (concat "/" rest)
      else concat "/" p
  end.

(* ------------------------------------------------------------------ *)
(** ** Backups and the path codec *)

Record Backup : Type := mkBackup { timestamp : datetime }.

Record BackupLabel : Type := mkBackupLabel { part1 : string; part2 : string }.

Definition data_dir_name : string := "_data".

(** backup_label_to_path *)
Definition backup_label_to_path (label : BackupLabel) : PurePath :=
  pdiv (PurePath_of (part1 label)) (part2 label).

(** backup_to_path: the chain is given from leaf to root, the path runs
    from root to leaf. *)
Definition backup_to_path (backups : list Backup) : PurePath :=
  joinpath (PurePath_of "")
           (map (fun backup => strftime (timestamp backup) ts_format)
                (rev backups)).

(** [parents or []] *)
Definition or_nil {A : Type} (parents : option (list A)) : list A :=
  match parents with
  | Some l => l
  | None => []
  end.

(** path_to_backup: the whole of [str(path)] is parsed as one timestamp. *)
Definition path_to_backup (path : PurePath) (parents : option (list Backup))
  : result (list Backup) :=
  timestamp <- strptime (path_str path) ts_format ;;
  Ok ([mkBackup timestamp] ++ or_nil parents).

(* ------------------------------------------------------------------ *)
(** ** Globbing *)

(** A glob pattern made of literal characters and of the class [0-9]. *)
Inductive gchar : Type :=
| GDigit
| GLit (c : ascii).

(** dd = '[0-9]' * 2 *)
Definition dd : list gchar := [GDigit; GDigit].

(** glob_format = '{}{}-{}-{}_{}:{}:{}'.format( *([dd] * 7)) *)
Definition glob_format : list gchar :=
  dd ++ dd ++ [GLit "-"] ++ dd ++ [GLit "-"] ++ dd ++ [GLit "_"]
     ++ dd ++ [GLit ":"] ++ dd ++ [GLit ":"] ++ dd.

Definition is_digit (c : ascii) : bool :=
  match digit_val c with Some _ => true | None => false end.

Fixpoint fnmatch (name : string) (pat : list gchar) : bool :=
  match pat, name with
  | [], EmptyString => true
  | GDigit :: pat', String c name' => is_digit c && fnmatch name' pat'
  | GLit a :: pat', String c name' => Ascii.eqb c a && fnmatch name' pat'
  | _, _ => false
  end.

(* ------------------------------------------------------------------ *)
(** ** The file system *)

(** A directory lists its entries in enumeration order.  The tree holds
    plain files and directories only: symbolic links, permissions and
    changes made by other processes are not modelled, so the statements
    below are about trees without links that the program can read.
    Relative paths are resolved against the root of the tree. *)
Inductive node : Type :=
| File
| Dir (entries : list (string * node)).

Fixpoint lookup_entry (name : string) (es : list (string * node))
  : option node :=
  match es with
  | [] => None
  | (n, c) :: es' => if String.eqb n name then Some c else lookup_entry name es'
  end.

Fixpoint lookup (t : node) (p : list string) : option node :=
  match p with
  | [] => Some t
  | n :: p' =>
      match t with
      | File => None
      | Dir es =>
          match lookup_entry n es with
          | Some c => lookup c p'
          | None => None
          end
      end
  end.

(** The components below the root of the tree. *)
Definition fs_path (p : PurePath) : list string :=
  if has_root p then tl p else p.

Definition is_dir (n : node) : bool :=
  match n with
  | Dir _ => true
  | File => false
  end.

(** (path / data_dir_name).is_dir() *)
Definition has_data_dir (n : node) : bool :=
  match n with
  | Dir es =>
      match lookup_entry data_dir_name es with
      | Some c => is_dir c
      | None => false
      end
  | File => false
  end.

Definition path_is_dir (t : node) (p : PurePath) : bool :=
  match lookup t (fs_path p) with
  | Some c => is_dir c
  | None => false
  end.

(* ------------------------------------------------------------------ *)
(** ** list_backups *)

Inductive Node : Type :=
| mkNode (value : list Backup) (children : list Node).

(** one_level(path, parent, children), returning the nodes it appends to
    [children]; [dir] is the directory at [path]. *)
Fixpoint one_level (dir : node) (parent : option (list Backup))
  : result (list Node) :=
  match dir with
  | File => Ok []
  | Dir entries =>
      (fix loop (es : list (string * node)) : result (list Node) :=
         match es with
         | [] => Ok []
         | (name, sub) :: es' =>
             if fnmatch name glob_format then
               if is_dir sub && has_data_dir sub then
                 backup <- path_to_backup [name] parent ;;
                 kids <- one_level sub (Some backup) ;;
                 rest <- loop es' ;;
                 Ok (mkNode backup kids :: rest)
               else loop es'
             else loop es'
         end) entries
  end.

(** invert(ret, nodes), returning what it appends to [ret]. *)
Fixpoint invert_node (n : Node) : list (list Backup) :=
  match n with
  | mkNode value children => value :: flat_map invert_node children
  end.

Definition invert (nodes : list Node) : list (list Backup) :=
  flat_map invert_node nodes.

(** A namedtuple compares as the tuple of its fields. *)
Definition Backup_compare (a b : Backup) : comparison :=
  lex_compare dt_compare [timestamp a] [timestamp b].

(** Comparison of the pairs of zip(keys, ret). *)
Definition pair_compare (x y : list datetime * list Backup) : comparison :=
  match lex_compare dt_compare (fst x) (fst y) with
  | Eq => lex_compare Backup_compare (snd x) (snd y)
  | c => c
  end.

(** sorted(..., reverse=True): descending and stable. *)
Fixpoint insert_desc (x : list datetime * list Backup)
         (l : list (list datetime * list Backup))
  : list (list datetime * list Backup) :=
  match l with
  | [] => [x]
  | y :: l' =>
      match pair_compare x y with
      | Lt => y :: insert_desc x l'
      | _ => x :: l
      end
  end.

Definition sorted_reverse (l : list (list datetime * list Backup))
  : list (list datetime * list Backup) :=
  fold_right insert_desc [] l.

Definition list_backups (fs : node) (root_path : PurePath)
  : result (list (list Backup)) :=
  nodes <- match lookup fs (fs_path root_path) with
           | Some dir => one_level dir None
           | None => Ok []
           end ;;
  let ret := invert nodes in
  let keys := map (map timestamp) ret in
  Ok (map snd (sorted_reverse (combine keys ret))).

(* ------------------------------------------------------------------ *)
(** ** latest_backup *)

Fixpoint dropwhile {A : Type} (f : A -> bool) (l : list A) : list A :=
  match l with
  | [] => []
  | x :: l' => if f x then dropwhile f l' else l
  end.

Definition latest_backup (backups : list (list Backup)) (level : nat)
  : option (list Backup) :=
  match dropwhile (fun x => negb (List.length x =? level)%nat) backups with
  | x :: _ => Some x
  | [] => None
  end.

(* ------------------------------------------------------------------ *)
(** ** validate_backup_label *)

Definition in_range (lo hi c : ascii) : bool :=
  (nat_of_ascii lo <=? nat_of_ascii c)%nat
  && (nat_of_ascii c <=? nat_of_ascii hi)%nat.

(** The class [0-9a-zA-Z_-] *)
Definition label_char (c : ascii) : bool :=
  in_range "0" "9" c || in_range "a" "z" c || in_range "A" "Z" c
  || Ascii.eqb c "_" || Ascii.eqb c "-".

Fixpoint take_while (f : ascii -> bool) (s : string) : string :=
  match s with
  | EmptyString => EmptyString
  | String c s' => if f c then String c (take_while f s') else EmptyString
  end.

(** re.match("[0-9a-zA-Z_-]+", part): the longest run of class characters
    at the start of [part], when there is at least one. *)
Definition re_match_label (part : string) : option string :=
  match take_while label_char part with
  | EmptyString => None
  | m => Some m
  end.

Definition truthy {A : Type} (o : option A) : bool :=
  match o with Some _ => true | None => false end.

Definition msg_format : string := "label needs to be in format text1/text2".
Definition msg_chars : string := "label contains invalid characters".

Definition validate_backup_label (required : bool) (value : option string)
  : result (option BackupLabel) :=
  match value with
  | None => if negb required then Ok None else Raise TypeError
  | Some v =>
      let path := PurePath_of v in
      if negb (List.length path =? 2)%nat then Raise (BadParameter msg_format)
      else if negb (forallb (fun part => truthy (re_match_label part)) path)
      then Raise (BadParameter msg_chars)
      else match path with
           | [a; b] => Ok (Some (mkBackupLabel a b))
           | _ => Raise TypeError
           end
  end.

(* ------------------------------------------------------------------ *)
(** ** Changing the file system *)

Fixpoint update_entry (name : string) (c : node) (es : list (string * node))
  : list (string * node) :=
  match es with
  | [] => []
  | (n, x) :: es' =>
      if String.eqb n name then (n, c) :: es'
      else (n, x) :: update_entry name c es'
  end.

Definition remove_entry (name : string) (es : list (string * node))
  : list (string * node) :=
  filter (fun e => negb (String.eqb (fst e) name)) es.

(** The chain of new empty directories [p]. *)
Fixpoint new_dirs (p : list string) : node :=
  match p with
  | [] => Dir []
  | n :: p' => Dir [(n, new_dirs p')]
  end.

(** os.mkdir(p): the parent must exist, [p] must not. *)
Fixpoint mkdir (t : node) (p : list string) : result node :=
  match p with
  | [] => Raise FileExistsError
  | n :: p' =>
      match t with
      | File => Raise NotADirectoryError
      | Dir es =>
          match lookup_entry n es with
          | Some c => c' <- mkdir c p' ;; Ok (Dir (update_entry n c' es))
          | None =>
              match p' with
              | [] => Ok (Dir (es ++ [(n, Dir [])]))
              | _ :: _ => Raise FileNotFoundError
              end
          end
      end
  end.

(** Path(p).mkdir(parents=True): missing ancestors are created, [p] itself
    must not exist. *)
Fixpoint mkdir_parents (t : node) (p : list string) : result node :=
  match p with
  | [] => Raise FileExistsError
  | n :: p' =>
      match t with
      | File => Raise NotADirectoryError
      | Dir es =>
          match lookup_entry n es with
          | Some c =>
              c' <- mkdir_parents c p' ;; Ok (Dir (update_entry n c' es))
          | None => Ok (Dir (es ++ [(n, new_dirs p')]))
          end
      end
  end.

(** Removes the entry at [p], when there is one. *)
Fixpoint remove_at (t : node) (p : list string) : node :=
  match p with
  | [] => t
  | n :: p' =>
      match t with
      | File => File
      | Dir es =>
          match p' with
          | [] => Dir (remove_entry n es)
          | _ :: _ =>
              match lookup_entry n es with
              | Some c => Dir (update_entry n (remove_at c p') es)
              | None => t
              end
          end
      end
  end.

(** Binds [p] to [sub] in its parent directory, which must exist. *)
Fixpoint place_at (t : node) (p : list string) (sub : node) : result node :=
  match p with
  | [] => Raise OSError
  | n :: p' =>
      match t with
      | File => Raise NotADirectoryError
      | Dir es =>
          match p' with
          | [] =>
              match lookup_entry n es with
              | Some _ => Ok (Dir (update_entry n sub es))
              | None => Ok (Dir (es ++ [(n, sub)]))
              end
          | _ :: _ =>
              match lookup_entry n es with
              | Some c =>
                  c' <- place_at c p' sub ;; Ok (Dir (update_entry n c' es))
              | None => Raise FileNotFoundError
              end
          end
      end
  end.

Fixpoint is_prefix (p q : list string) : bool :=
  match p, q with
  | [], _ => true
  | a :: p', b :: q' => String.eqb a b && is_prefix p' q'
  | _ :: _, [] => false
  end.

Definition same_path (p q : list string) : bool :=
  is_prefix p q && is_prefix q p.

(** os.rename(src, dst) as POSIX has it: [src] must exist; nothing can be
    moved below itself; an existing [dst] is replaced only when it is an
    empty directory and [src] is a directory, or when both are files. *)
Definition rename (t : node) (src dst : list string) : result node :=
  match lookup t src with
  | None => Raise FileNotFoundError
  | Some sub =>
      if same_path src dst then Ok t
      else if is_prefix src dst then Raise OSError
      else
        match lookup t dst, sub with
        | None, _ | Some (Dir []), Dir _ | Some File, File =>
            place_at (remove_at t src) dst sub
        | Some _, _ => Raise OSError
        end
  end.

(* ------------------------------------------------------------------ *)
(** ** The world of a command: file system, output, log, archiver *)

Inductive log_entry : Type :=
| LogCommand (command : list string)
| LogDone.

Record world : Type := mkWorld {
  w_fs : node;
  w_stdout : list string;      (* click.echo, oldest first *)
  w_log : list log_entry;      (* log.info, oldest first *)
  w_dar : list (list string)   (* commands run by subprocess.check_call *)
}.

(** What the command cannot decide: the clock, the name mkdtemp draws, and
    the exit status of the archiver (true for 0).  The archiver writes
    regular files beside its basename only; they are not tracked. *)
Record Env : Type := mkEnv {
  now : datetime;
  tmpname : string;
  dar_ok : list string -> bool
}.

Definition M (A : Type) : Type := world -> result A * world.

Definition ret {A : Type} (a : A) : M A := fun w => (Ok a, w).

Definition raise {A : Type} (e : exn) : M A := fun w => (Raise e, w).

Definition mbind {A B : Type} (m : M A) (k : A -> M B) : M B :=
  fun w =>
    match m w with
    | (Ok a, w') => k a w'
    | (Raise e, w') => (Raise e, w')
    end.

Notation "x <~ c1 ;; c2" := (mbind c1 (fun x => c2))
  (at level 61, c1 at next level, right associativity).
Notation "c1 >> c2" := (mbind c1 (fun _ => c2))
  (at level 61, right associativity).

(** try: body finally: final.  An exception of [final] replaces the one
    of [body]. *)
Definition try_finally {A : Type} (body : M A) (final : M unit) : M A :=
  fun w =>
    match body w with
    | (r, w') =>
        match final w' with
        | (Ok _, w'') => (r, w'')
        | (Raise e, w'') => (Raise e, w'')
        end
    end.

Definition echo (s : string) : M unit :=
  fun w => (Ok tt, mkWorld (w_fs w) (w_stdout w ++ [s]) (w_log w) (w_dar w)).

Definition log_info (e : log_entry) : M unit :=
  fun w => (Ok tt, mkWorld (w_fs w) (w_stdout w) (w_log w ++ [e]) (w_dar w)).

Definition read_fs {A : Type} (f : node -> result A) : M A :=
  fun w => (f (w_fs w), w).

Definition write_fs (f : node -> result node) : M unit :=
  fun w =>
    match f (w_fs w) with
    | Ok t => (Ok tt, mkWorld t (w_stdout w) (w_log w) (w_dar w))
    | Raise e => (Raise e, w)
    end.

Definition massert (b : bool) : M unit :=
  if b then ret tt else raise AssertionError.

(** subprocess.check_call(command) *)
Definition check_call (env : Env) (command : list string) : M unit :=
  fun w =>
    let w' := mkWorld (w_fs w) (w_stdout w) (w_log w) (w_dar w ++ [command]) in
    if dar_ok env command then (Ok tt, w') else (Raise CalledProcessError, w').

Definition run_dar (env : Env) (command : list string) : M unit :=
  log_info (LogCommand command) >>
  check_call env command >>
  log_info LogDone.

(** tempfile.mkdtemp(dir=...): one name is drawn; a name in use raises
    FileExistsError, as mkdtemp does when it runs out of names. *)
Definition mkdtemp (env : Env) (dir : PurePath) : M PurePath :=
  let path := pdiv dir (tmpname env) in
  write_fs (fun t => mkdir t (fs_path path)) >> ret path.

(* ------------------------------------------------------------------ *)
(** ** cmd_make *)

Record Config : Type := mkConfig {
  root : PurePath;
  workdir : PurePath;
  debug : bool;
  config_dir : PurePath
}.

Definition ETC : string := "/etc/backup".

Definition make_Config (root workdir : PurePath) (debug : bool) : Config :=
  mkConfig root workdir debug (PurePath_of ETC).

Definition make_dar_create_command
           (config_path basename_path : PurePath)
           (reference_basename_path : option PurePath) : list string :=
  let cmd := ["dar"; "-N"; "-c"; path_str basename_path;
              "--batch"; path_str config_path] in
  match reference_basename_path with
  | Some ref => cmd ++ ["--ref"; path_str ref]
  | None => cmd
  end.

Inductive Level : Type := level_g | level_f | level_s.

(** 'gfs'.index(level) *)
Definition level_num (level : Level) : nat :=
  match level with
  | level_g => 0
  | level_f => 1
  | level_s => 2
  end.

Definition str_nat (n : nat) : string :=
  NilEmpty.string_of_uint (Nat.to_uint n).

(** click.style(text, fg=...); the colour codes are not modelled. *)
Definition click_style (text fg : string) : string := text.

(** The local function ff of cmd_make. *)
Definition ff (all_backups : list (list Backup)) (level : nat)
  : M (option (list Backup)) :=
  let parent := latest_backup all_backups level in
  match parent with
  | None =>
      echo ("No backups at level " ++ str_nat level ++ " found.")%string
      >> ret parent
  | Some _ => ret parent
  end.

(** Lines 224 to 241 of cmd_make: the chain of the new backup. *)
Definition cmd_make_backup (env : Env) (root : PurePath) (level : Level)
  : M (list Backup) :=
  let backup := [mkBackup (now env)] in
  if (0 <? level_num level)%nat then
    all_backups <~ read_fs (fun t => list_backups t root) ;;
    parent_g <~ ff all_backups 1 ;;
    parent_f <~ ff all_backups 2 ;;
    match parent_g with
    | None =>
        echo "No backups found - will make a regular backup." >> ret backup
    | Some pg =>
        parent <~ match parent_f with
                  | None => ret pg
                  | Some pf =>
                      match pf, pg with
                      | f0 :: _, g0 :: _ =>
                          if dt_geb (timestamp f0) (timestamp g0)
                          then ret pf else ret pg
                      | _, _ => raise IndexError
                      end
                  end ;;
        ret (backup ++ parent)
    end
  else ret backup.

(** Lines 247 to 252 of cmd_make. *)
Definition reference_basename_path_of (root : PurePath) (backup : list Backup)
  : option PurePath :=
  if (1 <? List.length backup)%nat then
    let basename := backup_to_path (firstn 1 (skipn 1 backup)) in
    let backup_path := backup_to_path (skipn 1 backup) in
    Some (pjoin (pdiv (pjoin root backup_path) data_dir_name) basename)
  else None.

(** p.parent: the path without its last component; a bare root is its
    own parent. *)
Definition path_parent (p : PurePath) : PurePath :=
  match p with
  | [r] => if has_root p then p else []
  | _ => removelast p
  end.

Definition cmd_make (env : Env) (config : Config) (label : BackupLabel)
           (level : Level) (dry_run : bool) : M unit :=
  match level with
  | level_g => echo (click_style "Normal" "green" ++ " backup.")%string
  | _ => echo "Differential backup."
  end >>
  let root := pdiv (pdiv (root config) (part1 label)) (part2 label) in
  backup <~ cmd_make_backup env root level ;;
  echo ("Create backup: " ++ path_str (backup_to_path backup))%string >>
  let target_path := pdiv (pjoin root (backup_to_path backup)) data_dir_name in
  let reference_basename_path := reference_basename_path_of root backup in
  let config_file_name :=
    (part1 label ++ "-" ++ part2 label ++ ".dcf")%string in
  let config_path := pdiv (config_dir config) config_file_name in
  w <~ read_fs (fun t => Ok (path_is_dir t (config_dir config))) ;;
  massert w >>
  backup_dir <~ mkdtemp env (workdir config) ;;
  let basename_path := pjoin backup_dir (backup_to_path (firstn 1 backup)) in
  let command :=
    make_dar_create_command config_path basename_path
                            reference_basename_path in
  try_finally
    (if dry_run then log_info (LogCommand command) else run_dar env command)
    (if negb dry_run then
       write_fs (fun t => mkdir_parents t (fs_path (path_parent target_path)))
       >> write_fs (fun t => rename t (fs_path backup_dir)
                                    (fs_path target_path))
     else ret tt).

(* ------------------------------------------------------------------ *)
(** ** Vocabulary of the properties *)

Fixpoint string_forall (f : ascii -> bool) (s : string) : bool :=
  match s with
  | EmptyString => true
  | String c s' => f c && string_forall f s'
  end.

Definition no_slash (s : string) : bool :=
  string_forall (fun c => negb (Ascii.eqb c "/")) s.

(** The chain invariant of the data model: timestamps strictly decrease
    from the leaf (index 0) to the root. *)
Fixpoint chain_decreasing (c : list Backup) : bool :=
  match c with
  | a :: ((b :: _) as c') =>
      dt_ltb (timestamp b) (timestamp a) && chain_decreasing c'
  | _ => true
  end.

Definition valid_chain (c : list Backup) : bool :=
  forallb (fun b => valid_datetime (timestamp b)) c.

Definition ts_2020 : datetime := mkdatetime 2020 1 2 3 4 5 0.
Definition ts_2021 : datetime := mkdatetime 2021 12 31 23 59 59 0.

(** A father backup of 2021 on a grandfather backup of 2020. *)
Definition chain_2021_2020 : list Backup :=
  [mkBackup ts_2021; mkBackup ts_2020].

(** A sample installation: /etc/backup, the work directory /backup/.workdir
    and, under the label a/b, a grandfather backup of January 2020 with a
    father backup of March 2020 below it, and a second grandfather backup
    of February 2020. *)
Definition ts_jan : datetime := mkdatetime 2020 1 2 3 4 5 0.
Definition ts_feb : datetime := mkdatetime 2020 2 2 3 4 5 0.
Definition ts_mar : datetime := mkdatetime 2020 3 2 3 4 5 0.

Definition sample_label_dir : node :=
  Dir [("2020-01-02_03:04:05",
        Dir [("_data", Dir []);
             ("2020-03-02_03:04:05", Dir [("_data", Dir [])])]);
       ("2020-02-02_03:04:05", Dir [("_data", Dir [])])].

Definition sample_fs : node :=
  Dir [("etc", Dir [("backup", Dir [])]);
       ("backup",
        Dir [(".workdir", Dir []);
             ("a", Dir [("b", sample_label_dir)])])].

Definition sample_config : Config :=
  make_Config ["/"; "backup"] ["/"; "backup"; ".workdir"] false.

Definition sample_world : world := mkWorld sample_fs [] [] [].

Definition sample_root : PurePath := ["/"; "backup"; "a"; "b"].

(** The clock reads 2021-12-31 23:59:59, mkdtemp draws "tmpabc", and the
    archiver exits with the given status. *)
Definition sample_env (ok : bool) : Env :=
  mkEnv ts_2021 "tmpabc" (fun _ => ok).

(** The pieces of a run of cmd_make, named for the statements below. *)

(** root = config.root / label.part1 / label.part2 *)
Definition label_root (config : Config) (label : BackupLabel) : PurePath :=
  pdiv (pdiv (root config) (part1 label)) (part2 label).

(** The world after the first message of cmd_make. *)
Definition announced (level : Level) (w : world) : world :=
  snd (match level with
       | level_g => echo (click_style "Normal" "green" ++ " backup.")%string
       | _ => echo "Differential backup."
       end w).

(** target_path *)
Definition target_path_of (root : PurePath) (backup : list Backup)
  : PurePath :=
  pdiv (pjoin root (backup_to_path backup)) data_dir_name.

(** The directory mkdtemp creates. *)
Definition staging_dir (env : Env) (config : Config) : PurePath :=
  pdiv (workdir config) (tmpname env).

(** The command without its reference. *)
Definition base_command (env : Env) (config : Config) (label : BackupLabel)
           (backup : list Backup) : list string :=
  ["dar"; "-N"; "-c";
   path_str (pjoin (staging_dir env config)
                   (backup_to_path (firstn 1 backup)));
   "--batch";
   path_str (pdiv (config_dir config)
                  (part1 label ++ "-" ++ part2 label ++ ".dcf")%string)].

(** *** Vocabulary for the tree scanner *)

(** What the scanner asks of the entry [name] of a directory: the name
    matches the glob, the entry is a directory, and it has a _data
    subdirectory. *)
Definition backup_entry (name : string) (sub : node) : bool :=
  fnmatch name glob_format && (is_dir sub && has_data_dir sub).

(** The paths, relative to [dir], of the backup directories below [dir]:
    the entries of [dir] that are backup entries and, below each of them,
    its own backup directories.  Nothing is parsed here. *)
Fixpoint backup_paths (dir : node) : list (list string) :=
  match dir with
  | File => []
  | Dir entries =>
      (fix loop (es : list (string * node)) : list (list string) :=
         match es with
         | [] => []
         | (name, sub) :: es' =>
             if backup_entry name sub
             then ([name] :: map (cons name) (backup_paths sub)) ++ loop es'
             else loop es'
         end) entries
  end.

(** The same notion read off the tree by path lookups alone, whatever the
    order of enumeration: every step of the path is a backup entry. *)
Fixpoint is_backup_path (t : node) (p : list string) : bool :=
  match p with
  | [] => false
  | name :: p' =>
      match lookup t [name] with
      | Some sub =>
          backup_entry name sub
          && match p' with
             | [] => true
             | _ :: _ => is_backup_path sub p'
             end
      | None => false
      end
  end.

Definition name_parses (name : string) : bool :=
  match strptime name ts_format with
  | Ok _ => true
  | Raise _ => false
  end.

Definition parse_name (name : string) : datetime :=
  match strptime name ts_format with
  | Ok t => t
  | Raise _ => strptime_default
  end.

(** The chain of the backup directory at [p]: its own timestamp first,
    then those of the directories above it. *)
Definition chain_of_path (p : list string) : list Backup :=
  map (fun name => mkBackup (parse_name name)) (rev p).

(** Timestamps strictly increase along the path, from the top down. *)
Fixpoint path_increasing (p : list string) : bool :=
  match p with
  | a :: ((b :: _) as p') =>
      dt_ltb (parse_name a) (parse_name b) && path_increasing p'
  | _ => true
  end.

Fixpoint names_distinct (l : list string) : bool :=
  match l with
  | [] => true
  | n :: l' => negb (existsb (String.eqb n) l') && names_distinct l'
  end.

(** The entries of every directory have distinct names. *)
Fixpoint well_formed (t : node) : bool :=
  match t with
  | File => true
  | Dir entries =>
      names_distinct (map fst entries)
      && (fix all (es : list (string * node)) : bool :=
            match es with
            | [] => true
            | (_, c) :: es' => well_formed c && all es'
            end) entries
  end.

Inductive kind : Type := Absent | IsFile | IsDir.

Definition kind_of (o : option node) : kind :=
  match o with
  | None => Absent
  | Some File => IsFile
  | Some (Dir _) => IsDir
  end.

(** Two trees hold the same files and directories at the same paths; the
    order in which a directory lists its entries is free. *)
Definition same_layout (t1 t2 : node) : Prop :=
  forall p, kind_of (lookup t1 p) = kind_of (lookup t2 p).

(** The order of the sort contract on chains: [a] comes before [b] when the
    timestamps of [a], leaf first, are lexicographically no smaller. *)
Definition chain_ge (a b : list Backup) : Prop :=
  lex_compare dt_compare (map timestamp a) (map timestamp b) <> Lt.

(** Every name on every path is a timestamp strptime accepts. *)
Definition paths_parse (ps : list (list string)) : bool :=
  forallb (forallb name_parses) ps.

(** A three-way comparison that is a total order. *)
Record OrderCmp {A : Type} (cmp : A -> A -> comparison) : Prop := {
  cmp_eq : forall x y, cmp x y = Eq -> x = y;
  cmp_refl : forall x, cmp x x = Eq;
  cmp_antisym : forall x y, cmp y x = CompOpp (cmp x y);
  cmp_trans : forall x y z, cmp x y = Lt -> cmp y z = Lt -> cmp x z = Lt
}.

(** [x] may stand before [y] in a descending sort. *)
Definition pair_ge (x y : list datetime * list Backup) : Prop :=
  pair_compare x y <> Lt.

(** zip(keys, ret) *)
Definition keyed (ret : list (list Backup))
  : list (list datetime * list Backup) :=
  combine (map (map timestamp) ret) ret.

(** A decidable sufficient condition for [same_layout]: every entry of the
    first tree is found, with the same kind and recursively, in the
    second one, and the other way round. *)
Fixpoint covers (t1 t2 : node) : bool :=
  match t1, t2 with
  | File, File => true
  | Dir es1, Dir es2 =>
      (fix all (es : list (string * node)) : bool :=
         match es with
         | [] => true
         | (n, c1) :: es' =>
             match lookup_entry n es2 with
             | Some c2 => covers c1 c2
             | None => false
             end && all es'
         end) es1
  | _, _ => false
  end.

(** The sample installation as another enumeration would list it. *)
Definition sample_fs_reordered : node :=
  Dir [("backup",
        Dir [("a",
              Dir [("b",
                    Dir [("2020-02-02_03:04:05",
                          Dir [("_data", Dir [])]);
                         ("2020-01-02_03:04:05",
                          Dir [("2020-03-02_03:04:05",
                                Dir [("_data", Dir [])]);
                               ("_data", Dir [])])])]);
             (".workdir", Dir [])]);
       ("etc", Dir [("backup", Dir [])])].

(** Under the label a/b, a directory whose name matches the glob and which
    holds _data, but whose name is no calendar date (month 13). *)
Definition month13_fs : node :=
  Dir [("backup",
        Dir [("a",
              Dir [("b",
                    Dir [("2020-13-01_00:00:00",
                          Dir [("_data", Dir [])])])])])].

(** Under the label a/b, a backup of March 2020 that holds, one level
    down, a backup of January 2020. *)
Definition older_child_fs : node :=
  Dir [("backup",
        Dir [("a",
              Dir [("b",
                    Dir [("2020-03-02_03:04:05",
                          Dir [("_data", Dir []);
                               ("2020-01-02_03:04:05",
                                Dir [("_data", Dir [])])])])])])].

(** The destination of the sample run at level 's': the new backup below
    the father backup of March 2020. *)
Definition sample_target : PurePath :=
  ["/"; "backup"; "a"; "b"; "2020-01-02_03:04:05"; "2020-03-02_03:04:05";
   "2021-12-31_23:59:59"; "_data"].

(** A run whose clock reads the time of the grandfather backup of January
    2020 that the sample installation already holds; the archiver
    succeeds. *)
Definition clash_env : Env := mkEnv ts_jan "tmpabc" (fun _ => true).

(* ------------------------------------------------------------------ *)
(** ** get_backup_labels *)

(** path.iterdir(): the names of the entries, in enumeration order. *)
Definition iterdir (t : node) (p : list string) : result (list string) :=
  match lookup t p with
  | None => Raise FileNotFoundError
  | Some File => Raise NotADirectoryError
  | Some (Dir entries) => Ok (map fst entries)
  end.

(** is_dir() of the path [p] below the root of the tree. *)
Definition is_dir_at (t : node) (p : list string) : bool :=
  match lookup t p with
  | Some c => is_dir c
  | None => false
  end.

(** name.startswith('.') *)
Definition hidden (name : string) : bool := String.prefix "." name.

(** The local generator subdirs of get_backup_labels: the names of the
    entries of [p] that are directories and not hidden. *)
Definition subdirs (t : node) (p : list string) : result (list string) :=
  names <- iterdir t p ;;
  Ok (filter (fun name => is_dir_at t (p ++ [name]) && negb (hidden name))
             names).

(** The loops of get_backup_labels over the first-level directories
    [paths].  Nothing can fail once the root has been listed, short of a
    directory vanishing, so that the labels are collected in a list. *)
Fixpoint labels_below (t : node) (root : list string) (paths : list string)
  : result (list BackupLabel) :=
  match paths with
  | [] => Ok []
  | name :: paths' =>
      subpaths <- subdirs t (root ++ [name]) ;;
      rest <- labels_below t root paths' ;;
      Ok (map (fun subname => mkBackupLabel name subname) subpaths ++ rest)
  end.

Definition get_backup_labels (t : node) (root : PurePath)
  : result (list BackupLabel) :=
  paths <- subdirs t (fs_path root) ;;
  labels_below t (fs_path root) paths.

(** Chains the codec is exact on: valid datetimes of whole seconds, from
    the year 1000 on. *)
Definition codec_chain (c : list Backup) : bool :=
  forallb (fun b => valid_datetime (timestamp b)
                    && (microsecond (timestamp b) =? 0)
                    && (1000 <=? year (timestamp b))) c.

(* ------------------------------------------------------------------ *)
(** ** main *)

Definition DESTDIR : string := "/backup".

(** The value of an optional string in [value or default]: None and the
    empty string are both falsy. *)
Definition nonempty (o : option string) : option string :=
  match o with
  | Some (String c s) => Some (String c s)
  | _ => None
  end.

(** self.relative_to(other): [other] has to be [self] or one of its
    parents, that is the same anchor and a prefix of the components; the
    result is what is left of [self]. *)
Definition relative_to (self other : PurePath) : result PurePath :=
  if Bool.eqb (has_root self) (has_root other) && is_prefix other self
  then Ok (skipn (List.length other) self)
  else Raise ValueError.

(** The group callback: the values of --root, --workdir and --debug as
    click hands them over, the Config stored in ctx.obj as the result.
    The assert statement raises AssertionError. *)
Definition main (root workdir : option string) (debug : bool)
  : result Config :=
  let root :=
    PurePath_of (match nonempty root with Some s => s | None => DESTDIR end) in
  let default_workdir_name := ".workdir" in
  let workdir :=
    match nonempty workdir with
    | Some s => PurePath_of s
    | None => pdiv root default_workdir_name
    end in
  rel <- relative_to workdir root ;;
  if String.eqb (path_str rel) default_workdir_name
  then Ok (make_Config root workdir debug)
  else Raise AssertionError.

(* ------------------------------------------------------------------ *)
(** ** dir_size *)

(** path.is_file() *)
Definition is_file_at (t : node) (p : list string) : bool :=
  match lookup t p with
  | Some File => true
  | _ => false
  end.

(** The local function fsize of dir_size. The tree holds no symbolic
    link, so resolve() leaves the path as it is; [st_size] gives the size
    of the file at a path. *)
Definition fsize (st_size : list string -> Z) (t : node)
           (path : list string) : Z :=
  if is_file_at t path then st_size path else 0.

Definition dir_size (st_size : list string -> Z) (t : node)
           (dir_path : list string) : result Z :=
  children <- iterdir t dir_path ;;
  Ok (fold_left Z.add
                (map (fun child => fsize st_size t (dir_path ++ [child]))
                     children)
                0).

(** Two listings of one directory: the same names in another order, and
    the subdirectory filled on one side only. *)
Definition size_fs_a : node :=
  Dir [("d", Dir [("x", File); ("sub", Dir [("deep", File)]); ("y", File)])].

Definition size_fs_b : node :=
  Dir [("d", Dir [("y", File); ("sub", Dir []); ("x", File)])].

(* ------------------------------------------------------------------ *)
(** ** human_size *)

(** str(num) for an int *)
Definition str_Z (z : Z) : string := NilZero.string_of_int (Z.to_int z).

(** [n / d] rounded to the nearest integer, a tie to the even one
    ([0 < d]). *)
Definition round_half_even (n d : Z) : Z :=
  let q := n / d in
  let r := n mod d in
  if 2 * r <? d then q
  else if d <? 2 * r then q + 1
  else if Z.even q then q else q + 1.

(** float(num) for an int [0 <= num], as the division by 1024.0 first
    converts it: the nearest number of 53 significant bits, a tie to the
    even one; the result is again an integer. None stands for
    OverflowError. *)
Definition float_of_int (num : Z) : option Z :=
  let bits := Z.log2 num + 1 in
  if bits <=? 53 then Some num
  else
    let ulp := 2 ^ (bits - 53) in
    let f := round_half_even num ulp * ulp in
    if f <? 2 ^ 1024 then Some f else None.

(** The local function _fmt of human_size. The float it formats is the
    quotient [f / d] of a converted int by a power of 1024, which floating
    point division gives exactly; '{:.1f}' prints the decimal with one
    digit after the point that is nearest to it, a tie to the even one. *)
Definition _fmt (f d : Z) (unit : string) : string :=
  let tenths := round_half_even (10 * f) d in
  String.append (str_Z (tenths / 10))
    (String.append "." (String.append (str_Z (tenths mod 10)) unit)).

(** The loop over the units: [inl] is what it returns, [inr] the divisor
    it has reached when the units are used up. *)
Fixpoint human_size_loop (units : list string) (f d : Z) : string + Z :=
  match units with
  | [] => inr d
  | unit :: units' =>
      let d' := 1024 * d in
      if f <? 1024 * d' then inl (_fmt f d' unit)
      else human_size_loop units' f d'
  end.

Definition units : list string := ["K"; "M"; "G"; "T"].

Definition human_size (num : Z) : option string :=
  if num <? 1024 then Some (str_Z num)
  else
    match float_of_int num with
    | None => None
    | Some f =>
        Some (match human_size_loop units f 1 with
              | inl s => s
              | inr d => _fmt f d (last units "")
              end)
    end.

(* ------------------------------------------------------------------ *)
(** ** cmd_list *)

(** What ends a run of cmd_list early: an exception of the scan or of
    dir_size, or the OverflowError of human_size. *)
Inductive listing_exn : Type :=
| Exn (e : exn)
| OverflowError.

(** The line of one backup, or the exception met on the way to it. *)
Definition backup_line (st_size : list string -> Z) (t : node)
           (full_path : PurePath) (backup : list Backup)
  : listing_exn + string :=
  let backup_path := backup_to_path backup in
  match dir_size st_size t
                 (fs_path (pdiv (pjoin full_path backup_path)
                                data_dir_name)) with
  | Raise e => inl (Exn e)
  | Ok backup_size =>
      match human_size backup_size with
      | None => inl OverflowError
      | Some backup_size_str =>
          inr (" - " ++ path_str backup_path
                ++ " (" ++ backup_size_str ++ ")")%string
      end
  end.

(** The inner loop: the lines printed, in order, and the exception that
    stopped it, if one did. *)
Fixpoint print_backups (st_size : list string -> Z) (t : node)
         (full_path : PurePath) (backups : list (list Backup))
  : list string * option listing_exn :=
  match backups with
  | [] => ([], None)
  | backup :: backups' =>
      match backup_line st_size t full_path backup with
      | inl e => ([], Some e)
      | inr line =>
          let (lines, r) := print_backups st_size t full_path backups' in
          (line :: lines, r)
      end
  end.

(** The body of the outer loop for one label. *)
Definition print_label (st_size : list string -> Z) (t : node)
           (config : Config) (label : BackupLabel)
  : list string * option listing_exn :=
  let head := (path_str (backup_label_to_path label) ++ ":")%string in
  let full_path := pjoin (root config) (backup_label_to_path label) in
  match list_backups t full_path with
  | Raise e => ([head], Some (Exn e))
  | Ok backups =>
      let (lines, r) := print_backups st_size t full_path (rev backups) in
      (head :: lines, r)
  end.

Fixpoint print_labels (st_size : list string -> Z) (t : node)
         (config : Config) (labels : list BackupLabel)
  : list string * option listing_exn :=
  match labels with
  | [] => ([], None)
  | label :: labels' =>
      match print_label st_size t config label with
      | (lines, Some e) => (lines, Some e)
      | (lines, None) =>
          let (lines', r) := print_labels st_size t config labels' in
          (lines ++ lines', r)
      end
  end.

(** The three lines cmd_list starts with; click.format_filename leaves a
    path string as it is. *)
Definition list_header (config : Config) : list string :=
  [("Root:    " ++ path_str (root config))%string;
   ("Workdir: " ++ path_str (workdir config))%string;
   "Backups:"].

(** cmd_list reads the tree and prints; it changes nothing. The result is
    the lines printed and the exception that ended the run, if any. *)
Definition cmd_list (st_size : list string -> Z) (t : node)
           (config : Config) (tree : bool) (label : option BackupLabel)
  : list string * option listing_exn :=
  if tree then ([], None)
  else
    let labels :=
      match label with
      | Some label => Ok [label]
      | None => get_backup_labels t (root config)
      end in
    match labels with
    | Raise e => (list_header config, Some (Exn e))
    | Ok labels =>
        let (lines, r) := print_labels st_size t config labels in
        (list_header config ++ lines, r)
    end.

(** The names of all entries of a tree. *)
Fixpoint names_of (t : node) : list string :=
  match t with
  | File => []
  | Dir entries =>
      (fix all (es : list (string * node)) : list string :=
         match es with
         | [] => []
         | (name, c) :: es' => name :: names_of c ++ all es'
         end) entries
  end.

(** Every name of the tree that reads as a backup directory has a year of
    four digits without a leading zero, which strftime prints back as it
    stands. *)
Definition years_from_1000 (t : node) : bool :=
  forallb (fun name => negb (fnmatch name glob_format)
                       || (1000 <=? year (parse_name name)))
          (names_of t).

(** *** The claim on label characters, in its own words *)

(** A character of the set 0-9, a-z, A-Z, "_", "-", by its code. *)
Definition allowed_label_char (c : ascii) : bool :=
  let n := nat_of_ascii c in
  ((48 <=? n) && (n <=? 57) || (97 <=? n) && (n <=? 122)
   || (65 <=? n) && (n <=? 90) || (n =? 95) || (n =? 45))%nat.

(** A component matches at its start when it begins with at least one
    allowed character; what follows is free. *)
Definition matches_at_start (part : string) : bool :=
  match part with
  | String c _ => allowed_label_char c
  | EmptyString => false
  end.

(* ------------------------------------------------------------------ *)
(** * Properties *)

(** ** Digits and formatted timestamps *)

Lemma digit_val_digit (n : Z) : digit_val (digit n) = Some (n mod 10).
Proof.
  unfold digit_val, digit.
  assert (Hr : 0 <= n mod 10 < 10) by (apply Z.mod_pos_bound; lia).
  generalize dependent (n mod 10). intros k Hk.
  rewrite nat_ascii_embedding
    by (apply Nat2Z.inj_lt; rewrite Z2Nat.id by lia;
        change (Z.of_nat 256) with 256; lia).
  rewrite Z2Nat.id by lia.
  replace (48 <=? 48 + k) with true by (symmetry; apply Z.leb_le; lia).
  replace (48 + k <=? 57) with true by (symmetry; apply Z.leb_le; lia).
  replace (48 + k - 48) with k by lia. reflexivity.
Qed.

Lemma digit_not_slash (n : Z) : Ascii.eqb (digit n) "/" = false.
Proof.
  apply Ascii.eqb_neq. intros H.
  pose proof (digit_val_digit n) as Hd. rewrite H in Hd. discriminate Hd.
Qed.

Lemma split_no_slash (s : string) : no_slash s = true -> split "/" s = [s].
Proof.
  induction s as [|c s IH]; simpl; intros H; [reflexivity|].
  apply andb_true_iff in H as [Hc Hs].
  apply negb_true_iff in Hc. rewrite Hc, (IH Hs). reflexivity.
Qed.

Lemma strftime_unfold (t : datetime) :
  strftime t ts_format =
  (pad4 (year t) ++ "-" ++ pad2 (month t) ++ "-" ++ pad2 (day t) ++ "_"
     ++ pad2 (hour t) ++ ":" ++ pad2 (minute t) ++ ":"
     ++ pad2 (second t))%string.
Proof. reflexivity. Qed.

Lemma no_slash_strftime (t : datetime) : no_slash (strftime t ts_format) = true.
Proof.
  rewrite strftime_unfold. unfold pad4, pad2, no_slash. simpl.
  rewrite !digit_not_slash. reflexivity.
Qed.

Lemma digit_range (n lo hi : Z) :
  lo <= 0 -> 9 <= hi -> (lo <=? n mod 10) && (n mod 10 <=? hi) = true.
Proof.
  intros Hlo Hhi.
  assert (Hr : 0 <= n mod 10 < 10) by (apply Z.mod_pos_bound; lia).
  apply andb_true_iff. split; apply Z.leb_le; lia.
Qed.

Lemma match_seq_year (y : Z) (s : string) :
  0 <= y <= 9999 ->
  match_seq [Rng 0 9; Rng 0 9; Rng 0 9; Rng 0 9] (pad4 y ++ s)%string 0
  = Some (y, s).
Proof.
  intros Hy. unfold pad4, pad2. cbn [match_seq String.append].
  rewrite !digit_val_digit.
  rewrite !digit_range by lia.
  f_equal. f_equal. Z.div_mod_to_equations. lia.
Qed.

(** A two-digit field in the range of its directive is read back by the
    first alternative that matches it. *)
Ltac field_cases n H :=
  let k := fresh "k" in
  let Hk := fresh "Hk" in
  assert (Hk : exists k : nat, n = Z.of_nat k) by (exists (Z.to_nat n); lia);
  destruct Hk as [k ->];
  do 60 (destruct k as [|k];
         [try lia;
          match goal with
          | |- context [pad2 ?v] =>
              let x := eval vm_compute in (pad2 v) in change (pad2 v) with x
          end;
          simpl in H |- *; rewrite H; reflexivity
         |]);
  lia.

Lemma regex_match_pm (m : Z) fmt s t r :
  1 <= m <= 12 ->
  regex_match fmt s (set_field pm m t) = Some r ->
  regex_match (pm :: fmt) (pad2 m ++ s)%string t = Some r.
Proof. intros Hm H. field_cases m H. Qed.

Lemma regex_match_pd (d : Z) fmt s t r :
  1 <= d <= 31 ->
  regex_match fmt s (set_field pd d t) = Some r ->
  regex_match (pd :: fmt) (pad2 d ++ s)%string t = Some r.
Proof. intros Hd H. field_cases d H. Qed.

Lemma regex_match_pH (h : Z) fmt s t r :
  0 <= h <= 23 ->
  regex_match fmt s (set_field pH h t) = Some r ->
  regex_match (pH :: fmt) (pad2 h ++ s)%string t = Some r.
Proof. intros Hh H. field_cases h H. Qed.

Lemma regex_match_pM (m : Z) fmt s t r :
  0 <= m <= 59 ->
  regex_match fmt s (set_field pM m t) = Some r ->
  regex_match (pM :: fmt) (pad2 m ++ s)%string t = Some r.
Proof. intros Hm H. field_cases m H. Qed.

Lemma regex_match_pS (x : Z) fmt s t r :
  0 <= x <= 59 ->
  regex_match fmt s (set_field pS x t) = Some r ->
  regex_match (pS :: fmt) (pad2 x ++ s)%string t = Some r.
Proof. intros Hx H. field_cases x H. Qed.

Lemma regex_match_pY (y : Z) fmt s t r :
  0 <= y <= 9999 ->
  regex_match fmt s (set_field pY y t) = Some r ->
  regex_match (pY :: fmt) (pad4 y ++ s)%string t = Some r.
Proof.
  intros Hy H. cbn [regex_match regex_of].
  rewrite (match_seq_year y s Hy), H. reflexivity.
Qed.

Lemma regex_match_Lit (c : ascii) fmt s t :
  regex_match (Lit c :: fmt) (String c s) t = regex_match fmt s t.
Proof. cbn [regex_match]. rewrite Ascii.eqb_refl. reflexivity. Qed.

Lemma days_in_month_le (y m : Z) : days_in_month y m <= 31.
Proof.
  unfold days_in_month.
  repeat (match goal with
          | |- context [match ?x with _ => _ end] => destruct x
          end; try lia).
Qed.

Lemma valid_datetime_bounds (t : datetime) :
  valid_datetime t = true ->
  1 <= year t <= 9999 /\ 1 <= month t <= 12 /\
  1 <= day t <= days_in_month (year t) (month t) /\
  0 <= hour t <= 23 /\ 0 <= minute t <= 59 /\ 0 <= second t <= 59 /\
  0 <= microsecond t <= 999999.
Proof.
  unfold valid_datetime. intros H.
  repeat (apply andb_true_iff in H as [H ?]).
  repeat match goal with
         | H : (_ <=? _) = true |- _ => apply Z.leb_le in H
         end.
  pose proof (days_in_month_le (year t) (month t)). lia.
Qed.

Lemma strptime_strftime (t : datetime) :
  valid_datetime t = true ->
  microsecond t = 0 ->
  strptime (strftime t ts_format) ts_format = Ok t.
Proof.
  intros Hv Hus.
  pose proof (valid_datetime_bounds t Hv) as (Hy & Hm & Hd & HH & HM & HS & _).
  pose proof (days_in_month_le (year t) (month t)) as Hdim.
  unfold strptime.
  assert (E : regex_match ts_format (strftime t ts_format) strptime_default
              = Some (t, EmptyString)).
  { rewrite strftime_unfold. unfold ts_format.
    apply regex_match_pY; [lia|].
    cbn [String.append]. rewrite regex_match_Lit.
    apply regex_match_pm; [lia|].
    cbn [String.append]. rewrite regex_match_Lit.
    apply regex_match_pd; [lia|].
    cbn [String.append]. rewrite regex_match_Lit.
    apply regex_match_pH; [lia|].
    cbn [String.append]. rewrite regex_match_Lit.
    apply regex_match_pM; [lia|].
    cbn [String.append]. rewrite regex_match_Lit.
    replace (pad2 (second t)) with (pad2 (second t) ++ "")%string
      by (unfold pad2; reflexivity).
    apply regex_match_pS; [lia|].
    cbn. destruct t; cbn in *. subst. reflexivity. }
  rewrite E, Hv. reflexivity.
Qed.

(** ** Paths with a single component *)

Lemma path_root_no_slash (s : string) : no_slash s = true -> path_root s = "".
Proof.
  destruct s as [|c s]; [reflexivity|].
  unfold no_slash. cbn [string_forall]. intros H.
  apply andb_true_iff in H as [Hc _]. apply negb_true_iff in Hc.
  destruct c as [[] [] [] [] [] [] [] []];
    first [discriminate Hc | reflexivity].
Qed.

Lemma has_root_no_slash (s : string) (p : PurePath) :
  no_slash s = true -> has_root (s :: p) = false.
Proof.
  destruct s as [|c s]; [reflexivity|].
  unfold no_slash. cbn [string_forall]. intros H.
  apply andb_true_iff in H as [Hc _]. apply negb_true_iff in Hc.
  destruct c as [[] [] [] [] [] [] [] []];
    first [discriminate Hc | reflexivity].
Qed.

Lemma PurePath_of_component (s : string) :
  no_slash s = true -> is_component s = true -> PurePath_of s = [s].
Proof.
  intros Hs Hc. unfold PurePath_of.
  rewrite (path_root_no_slash s Hs), (split_no_slash s Hs).
  cbn. rewrite Hc. reflexivity.
Qed.

Lemma path_str_component (s : string) :
  no_slash s = true -> path_str [s] = s.
Proof.
  intros Hs. unfold path_str. rewrite (has_root_no_slash s [] Hs).
  reflexivity.
Qed.

Lemma is_component_strftime (t : datetime) :
  is_component (strftime t ts_format) = true.
Proof.
  rewrite strftime_unfold. unfold pad4. cbn [String.append].
  unfold is_component. cbn [String.eqb].
  assert (H : Ascii.eqb (digit (year t / 1000)) "." = false).
  { apply Ascii.eqb_neq. intros H.
    pose proof (digit_val_digit (year t / 1000)) as Hd.
    rewrite H in Hd. discriminate Hd. }
  rewrite H. reflexivity.
Qed.

Lemma PurePath_of_strftime (t : datetime) :
  PurePath_of (strftime t ts_format) = [strftime t ts_format].
Proof.
  apply PurePath_of_component;
    [apply no_slash_strftime | apply is_component_strftime].
Qed.

Lemma pdiv_strftime (p : PurePath) (t : datetime) :
  pdiv p (strftime t ts_format) = p ++ [strftime t ts_format].
Proof.
  unfold pdiv, pjoin. rewrite PurePath_of_strftime.
  rewrite (has_root_no_slash _ [] (no_slash_strftime t)). reflexivity.
Qed.

Lemma joinpath_strftime (l : list Backup) (acc : PurePath) :
  joinpath acc (map (fun b => strftime (timestamp b) ts_format) l)
  = acc ++ map (fun b => strftime (timestamp b) ts_format) l.
Proof.
  unfold joinpath. revert acc.
  induction l as [|b l IH]; intros acc; cbn [map fold_left].
  - rewrite app_nil_r. reflexivity.
  - rewrite pdiv_strftime, IH, <- app_assoc. reflexivity.
Qed.

(** backup_to_path lists the formatted timestamps from root to leaf. *)
Lemma backup_to_path_parts (backups : list Backup) :
  backup_to_path backups
  = map (fun b => strftime (timestamp b) ts_format) (rev backups).
Proof. unfold backup_to_path. apply joinpath_strftime. Qed.

(** ** The path codec *)

(** C2, as stated, fails: for the two-element chain of a 2021 backup on a
    2020 backup, which is valid and strictly decreasing, backup_to_path
    yields the two-component path "2020-.../2021-...", and path_to_backup
    parses the whole of it as one timestamp and raises ValueError. *)
Lemma roundtrip_whole_chain_raises :
  chain_2021_2020 <> [] /\
  valid_chain chain_2021_2020 = true /\
  chain_decreasing chain_2021_2020 = true /\
  path_str (backup_to_path chain_2021_2020)
  = "2020-01-02_03:04:05/2021-12-31_23:59:59" /\
  path_to_backup (backup_to_path chain_2021_2020) (Some (tl chain_2021_2020))
  = Raise ValueError /\
  path_to_backup (backup_to_path chain_2021_2020) (Some (tl chain_2021_2020))
  <> Ok chain_2021_2020.
Proof.
  repeat split; try reflexivity; try discriminate.
Qed.

(** C2, amended: the round trip holds for the path of the leaf alone.  For
    every chain [b :: parents] whose leaf timestamp is a valid datetime of
    whole seconds (year 1000 or later), path_to_backup applied to
    backup_to_path of the one-element chain [b] and to the ancestors
    [parents] gives the chain back; for a chain of length one this is the
    round trip of the claim. *)
Theorem roundtrip_leaf_path (b : Backup) (parents : list Backup) :
  valid_datetime (timestamp b) = true ->
  1000 <= year (timestamp b) ->
  microsecond (timestamp b) = 0 ->
  path_to_backup (backup_to_path (firstn 1 (b :: parents)))
                 (Some (tl (b :: parents)))
  = Ok (b :: parents).
Proof.
  intros Hv _ Hus. cbn [firstn tl].
  rewrite backup_to_path_parts. cbn [rev app map].
  unfold path_to_backup.
  rewrite (path_str_component _ (no_slash_strftime (timestamp b))).
  rewrite (strptime_strftime _ Hv Hus). cbn [bind or_nil app].
  destruct b; reflexivity.
Qed.

Lemma roundtrip_leaf_path_witness :
  path_to_backup (backup_to_path [mkBackup ts_2021]) (Some [mkBackup ts_2020])
  = Ok chain_2021_2020.
Proof.
  apply (roundtrip_leaf_path (mkBackup ts_2021) [mkBackup ts_2020]).
  - reflexivity.
  - cbn. lia.
  - reflexivity.
Defined.

(** ** The label validator *)

Lemma forallb_false_exists {A : Type} (f : A -> bool) (l : list A) :
  forallb f l = false <-> exists x, In x l /\ f x = false.
Proof.
  induction l as [|a l IH]; cbn.
  - split; [discriminate | intros (x & [] & _)].
  - rewrite andb_false_iff, IH. split.
    + intros [Ha | (x & Hx & Hf)]; [exists a | exists x]; auto.
    + intros (x & [-> | Hx] & Hf); [left | right; exists x]; auto.
Qed.

Lemma truthy_false {A : Type} (o : option A) : truthy o = false <-> o = None.
Proof. destruct o; cbn; split; congruence. Qed.

(** re.match succeeds as soon as the first character is in the class. *)
Lemma re_match_label_first (c : ascii) (s : string) :
  label_char c = true ->
  re_match_label (String c s) = Some (String c (take_while label_char s)).
Proof. intros H. unfold re_match_label. cbn. rewrite H. reflexivity. Qed.

(** C6: what validate_backup_label does on the four labels of the claim.
    "a/b" is accepted as (a, b); "a" and "a/b/c" are refused for their
    format; "a!/b" is accepted as (a!, b), where the claim expects the
    refusal for invalid characters. *)
Theorem validate_backup_label_examples :
  validate_backup_label true (Some "a/b")
  = Ok (Some (mkBackupLabel "a" "b")) /\
  validate_backup_label true (Some "a") = Raise (BadParameter msg_format) /\
  validate_backup_label true (Some "a/b/c")
  = Raise (BadParameter msg_format) /\
  validate_backup_label true (Some "a!/b")
  = Ok (Some (mkBackupLabel "a!" "b")).
Proof. repeat split. Qed.

Lemma ascii_eqb_nat (c d : ascii) :
  Ascii.eqb c d = (nat_of_ascii c =? nat_of_ascii d)%nat.
Proof.
  destruct (Ascii.eqb_spec c d) as [-> | Hne].
  - symmetry. apply Nat.eqb_refl.
  - symmetry. apply Nat.eqb_neq. intros E. apply Hne.
    rewrite <- (ascii_nat_embedding c), <- (ascii_nat_embedding d), E.
    reflexivity.
Qed.

(** The class of the regular expression is the set of the claim. *)
Lemma label_char_allowed (c : ascii) : label_char c = allowed_label_char c.
Proof.
  unfold label_char, allowed_label_char, in_range.
  rewrite !ascii_eqb_nat. reflexivity.
Qed.

(** re.match fails exactly on a component that does not begin with an
    allowed character. *)
Lemma re_match_label_None (part : string) :
  re_match_label part = None <-> matches_at_start part = false.
Proof.
  unfold re_match_label. destruct part as [|c s]; cbn [take_while].
  - split; reflexivity.
  - rewrite label_char_allowed. cbn [matches_at_start].
    destruct (allowed_label_char c); split; congruence.
Qed.

(** C7: validate_backup_label raises the invalid-characters error exactly
    when the label has two components (the format check comes first) and
    one of them does not match at its start, that is, is empty or begins
    with a character outside 0-9, a-z, A-Z, "_", "-"; two components that
    each begin with an allowed character are accepted whatever follows
    it. *)
Theorem validate_backup_label_invalid_characters
        (required : bool) (v : string) :
  (validate_backup_label required (Some v) = Raise (BadParameter msg_chars)
   <-> List.length (PurePath_of v) = 2%nat /\
       exists part, In part (PurePath_of v) /\ matches_at_start part = false)
  /\
  (forall a b,
      PurePath_of v = [a; b] ->
      matches_at_start a = true -> matches_at_start b = true ->
      validate_backup_label required (Some v)
      = Ok (Some (mkBackupLabel a b))).
Proof.
  unfold validate_backup_label. split.
  - destruct (Nat.eqb_spec (List.length (PurePath_of v)) 2) as [E | E];
      cbn [negb].
    + destruct (forallb (fun part => truthy (re_match_label part))
                        (PurePath_of v)) eqn:F; cbn [negb].
      * split.
        -- destruct (PurePath_of v) as [|a [|b [|c l]]]; discriminate.
        -- intros (_ & part & Hin & Hn).
           rewrite forallb_forall in F. specialize (F part Hin).
           apply re_match_label_None in Hn. rewrite Hn in F. discriminate.
      * split; [|reflexivity]. intros _. split; [exact E|].
        apply forallb_false_exists in F as (part & Hin & Hf).
        exists part. split; [exact Hin|].
        apply re_match_label_None, truthy_false, Hf.
    + split; [discriminate | intros (E' & _); contradiction].
  - intros a b -> Ha Hb. cbn [List.length Nat.eqb negb forallb].
    destruct a as [|c1 s1]; [discriminate Ha|].
    destruct b as [|c2 s2]; [discriminate Hb|].
    cbn [matches_at_start] in Ha, Hb.
    rewrite <- label_char_allowed in Ha, Hb.
    rewrite (re_match_label_first c1 s1 Ha), (re_match_label_first c2 s2 Hb).
    reflexivity.
Qed.

Lemma validate_backup_label_invalid_characters_witness :
  validate_backup_label true (Some "a!/b+")
  = Ok (Some (mkBackupLabel "a!" "b+")).
Proof.
  apply (proj2 (validate_backup_label_invalid_characters true "a!/b+")
               "a!" "b+"); reflexivity.
Defined.

(** ** The rotation policy *)

Lemma latest_backup_Some (backups : list (list Backup)) (level : nat)
      (x : list Backup) :
  latest_backup backups level = Some x ->
  List.length x = level /\ In x backups.
Proof.
  unfold latest_backup.
  induction backups as [|y l IH]; cbn [dropwhile]; [discriminate|].
  destruct (Nat.eqb_spec (List.length y) level) as [E | E]; cbn [negb].
  - intros [= ->]. split; [exact E | left; reflexivity].
  - intros H. destruct (IH H) as [H1 H2]. split; [exact H1 | right; exact H2].
Qed.

Lemma level_extends (level : Level) :
  level <> level_g -> (0 <? level_num level)%nat = true.
Proof. destruct level; [contradiction | reflexivity | reflexivity]. Qed.

(** C3: when extension is requested and the sorted list has a most recent
    chain g of length 1 (leaf T0) and a most recent chain f of length 2
    (leaf T1), the new chain is the new backup on f, of length 3, if
    T1 >= T0, and the new backup on g, of length 2, if T1 < T0. *)
Theorem rotation_parent_choice (env : Env) (root : PurePath) (level : Level)
        (w : world) (all_backups : list (list Backup)) (g f : list Backup) :
  level <> level_g ->
  list_backups (w_fs w) root = Ok all_backups ->
  latest_backup all_backups 1 = Some g ->
  latest_backup all_backups 2 = Some f ->
  exists g0 f0 f1,
    g = [g0] /\ f = [f0; f1] /\
    (dt_geb (timestamp f0) (timestamp g0) = true ->
     cmd_make_backup env root level w = (Ok (mkBackup (now env) :: f), w) /\
     List.length (mkBackup (now env) :: f) = 3%nat) /\
    (dt_ltb (timestamp f0) (timestamp g0) = true ->
     cmd_make_backup env root level w = (Ok (mkBackup (now env) :: g), w) /\
     List.length (mkBackup (now env) :: g) = 2%nat).
Proof.
  intros Hl Hall Hg Hf.
  destruct (latest_backup_Some _ _ _ Hg) as [Lg _].
  destruct (latest_backup_Some _ _ _ Hf) as [Lf _].
  destruct g as [|g0 [|? ?]]; try discriminate Lg.
  destruct f as [|f0 [|f1 [|? ?]]]; try discriminate Lf.
  exists g0, f0, f1. split; [reflexivity|]. split; [reflexivity|].
  unfold cmd_make_backup. rewrite (level_extends level Hl).
  unfold mbind, read_fs, ff. rewrite Hall, Hg, Hf. unfold ret.
  unfold dt_geb. split; intros H.
  - rewrite H. split; reflexivity.
  - rewrite H. split; reflexivity.
Qed.

Lemma rotation_parent_choice_witness :
  exists g0 f0 f1,
    [mkBackup ts_feb] = [g0] /\
    [mkBackup ts_mar; mkBackup ts_jan] = [f0; f1] /\
    (dt_geb (timestamp f0) (timestamp g0) = true ->
     cmd_make_backup (sample_env true) sample_root level_s sample_world
     = (Ok (mkBackup (now (sample_env true))
              :: [mkBackup ts_mar; mkBackup ts_jan]), sample_world) /\
     List.length (mkBackup (now (sample_env true))
                    :: [mkBackup ts_mar; mkBackup ts_jan]) = 3%nat) /\
    (dt_ltb (timestamp f0) (timestamp g0) = true ->
     cmd_make_backup (sample_env true) sample_root level_s sample_world
     = (Ok (mkBackup (now (sample_env true)) :: [mkBackup ts_feb]),
        sample_world) /\
     List.length (mkBackup (now (sample_env true)) :: [mkBackup ts_feb])
     = 2%nat).
Proof.
  apply (rotation_parent_choice
           (sample_env true) sample_root level_s sample_world
           [[mkBackup ts_mar; mkBackup ts_jan]; [mkBackup ts_feb];
            [mkBackup ts_jan]]).
  - discriminate.
  - reflexivity.
  - reflexivity.
  - reflexivity.
Defined.

(** C4: when extension is requested and the sorted list has no chain of
    length 1, cmd_make tells so on its output ("No backups at level 1
    found.", then "No backups found - will make a regular backup.") and
    goes on, without raising, with the chain of the new backup alone: no
    parent, no reference archive, the same for levels 'f' and 's', and
    whether or not longer chains exist. *)
Theorem rotation_without_full_backup (env : Env) (root : PurePath)
        (level : Level) (w : world) (all_backups : list (list Backup)) :
  level <> level_g ->
  list_backups (w_fs w) root = Ok all_backups ->
  latest_backup all_backups 1 = None ->
  exists w',
    cmd_make_backup env root level w = (Ok [mkBackup (now env)], w') /\
    w_fs w' = w_fs w /\ w_log w' = w_log w /\ w_dar w' = w_dar w /\
    w_stdout w'
    = w_stdout w ++ ["No backups at level 1 found."]
        ++ match latest_backup all_backups 2 with
           | None => ["No backups at level 2 found."]
           | Some _ => []
           end
        ++ ["No backups found - will make a regular backup."] /\
    reference_basename_path_of root [mkBackup (now env)] = None.
Proof.
  intros Hl Hall Hg.
  unfold cmd_make_backup. rewrite (level_extends level Hl).
  unfold mbind, read_fs, ff. rewrite Hall, Hg.
  destruct (latest_backup all_backups 2) as [f|];
    cbn; eexists; repeat split; cbn;
    rewrite <- ?app_assoc; reflexivity.
Qed.

Lemma rotation_without_full_backup_witness :
  exists w',
    cmd_make_backup (sample_env true) ["/"; "backup"; "c"; "d"] level_f
                    sample_world
    = (Ok [mkBackup (now (sample_env true))], w') /\
    w_fs w' = w_fs sample_world /\ w_log w' = w_log sample_world /\
    w_dar w' = w_dar sample_world /\
    w_stdout w'
    = w_stdout sample_world ++ ["No backups at level 1 found."]
        ++ match latest_backup [] 2 with
           | None => ["No backups at level 2 found."]
           | Some _ => []
           end
        ++ ["No backups found - will make a regular backup."] /\
    reference_basename_path_of ["/"; "backup"; "c"; "d"]
                               [mkBackup (now (sample_env true))] = None.
Proof.
  apply (rotation_without_full_backup
           (sample_env true) ["/"; "backup"; "c"; "d"] level_f sample_world
           []).
  - discriminate.
  - reflexivity.
  - reflexivity.
Defined.

(** ** The archiver command *)

Lemma has_root_app (a b : PurePath) :
  a <> [] -> has_root (a ++ b) = has_root a.
Proof. destruct a; [contradiction | reflexivity]. Qed.

Lemma pjoin_assoc (a b c : PurePath) :
  pjoin (pjoin a b) c = pjoin a (pjoin b c).
Proof.
  unfold pjoin. destruct (has_root c) eqn:Hc.
  - rewrite Hc. reflexivity.
  - destruct b as [|x b].
    + cbn [has_root app]. rewrite Hc, app_nil_r. reflexivity.
    + rewrite (has_root_app (x :: b) c) by discriminate.
      destruct (has_root (x :: b)); [reflexivity | apply eq_sym, app_assoc].
Qed.

(** root / label.part1 / label.part2 is root / backup_label_to_path(label). *)
Lemma label_root_label_path (config : Config) (label : BackupLabel) :
  label_root config label
  = pjoin (root config) (backup_label_to_path label).
Proof.
  unfold label_root, backup_label_to_path, pdiv. apply pjoin_assoc.
Qed.

Lemma pjoin_strftime (p : PurePath) (t : datetime) :
  pjoin p (backup_to_path [mkBackup t]) = pdiv p (strftime t ts_format).
Proof.
  rewrite backup_to_path_parts, pdiv_strftime. cbn [rev app map timestamp].
  unfold pjoin.
  rewrite (has_root_no_slash _ [] (no_slash_strftime t)). reflexivity.
Qed.

(** Lines 247 to 252: the reference of a chain with a parent. *)
Lemma reference_basename_path_parent (root : PurePath) (b p0 : Backup)
      (ancestors : list Backup) :
  reference_basename_path_of root (b :: p0 :: ancestors)
  = Some (pdiv (pdiv (pjoin root (backup_to_path (p0 :: ancestors)))
                     data_dir_name)
               (strftime (timestamp p0) ts_format)).
Proof.
  unfold reference_basename_path_of. cbn [List.length Nat.ltb Nat.leb].
  cbn [skipn firstn]. destruct p0 as [t]. rewrite pjoin_strftime.
  reflexivity.
Qed.

Lemma cmd_make_backup_frame (env : Env) (root : PurePath) (level : Level)
      (w : world) :
  let w' := snd (cmd_make_backup env root level w) in
  w_fs w' = w_fs w /\ w_log w' = w_log w /\ w_dar w' = w_dar w.
Proof.
  unfold cmd_make_backup, mbind, read_fs, ff, ret, raise, echo.
  destruct (0 <? level_num level)%nat; [|cbn; auto].
  destruct (list_backups (w_fs w) root) as [all|e]; [|cbn; auto].
  destruct (latest_backup all 1) as [[|g0 g]|];
    destruct (latest_backup all 2) as [[|f0 f]|]; cbn; auto.
  destruct (dt_geb (timestamp f0) (timestamp g0)); cbn; auto.
Qed.

(** ** The file system operations *)

Lemma lookup_entry_update_same (n : string) (c x : node)
      (es : list (string * node)) :
  lookup_entry n es = Some x -> lookup_entry n (update_entry n c es) = Some c.
Proof.
  induction es as [|[m y] es IH]; cbn; [discriminate|].
  destruct (String.eqb_spec m n) as [-> | Hne]; cbn.
  - rewrite String.eqb_refl. reflexivity.
  - apply String.eqb_neq in Hne. rewrite Hne. exact IH.
Qed.

Lemma lookup_entry_update_other (n m : string) (c : node)
      (es : list (string * node)) :
  n <> m -> lookup_entry n (update_entry m c es) = lookup_entry n es.
Proof.
  intros Hne. induction es as [|[k y] es IH]; cbn; [reflexivity|].
  destruct (String.eqb_spec k m) as [-> | Hkm]; cbn.
  - destruct (String.eqb_spec m n) as [-> | _]; [contradiction | reflexivity].
  - rewrite IH. reflexivity.
Qed.

Lemma lookup_entry_app_same (n : string) (c : node)
      (es : list (string * node)) :
  lookup_entry n es = None -> lookup_entry n (es ++ [(n, c)]) = Some c.
Proof.
  induction es as [|[m y] es IH]; cbn.
  - rewrite String.eqb_refl. reflexivity.
  - destruct (String.eqb m n); [discriminate | exact IH].
Qed.

Lemma lookup_entry_app_other (n m : string) (c : node)
      (es : list (string * node)) :
  n <> m -> lookup_entry n (es ++ [(m, c)]) = lookup_entry n es.
Proof.
  intros Hne. induction es as [|[k y] es IH]; cbn.
  - destruct (String.eqb_spec m n) as [-> | _]; [contradiction | reflexivity].
  - destruct (String.eqb k n); [reflexivity | exact IH].
Qed.

Lemma lookup_entry_remove_same (n : string) (es : list (string * node)) :
  lookup_entry n (remove_entry n es) = None.
Proof.
  unfold remove_entry. induction es as [|[m y] es IH]; cbn; [reflexivity|].
  destruct (String.eqb m n) eqn:E; cbn; [exact IH|].
  rewrite E. exact IH.
Qed.

Lemma same_path_eq (p q : list string) : same_path p q = true -> p = q.
Proof.
  unfold same_path. revert q.
  induction p as [|a p IH]; intros [|b q]; cbn; try discriminate;
    [reflexivity|].
  intros H. apply andb_true_iff in H as [H1 H2].
  apply andb_true_iff in H1 as [Hab H1].
  apply andb_true_iff in H2 as [_ H2].
  apply String.eqb_eq in Hab. subst b. f_equal. apply IH.
  rewrite H1, H2. reflexivity.
Qed.

Lemma lookup_new_dirs (p : list string) :
  lookup (new_dirs p) p = Some (Dir []).
Proof.
  induction p as [|n p IH]; cbn; [reflexivity|].
  rewrite String.eqb_refl. exact IH.
Qed.

Lemma mkdir_Ok (t t' : node) (p : list string) :
  mkdir t p = Ok t' -> lookup t' p = Some (Dir []).
Proof.
  revert t t'. induction p as [|n p IH]; intros t t' H; [discriminate|].
  cbn [mkdir] in H. destruct t as [|es]; [discriminate|].
  destruct (lookup_entry n es) as [c|] eqn:E.
  - destruct (mkdir c p) as [c'|e] eqn:Ec; [|discriminate].
    cbn [bind] in H. injection H as <-. cbn [lookup].
    rewrite (lookup_entry_update_same n c' c es E). apply (IH c c' Ec).
  - destruct p as [|m p]; [|discriminate].
    injection H as <-. cbn [lookup].
    rewrite (lookup_entry_app_same n _ es E). reflexivity.
Qed.

Lemma mkdir_parents_Ok (t t' : node) (q : list string) :
  mkdir_parents t q = Ok t' ->
  lookup t q = None /\ lookup t' q = Some (Dir []).
Proof.
  revert t t'. induction q as [|n q IH]; intros t t' H; [discriminate|].
  cbn [mkdir_parents] in H. destruct t as [|es]; [discriminate|].
  cbn [lookup]. destruct (lookup_entry n es) as [c|] eqn:E.
  - destruct (mkdir_parents c q) as [c'|e] eqn:Ec; [|discriminate].
    cbn [bind] in H. injection H as <-. cbn [lookup].
    rewrite (lookup_entry_update_same n c' c es E). apply (IH c c' Ec).
  - injection H as <-. split; [reflexivity|]. cbn [lookup].
    rewrite (lookup_entry_app_same n _ es E). apply lookup_new_dirs.
Qed.

(** mkdir(parents=True) leaves alone what is not on the way to the new
    directory. *)
Lemma mkdir_parents_preserve (t t' : node) (q p : list string) (x : node) :
  mkdir_parents t q = Ok t' ->
  lookup t p = Some x -> is_prefix p q = false ->
  lookup t' p = Some x.
Proof.
  revert t t' p. induction q as [|n q IH]; intros t t' p H Hp Hpre;
    [discriminate|].
  destruct p as [|a p]; [discriminate|].
  cbn [mkdir_parents] in H. destruct t as [|es]; [discriminate|].
  cbn [lookup] in Hp |- *. cbn [is_prefix] in Hpre.
  destruct (lookup_entry n es) as [c|] eqn:E.
  - destruct (mkdir_parents c q) as [c'|e] eqn:Ec; [|discriminate].
    cbn [bind] in H. injection H as <-. cbn [lookup].
    destruct (String.eqb_spec a n) as [-> | Hne].
    + rewrite E in Hp. rewrite (lookup_entry_update_same n c' c es E).
      apply (IH c c' p Ec Hp). exact Hpre.
    + rewrite (lookup_entry_update_other a n c' es Hne). exact Hp.
  - injection H as <-. cbn [lookup].
    destruct (String.eqb_spec a n) as [-> | Hne].
    + rewrite E in Hp. discriminate.
    + rewrite (lookup_entry_app_other a n _ es Hne). exact Hp.
Qed.

Lemma place_at_Ok (t t' : node) (p : list string) (sub : node) :
  place_at t p sub = Ok t' -> lookup t' p = Some sub.
Proof.
  revert t t'. induction p as [|n p IH]; intros t t' H; [discriminate|].
  cbn [place_at] in H. destruct t as [|es]; [discriminate|].
  destruct p as [|m p].
  - destruct (lookup_entry n es) as [c|] eqn:E; injection H as <-;
      cbn [lookup].
    + rewrite (lookup_entry_update_same n sub c es E). reflexivity.
    + rewrite (lookup_entry_app_same n sub es E). reflexivity.
  - destruct (lookup_entry n es) as [c|] eqn:E; [|discriminate].
    destruct (place_at c (m :: p) sub) as [c'|e] eqn:Ec; [|discriminate].
    cbn [bind] in H. injection H as <-. cbn [lookup].
    rewrite (lookup_entry_update_same n c' c es E). apply (IH c c' Ec).
Qed.

Lemma place_at_preserve_None (t t' : node) (q p : list string) (sub : node) :
  place_at t q sub = Ok t' ->
  lookup t p = None -> is_prefix q p = false ->
  lookup t' p = None.
Proof.
  revert t t' p. induction q as [|n q IH]; intros t t' p H Hp Hpre;
    [discriminate|].
  destruct p as [|a p]; [discriminate|].
  cbn [place_at] in H. destruct t as [|es]; [discriminate|].
  cbn [lookup] in Hp. cbn [is_prefix] in Hpre.
  destruct q as [|m q].
  - assert (Hne : a <> n).
    { intros ->. rewrite String.eqb_refl in Hpre. discriminate. }
    destruct (lookup_entry n es) as [c|] eqn:E; injection H as <-;
      cbn [lookup].
    + rewrite (lookup_entry_update_other a n sub es Hne). exact Hp.
    + rewrite (lookup_entry_app_other a n sub es Hne). exact Hp.
  - destruct (lookup_entry n es) as [c|] eqn:E; [|discriminate].
    destruct (place_at c (m :: q) sub) as [c'|e] eqn:Ec; [|discriminate].
    cbn [bind] in H. injection H as <-. cbn [lookup].
    destruct (String.eqb_spec a n) as [-> | Hne].
    + rewrite E in Hp. rewrite (lookup_entry_update_same n c' c es E).
      apply (IH c c' p Ec Hp).
      rewrite String.eqb_refl in Hpre. exact Hpre.
    + rewrite (lookup_entry_update_other a n c' es Hne). exact Hp.
Qed.

Lemma remove_at_None (t : node) (p : list string) :
  p <> [] -> lookup (remove_at t p) p = None.
Proof.
  revert t. induction p as [|n p IH]; intros t Hp; [contradiction|].
  cbn [remove_at]. destruct t as [|es]; [reflexivity|].
  destruct p as [|m p].
  - cbn [lookup]. rewrite lookup_entry_remove_same. reflexivity.
  - destruct (lookup_entry n es) as [c|] eqn:E.
    + cbn [lookup]. rewrite (lookup_entry_update_same n _ c es E).
      apply IH. discriminate.
    + cbn [lookup]. rewrite E. reflexivity.
Qed.

(** Below an existing path, every prefix is a directory with entries. *)
Lemma lookup_prefix (t : node) (q p : list string) (x : node) :
  is_prefix q p = true -> lookup t p = Some x ->
  is_prefix p q = true \/
  exists e es, lookup t q = Some (Dir (e :: es)).
Proof.
  revert t p. induction q as [|n q IH]; intros t p Hpre Hp.
  - destruct p as [|a p]; [left; reflexivity|]. right.
    cbn [lookup] in Hp |- *. destruct t as [|[|e es]]; try discriminate.
    exists e, es. reflexivity.
  - destruct p as [|a p]; [discriminate|].
    cbn [is_prefix] in Hpre |- *. apply andb_true_iff in Hpre as [Hna Hpre].
    apply String.eqb_eq in Hna. subst a. rewrite String.eqb_refl.
    cbn [lookup] in Hp |- *. destruct t as [|es]; [discriminate|].
    destruct (lookup_entry n es) as [c|]; [|discriminate].
    apply (IH c p Hpre Hp).
Qed.

(** A rename that succeeds between two different paths moves the source
    to the destination. *)
Lemma rename_Ok (t t' : node) (src dst : list string) :
  rename t src dst = Ok t' -> same_path src dst = false ->
  exists sub,
    lookup t src = Some sub /\ lookup t' dst = Some sub /\
    lookup t' src = None.
Proof.
  unfold rename. intros H Hsame.
  destruct (lookup t src) as [sub|] eqn:Es; [|discriminate].
  rewrite Hsame in H.
  destruct (is_prefix src dst) eqn:Epre; [discriminate|].
  assert (Hsrc : src <> []) by (intros ->; discriminate).
  assert (Hplace : place_at (remove_at t src) dst sub = Ok t' /\
                   is_prefix dst src = false).
  { destruct (is_prefix dst src) eqn:Epre'.
    - destruct (lookup_prefix t dst src sub Epre' Es) as [Hp | (e & es & Hd)].
      + rewrite Hp in Epre. discriminate.
      + rewrite Hd in H. destruct sub; discriminate.
    - split; [|reflexivity].
      destruct (lookup t dst) as [[|[|e es]]|]; destruct sub;
        first [exact H | discriminate]. }
  destruct Hplace as [Hplace Hpre'].
  exists sub. split; [reflexivity|]. split.
  - apply (place_at_Ok _ _ _ _ Hplace).
  - apply (place_at_preserve_None _ _ _ _ _ Hplace); [|exact Hpre'].
    apply remove_at_None. exact Hsrc.
Qed.

(** ** The tree scanner *)

Lemma node_induction (P : node -> Prop) :
  P File ->
  (forall es, (forall n c, In (n, c) es -> P c) -> P (Dir es)) ->
  forall t, P t.
Proof.
  intros HF HD. fix IH 1. intros [|es]; [exact HF|].
  apply HD. induction es as [|[m x] es IHes]; intros n c Hin.
  - destruct Hin.
  - destruct Hin as [Heq | Hin].
    + injection Heq as _ <-. apply IH.
    + apply (IHes n c Hin).
Qed.

Lemma one_level_cons (name : string) (sub : node)
      (es : list (string * node)) (parent : option (list Backup)) :
  one_level (Dir ((name, sub) :: es)) parent
  = if backup_entry name sub
    then backup <- path_to_backup [name] parent ;;
         kids <- one_level sub (Some backup) ;;
         rest <- one_level (Dir es) parent ;;
         Ok (mkNode backup kids :: rest)
    else one_level (Dir es) parent.
Proof.
  unfold backup_entry. cbn [one_level].
  destruct (fnmatch name glob_format); [|reflexivity].
  destruct (is_dir sub && has_data_dir sub); reflexivity.
Qed.

Lemma backup_paths_cons (name : string) (sub : node)
      (es : list (string * node)) :
  backup_paths (Dir ((name, sub) :: es))
  = if backup_entry name sub
    then ([name] :: map (cons name) (backup_paths sub))
           ++ backup_paths (Dir es)
    else backup_paths (Dir es).
Proof. reflexivity. Qed.

Lemma is_digit_not_slash (c : ascii) :
  is_digit c = true -> Ascii.eqb c "/" = false.
Proof.
  destruct c as [[] [] [] [] [] [] [] []]; intros H;
    first [reflexivity | discriminate H].
Qed.

Lemma fnmatch_path_str (name : string) :
  fnmatch name glob_format = true -> path_str [name] = name.
Proof.
  intros H. destruct name as [|c s]; [discriminate H|].
  cbn in H. apply andb_true_iff in H as [Hc _].
  apply is_digit_not_slash in Hc.
  unfold path_str. replace (has_root [String c s]) with false; [reflexivity|].
  destruct c as [[] [] [] [] [] [] [] []];
    first [discriminate Hc | reflexivity].
Qed.

Lemma path_to_backup_name (name : string) (parent : option (list Backup)) :
  fnmatch name glob_format = true ->
  path_to_backup [name] parent
  = if name_parses name
    then Ok (mkBackup (parse_name name) :: or_nil parent)
    else Raise ValueError.
Proof.
  intros H. unfold path_to_backup, name_parses, parse_name.
  rewrite (fnmatch_path_str name H).
  unfold strptime.
  destruct (regex_match ts_format name strptime_default) as [[t [|? ?]]|];
    try reflexivity.
  destruct (valid_datetime t); reflexivity.
Qed.

Lemma chain_of_path_cons (name : string) (p : list string) :
  chain_of_path (name :: p)
  = chain_of_path p ++ [mkBackup (parse_name name)].
Proof. unfold chain_of_path. cbn [rev]. rewrite map_app. reflexivity. Qed.

Lemma paths_parse_app (ps qs : list (list string)) :
  paths_parse (ps ++ qs) = paths_parse ps && paths_parse qs.
Proof. apply forallb_app. Qed.

Lemma paths_parse_map_cons (name : string) (ps : list (list string)) :
  name_parses name = true ->
  paths_parse (map (cons name) ps) = paths_parse ps.
Proof.
  intros Hn. unfold paths_parse.
  induction ps as [|p ps IH]; cbn [map forallb]; [reflexivity|].
  rewrite Hn, IH. reflexivity.
Qed.

Lemma invert_cons (backup : list Backup) (kids rest : list Node) :
  invert (mkNode backup kids :: rest) = backup :: invert kids ++ invert rest.
Proof. reflexivity. Qed.

(** What one_level computes: it raises ValueError when a backup directory
    has a name strptime refuses, and otherwise builds the tree whose
    flattening lists the chain of every backup directory, each once, in
    the order of enumeration. *)
Lemma one_level_spec (dir : node) :
  forall parent : option (list Backup),
    if paths_parse (backup_paths dir)
    then exists nodes,
        one_level dir parent = Ok nodes /\
        invert nodes
        = map (fun p => chain_of_path p ++ or_nil parent) (backup_paths dir)
    else one_level dir parent = Raise ValueError.
Proof.
  induction dir as [|es IHc] using node_induction; intros parent.
  - exists []. split; reflexivity.
  - induction es as [|[name sub] es IHes].
    + exists []. split; reflexivity.
    + assert (IHes' : forall n c, In (n, c) es ->
                forall parent : option (list Backup),
                  if paths_parse (backup_paths c)
                  then exists nodes,
                      one_level c parent = Ok nodes /\
                      invert nodes
                      = map (fun p => chain_of_path p ++ or_nil parent)
                            (backup_paths c)
                  else one_level c parent = Raise ValueError).
      { intros n c Hin. apply (IHc n c). right. exact Hin. }
      specialize (IHes IHes'). clear IHes'.
      rewrite one_level_cons, backup_paths_cons.
      destruct (backup_entry name sub) eqn:Eb; [|exact IHes].
      assert (Hglob : fnmatch name glob_format = true).
      { unfold backup_entry in Eb. apply andb_true_iff in Eb as [H _].
        exact H. }
      rewrite (path_to_backup_name name parent Hglob).
      rewrite paths_parse_app. cbn [paths_parse forallb].
      destruct (name_parses name) eqn:En; cbn [andb bind]; [|reflexivity].
      fold (paths_parse (map (cons name) (backup_paths sub))).
      rewrite (paths_parse_map_cons name _ En).
      specialize (IHc name sub (or_introl eq_refl)
                      (Some (mkBackup (parse_name name) :: or_nil parent))).
      destruct (paths_parse (backup_paths sub)); cbn [andb].
      * destruct IHc as (kids & Hk & Hik). rewrite Hk. cbn [bind].
        destruct (paths_parse (backup_paths (Dir es))).
        -- destruct IHes as (rest & Hr & Hir). rewrite Hr. cbn [bind].
           eexists. split; [reflexivity|].
           rewrite invert_cons, Hik, Hir. cbn [map app or_nil].
           f_equal. rewrite map_app, map_map. f_equal.
           apply map_ext. intros p. rewrite chain_of_path_cons.
           rewrite <- app_assoc. reflexivity.
        -- rewrite IHes. reflexivity.
      * rewrite IHc. reflexivity.
Qed.

(** ** Comparisons and the descending sort *)

Section Comparisons.
Context {A : Type} (cmp : A -> A -> comparison) (O : OrderCmp cmp).

Lemma cmp_ge_trans (x y z : A) :
  cmp x y <> Lt -> cmp y z <> Lt -> cmp x z <> Lt.
Proof.
  intros Hxy Hyz Hxz.
  destruct (cmp x y) eqn:Exy; [| contradiction |].
  - apply (cmp_eq cmp O) in Exy. subst y. contradiction.
  - destruct (cmp y z) eqn:Eyz; [| contradiction |].
    + apply (cmp_eq cmp O) in Eyz. subst z. congruence.
    + assert (Hzy : cmp z y = Lt)
        by (rewrite (cmp_antisym cmp O y z), Eyz; reflexivity).
      assert (Hyx : cmp y x = Lt)
        by (rewrite (cmp_antisym cmp O x y), Exy; reflexivity).
      pose proof (cmp_trans cmp O _ _ _ Hxz Hzy) as Hxy'. congruence.
Qed.

Lemma lex_compare_eq (l1 l2 : list A) :
  lex_compare cmp l1 l2 = Eq -> l1 = l2.
Proof.
  revert l2. induction l1 as [|x l1 IH]; intros [|y l2] H;
    cbn in H; try discriminate; [reflexivity|].
  destruct (cmp x y) eqn:E; try discriminate.
  apply (cmp_eq cmp O) in E. subst y. f_equal. apply IH. exact H.
Qed.

Lemma lex_compare_refl (l : list A) : lex_compare cmp l l = Eq.
Proof.
  induction l as [|x l IH]; cbn; [reflexivity|].
  rewrite (cmp_refl cmp O). exact IH.
Qed.

Lemma lex_compare_antisym (l1 l2 : list A) :
  lex_compare cmp l2 l1 = CompOpp (lex_compare cmp l1 l2).
Proof.
  revert l2. induction l1 as [|x l1 IH]; intros [|y l2]; cbn;
    try reflexivity.
  rewrite (cmp_antisym cmp O x y).
  destruct (cmp x y); cbn; [apply IH | reflexivity | reflexivity].
Qed.

Lemma lex_compare_trans (l1 l2 l3 : list A) :
  lex_compare cmp l1 l2 = Lt -> lex_compare cmp l2 l3 = Lt ->
  lex_compare cmp l1 l3 = Lt.
Proof.
  revert l2 l3. induction l1 as [|x l1 IH]; intros [|y l2] [|z l3];
    cbn; try discriminate; try reflexivity.
  destruct (cmp x y) eqn:Exy; try discriminate.
  - apply (cmp_eq cmp O) in Exy. subst y.
    destruct (cmp x z) eqn:Exz; try discriminate; [|reflexivity].
    apply IH.
  - intros _. destruct (cmp y z) eqn:Eyz; try discriminate.
    + apply (cmp_eq cmp O) in Eyz. subst z. rewrite Exy. reflexivity.
    + rewrite (cmp_trans cmp O _ _ _ Exy Eyz). reflexivity.
Qed.

Lemma lex_OrderCmp : OrderCmp (lex_compare cmp).
Proof.
  constructor.
  - apply lex_compare_eq.
  - apply lex_compare_refl.
  - apply lex_compare_antisym.
  - apply lex_compare_trans.
Qed.

(** A comparison through an injective key. *)
Lemma key_OrderCmp {B : Type} (f : B -> A) :
  (forall a b, f a = f b -> a = b) ->
  OrderCmp (fun a b => cmp (f a) (f b)).
Proof.
  intros Hinj. constructor.
  - intros x y H. apply Hinj. apply (cmp_eq cmp O). exact H.
  - intros x. apply (cmp_refl cmp O).
  - intros x y. apply (cmp_antisym cmp O).
  - intros x y z. apply (cmp_trans cmp O).
Qed.
End Comparisons.

Lemma Z_OrderCmp : OrderCmp Z.compare.
Proof.
  constructor.
  - apply Z.compare_eq.
  - apply Z.compare_refl.
  - intros x y. apply Z.compare_antisym.
  - intros x y z. rewrite !Z.compare_lt_iff. apply Z.lt_trans.
Qed.

Lemma dt_OrderCmp : OrderCmp dt_compare.
Proof.
  unfold dt_compare.
  apply (key_OrderCmp (lex_compare Z.compare) (lex_OrderCmp _ Z_OrderCmp)).
  intros [] [] H. unfold dt_fields in H. cbn in H. congruence.
Qed.

Lemma Backup_OrderCmp : OrderCmp Backup_compare.
Proof.
  unfold Backup_compare.
  apply (key_OrderCmp (lex_compare dt_compare)
                      (lex_OrderCmp _ dt_OrderCmp)
                      (fun b => [timestamp b])).
  intros [a] [b] H. cbn in H. congruence.
Qed.

Lemma pair_OrderCmp : OrderCmp pair_compare.
Proof.
  pose proof (lex_OrderCmp _ dt_OrderCmp) as O1.
  pose proof (lex_OrderCmp _ Backup_OrderCmp) as O2.
  unfold pair_compare. constructor.
  - intros [k1 c1] [k2 c2]. cbn [fst snd].
    destruct (lex_compare dt_compare k1 k2) eqn:E; try discriminate.
    intros H. apply (cmp_eq _ O1) in E. apply (cmp_eq _ O2) in H.
    congruence.
  - intros [k c]. cbn [fst snd].
    rewrite (cmp_refl _ O1). apply (cmp_refl _ O2).
  - intros [k1 c1] [k2 c2]. cbn [fst snd].
    rewrite (cmp_antisym _ O1 k1 k2).
    destruct (lex_compare dt_compare k1 k2); cbn;
      [apply (cmp_antisym _ O2) | reflexivity | reflexivity].
  - intros [k1 c1] [k2 c2] [k3 c3]. cbn [fst snd].
    destruct (lex_compare dt_compare k1 k2) eqn:E12; try discriminate.
    + apply (cmp_eq _ O1) in E12. subst k2.
      destruct (lex_compare dt_compare k1 k3); try discriminate;
        [|reflexivity].
      apply (cmp_trans _ O2).
    + intros _.
      destruct (lex_compare dt_compare k2 k3) eqn:E23; try discriminate.
      * apply (cmp_eq _ O1) in E23. subst k3. rewrite E12. reflexivity.
      * rewrite (cmp_trans _ O1 _ _ _ E12 E23). reflexivity.
Qed.

Lemma insert_desc_perm (x : list datetime * list Backup)
      (l : list (list datetime * list Backup)) :
  Permutation (insert_desc x l) (x :: l).
Proof.
  induction l as [|y l IH]; cbn [insert_desc]; [apply Permutation_refl|].
  destruct (pair_compare x y); try apply Permutation_refl.
  apply Permutation_trans with (y :: x :: l);
    [apply perm_skip, IH | apply perm_swap].
Qed.

Lemma sorted_reverse_perm (l : list (list datetime * list Backup)) :
  Permutation (sorted_reverse l) l.
Proof.
  induction l as [|x l IH]; cbn; [apply perm_nil|].
  apply Permutation_trans with (x :: sorted_reverse l);
    [apply insert_desc_perm | apply perm_skip, IH].
Qed.

Lemma pair_ge_trans (x y z : list datetime * list Backup) :
  pair_ge x y -> pair_ge y z -> pair_ge x z.
Proof. apply (cmp_ge_trans _ pair_OrderCmp). Qed.

Lemma pair_lt_ge (x y : list datetime * list Backup) :
  pair_compare x y = Lt -> pair_ge y x.
Proof.
  intros H. unfold pair_ge.
  rewrite (cmp_antisym _ pair_OrderCmp x y), H. discriminate.
Qed.

Lemma insert_desc_sorted (x : list datetime * list Backup)
      (l : list (list datetime * list Backup)) :
  StronglySorted pair_ge l -> StronglySorted pair_ge (insert_desc x l).
Proof.
  induction l as [|y l IH]; intros Hs; cbn [insert_desc].
  - constructor; constructor.
  - apply StronglySorted_inv in Hs as [Hs Hy].
    destruct (pair_compare x y) eqn:E.
    + constructor; [constructor; assumption|].
      constructor; [unfold pair_ge; congruence|].
      apply (Forall_impl _ (fun z Hz => pair_ge_trans x y z
                                          ltac:(unfold pair_ge; congruence)
                                          Hz) Hy).
    + constructor; [apply IH, Hs|].
      apply (Permutation_Forall (Permutation_sym (insert_desc_perm x l))).
      constructor; [apply pair_lt_ge, E | exact Hy].
    + constructor; [constructor; assumption|].
      constructor; [unfold pair_ge; congruence|].
      apply (Forall_impl _ (fun z Hz => pair_ge_trans x y z
                                          ltac:(unfold pair_ge; congruence)
                                          Hz) Hy).
Qed.

Lemma sorted_reverse_sorted (l : list (list datetime * list Backup)) :
  StronglySorted pair_ge (sorted_reverse l).
Proof.
  induction l as [|x l IH]; cbn; [constructor|].
  apply insert_desc_sorted, IH.
Qed.

(** Two descending lists with the same elements are the same list. *)
Lemma sorted_perm_unique (l1 l2 : list (list datetime * list Backup)) :
  StronglySorted pair_ge l1 -> StronglySorted pair_ge l2 ->
  Permutation l1 l2 -> l1 = l2.
Proof.
  revert l2. induction l1 as [|a l1 IH]; intros l2 H1 H2 HP.
  - apply Permutation_nil in HP. subst. reflexivity.
  - destruct l2 as [|b l2];
      [apply Permutation_sym, Permutation_nil in HP; discriminate|].
    apply StronglySorted_inv in H1 as [H1 Ha].
    apply StronglySorted_inv in H2 as [H2 Hb].
    assert (Hab : a = b).
    { assert (Hin1 : In a (b :: l2))
        by (apply (Permutation_in _ HP); left; reflexivity).
      assert (Hin2 : In b (a :: l1))
        by (apply (Permutation_in _ (Permutation_sym HP)); left;
            reflexivity).
      destruct Hin1 as [-> | Hin1]; [reflexivity|].
      destruct Hin2 as [-> | Hin2]; [reflexivity|].
      rewrite Forall_forall in Ha, Hb.
      specialize (Ha b Hin2). specialize (Hb a Hin1).
      unfold pair_ge in Ha, Hb.
      rewrite (cmp_antisym _ pair_OrderCmp a b) in Hb.
      destruct (pair_compare a b) eqn:E;
        [apply (cmp_eq _ pair_OrderCmp), E | contradiction |].
      cbn in Hb. contradiction. }
    subst b. f_equal. apply IH; try assumption.
    apply (Permutation_cons_inv HP).
Qed.

Lemma sorted_reverse_perm_eq (l1 l2 : list (list datetime * list Backup)) :
  Permutation l1 l2 -> sorted_reverse l1 = sorted_reverse l2.
Proof.
  intros HP. apply sorted_perm_unique; try apply sorted_reverse_sorted.
  apply Permutation_trans with l1; [apply sorted_reverse_perm|].
  apply Permutation_trans with l2;
    [exact HP | apply Permutation_sym, sorted_reverse_perm].
Qed.

Lemma keyed_map (ret : list (list Backup)) :
  keyed ret = map (fun c => (map timestamp c, c)) ret.
Proof.
  unfold keyed. induction ret as [|c ret IH]; cbn; [reflexivity|].
  rewrite IH. reflexivity.
Qed.

Lemma keyed_snd (ret : list (list Backup)) : map snd (keyed ret) = ret.
Proof.
  rewrite keyed_map, map_map. cbn. apply map_id.
Qed.

(** The chains come out of the sort in descending order of their keys. *)
Lemma sorted_chains_descending (ret : list (list Backup)) :
  StronglySorted chain_ge (map snd (sorted_reverse (keyed ret))).
Proof.
  assert (Hshape : Forall (fun x => fst x = map timestamp (snd x))
                          (sorted_reverse (keyed ret))).
  { apply (Permutation_Forall (Permutation_sym (sorted_reverse_perm _))).
    rewrite keyed_map. apply Forall_forall. intros x Hx.
    apply in_map_iff in Hx as (c & <- & _). reflexivity. }
  pose proof (sorted_reverse_sorted (keyed ret)) as Hs.
  induction Hs as [|x l Hs IH Hx]; cbn [map]; [constructor|].
  apply Forall_cons_iff in Hshape as [Hxs Hshape].
  constructor; [apply IH, Hshape|].
  rewrite Forall_map. rewrite Forall_forall in Hx, Hshape |- *.
  intros y Hy. specialize (Hx y Hy). specialize (Hshape y Hy).
  unfold chain_ge, pair_ge, pair_compare in *.
  rewrite <- Hxs, <- Hshape. intros E. rewrite E in Hx. contradiction.
Qed.

(** ** Backup directories, by enumeration and by lookup *)

Lemma existsb_eqb_false (n : string) (l : list string) :
  existsb (String.eqb n) l = false <-> ~ In n l.
Proof.
  induction l as [|m l IH]; cbn; [tauto|].
  rewrite orb_false_iff, IH.
  destruct (String.eqb_spec n m) as [-> | Hne]; split.
  - intros [H _]. discriminate.
  - intros H. exfalso. apply H. left. reflexivity.
  - intros [_ H] [E | Hin]; [congruence | contradiction].
  - intros H. split; [reflexivity|]. intros Hin. apply H. right. exact Hin.
Qed.

Lemma well_formed_cons (name : string) (sub : node)
      (es : list (string * node)) :
  well_formed (Dir ((name, sub) :: es)) = true ->
  ~ In name (map fst es) /\ well_formed sub = true /\
  well_formed (Dir es) = true.
Proof.
  cbn [well_formed map fst names_distinct]. intros H.
  apply andb_true_iff in H as [Hn Ha].
  apply andb_true_iff in Hn as [Hn Hd].
  apply andb_true_iff in Ha as [Hs Ha].
  apply negb_true_iff, existsb_eqb_false in Hn.
  split; [exact Hn|]. split; [exact Hs|].
  rewrite Hd, Ha. reflexivity.
Qed.

Lemma backup_paths_nonempty (dir : node) : ~ In [] (backup_paths dir).
Proof.
  destruct dir as [|es]; [intros []|].
  induction es as [|[name sub] es IH]; [intros []|].
  rewrite backup_paths_cons. destruct (backup_entry name sub); [|exact IH].
  intros Hin. cbn [app] in Hin. destruct Hin as [E | Hin]; [discriminate|].
  apply in_app_or in Hin as [Hin | Hin]; [|exact (IH Hin)].
  apply in_map_iff in Hin as (p & E & _). discriminate.
Qed.

Lemma backup_paths_head (es : list (string * node)) (n : string)
      (p : list string) :
  In (n :: p) (backup_paths (Dir es)) -> In n (map fst es).
Proof.
  induction es as [|[name sub] es IH]; [intros []|].
  rewrite backup_paths_cons. cbn [map fst].
  destruct (backup_entry name sub); [|intros H; right; exact (IH H)].
  intros Hin. cbn [app] in Hin. destruct Hin as [E | Hin].
  - left. congruence.
  - apply in_app_or in Hin as [Hin | Hin]; [|right; exact (IH Hin)].
    apply in_map_iff in Hin as (q & E & _). left. congruence.
Qed.

Lemma is_backup_path_same (name : string) (sub : node)
      (es : list (string * node)) (p : list string) :
  is_backup_path (Dir ((name, sub) :: es)) (name :: p)
  = backup_entry name sub
    && match p with
       | [] => true
       | _ :: _ => is_backup_path sub p
       end.
Proof. cbn. rewrite String.eqb_refl. reflexivity. Qed.

Lemma is_backup_path_other (name n : string) (sub : node)
      (es : list (string * node)) (p : list string) :
  n <> name ->
  is_backup_path (Dir ((name, sub) :: es)) (n :: p)
  = is_backup_path (Dir es) (n :: p).
Proof.
  intros Hne. cbn.
  destruct (String.eqb_spec name n) as [E | _]; [congruence | reflexivity].
Qed.

(** In a well-formed tree the scanner visits exactly the backup paths. *)
Lemma In_backup_paths (dir : node) :
  well_formed dir = true ->
  forall p, In p (backup_paths dir) <-> is_backup_path dir p = true.
Proof.
  induction dir as [|es IHc] using node_induction; intros Hwf p.
  - destruct p; cbn; (split; [intros [] | discriminate]).
  - induction es as [|[name sub] es IHes].
    + destruct p; cbn; (split; [intros [] | discriminate]).
    + destruct (well_formed_cons name sub es Hwf) as (Hfresh & Hws & Hwes).
      assert (IHes' : In p (backup_paths (Dir es))
                      <-> is_backup_path (Dir es) p = true).
      { apply IHes; [|exact Hwes].
        intros n c Hin. apply (IHc n c). right. exact Hin. }
      pose proof (IHc name sub (or_introl eq_refl) Hws) as IHsub.
      clear IHes IHc.
      destruct p as [|n p].
      { split; [intros H; destruct (backup_paths_nonempty _ H)|].
        discriminate. }
      rewrite backup_paths_cons.
      destruct (String.eqb_spec n name) as [-> | Hne].
      * rewrite is_backup_path_same.
        assert (Hrest : ~ In (name :: p) (backup_paths (Dir es))).
        { intros H. apply Hfresh. apply (backup_paths_head es name p H). }
        destruct (backup_entry name sub); cbn [andb].
        -- split.
           ++ intros Hin. cbn [app] in Hin. destruct Hin as [E | Hin].
              ** injection E as <-. reflexivity.
              ** apply in_app_or in Hin as [Hin | Hin]; [|contradiction].
                 apply in_map_iff in Hin as (q & E & Hq).
                 injection E as ->. destruct p as [|m p].
                 --- reflexivity.
                 --- apply IHsub. exact Hq.
           ++ intros H. cbn [app]. destruct p as [|m p].
              ** left. reflexivity.
              ** right. apply in_or_app. left. apply in_map.
                 apply IHsub. exact H.
        -- split; [intros H; contradiction | discriminate].
      * rewrite (is_backup_path_other name n sub es p Hne).
        destruct (backup_entry name sub); [|exact IHes'].
        rewrite <- IHes'. cbn [app]. split.
        -- intros [E | Hin]; [congruence|].
           apply in_app_or in Hin as [Hin | Hin]; [|exact Hin].
           apply in_map_iff in Hin as (q & E & _). congruence.
        -- intros H. right. apply in_or_app. right. exact H.
Qed.

Lemma NoDup_map_cons (name : string) (ps : list (list string)) :
  NoDup ps -> NoDup (map (cons name) ps).
Proof.
  induction 1 as [|p ps Hp Hps IH]; cbn [map]; constructor; [|exact IH].
  intros Hin. apply in_map_iff in Hin as (q & E & Hq).
  injection E as ->. contradiction.
Qed.

(** Each backup directory is visited once. *)
Lemma NoDup_backup_paths (dir : node) :
  well_formed dir = true -> NoDup (backup_paths dir).
Proof.
  induction dir as [|es IHc] using node_induction; intros Hwf.
  - constructor.
  - induction es as [|[name sub] es IHes]; [constructor|].
    destruct (well_formed_cons name sub es Hwf) as (Hfresh & Hws & Hwes).
    assert (IHes' : NoDup (backup_paths (Dir es))).
    { apply IHes; [|exact Hwes].
      intros n c Hin. apply (IHc n c). right. exact Hin. }
    pose proof (IHc name sub (or_introl eq_refl) Hws) as IHsub.
    rewrite backup_paths_cons.
    destruct (backup_entry name sub); [|exact IHes'].
    apply NoDup_app; [| exact IHes' |].
    + constructor; [|apply NoDup_map_cons, IHsub].
      intros Hin. apply in_map_iff in Hin as (q & E & Hq).
      injection E as ->. exact (backup_paths_nonempty _ Hq).
    + intros p Hin Hrest.
      assert (Hhead : exists q, p = name :: q).
      { destruct Hin as [<- | Hin]; [exists []; reflexivity|].
        apply in_map_iff in Hin as (q & <- & _). exists q. reflexivity. }
      destruct Hhead as (q & ->). apply Hfresh.
      apply (backup_paths_head es name q Hrest).
Qed.

Lemma lookup_app (t : node) (p q : list string) :
  lookup t (p ++ q)
  = match lookup t p with
    | Some c => lookup c q
    | None => None
    end.
Proof.
  revert t. induction p as [|n p IH]; intros t; [reflexivity|].
  cbn [app lookup]. destruct t as [|es]; [reflexivity|].
  destruct (lookup_entry n es) as [c|]; [apply IH | reflexivity].
Qed.

Lemma same_layout_lookup (t1 t2 c1 c2 : node) (p : list string) :
  same_layout t1 t2 ->
  lookup t1 p = Some c1 -> lookup t2 p = Some c2 ->
  same_layout c1 c2.
Proof.
  intros H H1 H2 q. specialize (H (p ++ q)).
  rewrite !lookup_app, H1, H2 in H. exact H.
Qed.

Lemma is_dir_kind (c : node) :
  is_dir c = match kind_of (lookup c []) with IsDir => true | _ => false end.
Proof. destruct c; reflexivity. Qed.

Lemma has_data_dir_kind (c : node) :
  has_data_dir c
  = match kind_of (lookup c [data_dir_name]) with
    | IsDir => true
    | _ => false
    end.
Proof.
  destruct c as [|es]; [reflexivity|]. cbn [has_data_dir lookup].
  destruct (lookup_entry data_dir_name es) as [[|?]|]; reflexivity.
Qed.

Lemma same_layout_backup_entry (name : string) (c1 c2 : node) :
  same_layout c1 c2 -> backup_entry name c1 = backup_entry name c2.
Proof.
  intros H. unfold backup_entry.
  rewrite (is_dir_kind c1), (is_dir_kind c2).
  rewrite (has_data_dir_kind c1), (has_data_dir_kind c2).
  rewrite (H []), (H [data_dir_name]). reflexivity.
Qed.

(** Whether a path leads to a backup directory depends on the layout only. *)
Lemma same_layout_is_backup_path (p : list string) :
  forall t1 t2, same_layout t1 t2 ->
                is_backup_path t1 p = is_backup_path t2 p.
Proof.
  induction p as [|name p IH]; intros t1 t2 H; [reflexivity|].
  cbn [is_backup_path]. pose proof (H [name]) as Hk.
  destruct (lookup t1 [name]) as [c1|] eqn:E1;
    destruct (lookup t2 [name]) as [c2|] eqn:E2.
  - pose proof (same_layout_lookup t1 t2 c1 c2 [name] H E1 E2) as Hc.
    rewrite (same_layout_backup_entry name c1 c2 Hc).
    destruct p as [|m p]; [reflexivity|].
    rewrite (IH c1 c2 Hc). reflexivity.
  - destruct c1; discriminate Hk.
  - destruct c2; discriminate Hk.
  - reflexivity.
Qed.

Lemma well_formed_entry (es : list (string * node)) (n : string) (c : node) :
  well_formed (Dir es) = true -> In (n, c) es -> well_formed c = true.
Proof.
  induction es as [|[m x] es IH]; intros Hwf Hin; [destruct Hin|].
  destruct (well_formed_cons m x es Hwf) as (_ & Hx & Hes).
  destruct Hin as [E | Hin]; [congruence | apply (IH Hes Hin)].
Qed.

Lemma lookup_entry_In (n : string) (c : node) (es : list (string * node)) :
  lookup_entry n es = Some c -> In (n, c) es.
Proof.
  induction es as [|[m x] es IH]; cbn; [discriminate|].
  destruct (String.eqb_spec m n) as [-> | _].
  - intros [= ->]. left. reflexivity.
  - intros H. right. apply IH, H.
Qed.

Lemma lookup_well_formed (t c : node) (p : list string) :
  well_formed t = true -> lookup t p = Some c -> well_formed c = true.
Proof.
  revert t. induction p as [|n p IH]; intros t Hwf H.
  - injection H as <-. exact Hwf.
  - cbn [lookup] in H. destruct t as [|es]; [discriminate|].
    destruct (lookup_entry n es) as [x|] eqn:E; [|discriminate].
    apply (IH x); [|exact H].
    apply (well_formed_entry es n x Hwf), lookup_entry_In, E.
Qed.

Lemma same_layout_backup_paths (d1 d2 : node) :
  well_formed d1 = true -> well_formed d2 = true -> same_layout d1 d2 ->
  Permutation (backup_paths d1) (backup_paths d2).
Proof.
  intros W1 W2 H. apply NoDup_Permutation.
  - apply NoDup_backup_paths, W1.
  - apply NoDup_backup_paths, W2.
  - intros p. rewrite (In_backup_paths d1 W1), (In_backup_paths d2 W2).
    rewrite (same_layout_is_backup_path p d1 d2 H). tauto.
Qed.

Lemma paths_parse_perm (ps qs : list (list string)) :
  Permutation ps qs -> paths_parse ps = paths_parse qs.
Proof.
  unfold paths_parse.
  induction 1 as [| x l l' _ IH | x y l | l l' l'' _ IH1 _ IH2];
    cbn [forallb].
  - reflexivity.
  - rewrite IH. reflexivity.
  - rewrite !andb_assoc, (andb_comm (forallb name_parses y)). reflexivity.
  - rewrite IH1. exact IH2.
Qed.

(** list_backups in one equation: nothing below a missing scan root, an
    error when a backup directory has a name that is no timestamp, and
    otherwise the chains of the backup directories, sorted. *)
Lemma list_backups_spec (t : node) (root_path : PurePath) :
  list_backups t root_path
  = match lookup t (fs_path root_path) with
    | None => Ok []
    | Some dir =>
        if paths_parse (backup_paths dir)
        then Ok (map snd (sorted_reverse
                            (keyed (map chain_of_path (backup_paths dir)))))
        else Raise ValueError
    end.
Proof.
  unfold list_backups.
  destruct (lookup t (fs_path root_path)) as [dir|]; [|reflexivity].
  pose proof (one_level_spec dir None) as H.
  destruct (paths_parse (backup_paths dir)).
  - destruct H as (nodes & -> & Hi). cbn [bind]. rewrite Hi.
    cbn [or_nil]. f_equal. f_equal. f_equal. unfold keyed.
    assert (E : map (fun p => chain_of_path p ++ []) (backup_paths dir)
                = map chain_of_path (backup_paths dir)).
    { apply map_ext. intros p. apply app_nil_r. }
    rewrite E. reflexivity.
  - rewrite H. reflexivity.
Qed.

Lemma covers_entry (es1 es2 : list (string * node)) (n : string) (c1 : node) :
  covers (Dir es1) (Dir es2) = true -> In (n, c1) es1 ->
  exists c2, lookup_entry n es2 = Some c2 /\ covers c1 c2 = true.
Proof.
  cbn [covers]. induction es1 as [|[m x] es1 IH]; intros H Hin;
    [destruct Hin|].
  apply andb_true_iff in H as [Hx H].
  destruct Hin as [E | Hin]; [|apply (IH H Hin)].
  injection E as -> ->.
  destruct (lookup_entry n es2) as [c2|]; [|discriminate].
  exists c2. split; [reflexivity | exact Hx].
Qed.

Lemma covers_kind (t1 t2 : node) :
  covers t1 t2 = true -> kind_of (Some t1) = kind_of (Some t2).
Proof. destruct t1, t2; cbn; first [reflexivity | discriminate]. Qed.

Lemma covers_lookup (p : list string) :
  forall t1 t2 c1,
    covers t1 t2 = true -> lookup t1 p = Some c1 ->
    exists c2, lookup t2 p = Some c2 /\ covers c1 c2 = true.
Proof.
  induction p as [|n p IH]; intros t1 t2 c1 Hc H.
  - injection H as <-. exists t2. split; [reflexivity | exact Hc].
  - cbn [lookup] in H. destruct t1 as [|es1]; [discriminate|].
    destruct t2 as [|es2]; [discriminate|].
    destruct (lookup_entry n es1) as [x1|] eqn:E1; [|discriminate].
    destruct (covers_entry es1 es2 n x1 Hc (lookup_entry_In _ _ _ E1))
      as (x2 & E2 & Hx).
    cbn [lookup]. rewrite E2. apply (IH x1 x2 c1 Hx H).
Qed.

Lemma covers_same_layout (t1 t2 : node) :
  covers t1 t2 = true -> covers t2 t1 = true -> same_layout t1 t2.
Proof.
  intros H12 H21 p.
  destruct (lookup t1 p) as [c1|] eqn:E1.
  - destruct (covers_lookup p t1 t2 c1 H12 E1) as (c2 & -> & Hc).
    apply covers_kind, Hc.
  - destruct (lookup t2 p) as [c2|] eqn:E2; [|reflexivity].
    destruct (covers_lookup p t2 t1 c2 H21 E2) as (c1 & E & _).
    congruence.
Qed.

(** C5: the list list_backups returns is in descending order of the
    chains' timestamp sequences, leaf first, compared lexicographically;
    and two trees with the same layout, in whatever order their
    directories enumerate their entries, give the same result, in the
    same order (or the same error). *)
Theorem list_backups_sorted_whatever_the_enumeration :
  (forall (t : node) (root_path : PurePath) (l : list (list Backup)),
      list_backups t root_path = Ok l -> StronglySorted chain_ge l)
  /\
  (forall (t1 t2 : node) (root_path : PurePath),
      well_formed t1 = true -> well_formed t2 = true ->
      same_layout t1 t2 ->
      list_backups t1 root_path = list_backups t2 root_path).
Proof.
  split.
  - intros t root_path l. rewrite list_backups_spec.
    destruct (lookup t (fs_path root_path)) as [dir|].
    + destruct (paths_parse (backup_paths dir)); [|discriminate].
      intros [= <-]. apply sorted_chains_descending.
    + intros [= <-]. constructor.
  - intros t1 t2 root_path W1 W2 H. rewrite !list_backups_spec.
    pose proof (H (fs_path root_path)) as Hk.
    destruct (lookup t1 (fs_path root_path)) as [d1|] eqn:E1;
      destruct (lookup t2 (fs_path root_path)) as [d2|] eqn:E2.
    + assert (HP : Permutation (backup_paths d1) (backup_paths d2)).
      { apply same_layout_backup_paths.
        - apply (lookup_well_formed t1 d1 _ W1 E1).
        - apply (lookup_well_formed t2 d2 _ W2 E2).
        - apply (same_layout_lookup t1 t2 d1 d2 _ H E1 E2). }
      rewrite (paths_parse_perm _ _ HP).
      destruct (paths_parse (backup_paths d2)); [|reflexivity].
      f_equal. f_equal. apply sorted_reverse_perm_eq.
      rewrite !keyed_map. apply Permutation_map, Permutation_map, HP.
    + destruct d1; discriminate Hk.
    + destruct d2; discriminate Hk.
    + reflexivity.
Qed.

Lemma list_backups_sorted_whatever_the_enumeration_witness :
  StronglySorted chain_ge
                 [[mkBackup ts_mar; mkBackup ts_jan]; [mkBackup ts_feb];
                  [mkBackup ts_jan]] /\
  list_backups sample_fs sample_root
  = list_backups sample_fs_reordered sample_root.
Proof.
  split.
  - apply (proj1 list_backups_sorted_whatever_the_enumeration
                 sample_fs sample_root).
    reflexivity.
  - apply (proj2 list_backups_sorted_whatever_the_enumeration
                 sample_fs sample_fs_reordered sample_root).
    + reflexivity.
    + reflexivity.
    + apply covers_same_layout; reflexivity.
Defined.

(** C8, as stated, fails: the directory 2020-13-01_00:00:00 matches the
    glob and holds a _data subdirectory, yet the scanner produces no chain
    for it; list_backups raises ValueError. *)
Lemma scan_raises_on_month13 :
  fnmatch "2020-13-01_00:00:00" glob_format = true /\
  (exists dir,
      lookup month13_fs (fs_path sample_root) = Some dir /\
      well_formed dir = true /\
      is_backup_path dir ["2020-13-01_00:00:00"] = true) /\
  list_backups month13_fs sample_root = Raise ValueError.
Proof.
  split; [reflexivity|]. split; [|reflexivity].
  eexists. split; [reflexivity|]. split; reflexivity.
Qed.

(** C8, amended: below a scan root whose directories list distinct names,
    and where every backup directory (a directory reached from the scan
    root through directories that each match the glob and hold a _data
    subdirectory, itself one of them) has a name that strptime accepts,
    list_backups returns exactly one chain per backup directory, at every
    depth: its result is a rearrangement of the chains of a duplicate-free
    list of all the backup paths.  Directories failing either condition
    yield nothing and nothing below them is visited.  When some backup
    directory has a name strptime refuses, list_backups raises
    ValueError. *)
Theorem scan_one_chain_per_backup_dir (t : node) (root_path : PurePath)
        (dir : node) :
  lookup t (fs_path root_path) = Some dir ->
  well_formed dir = true ->
  ((forall p, is_backup_path dir p = true -> forallb name_parses p = true) ->
   exists l paths,
     list_backups t root_path = Ok l /\
     NoDup paths /\
     (forall p, In p paths <-> is_backup_path dir p = true) /\
     Permutation l (map chain_of_path paths) /\
     List.length l = List.length paths)
  /\
  ((exists p, is_backup_path dir p = true /\ forallb name_parses p = false) ->
   list_backups t root_path = Raise ValueError).
Proof.
  intros Hdir Hwf. rewrite list_backups_spec, Hdir. split.
  - intros Hparse.
    assert (E : paths_parse (backup_paths dir) = true).
    { apply forallb_forall. intros p Hp. apply Hparse.
      apply (In_backup_paths dir Hwf). exact Hp. }
    rewrite E.
    exists (map snd (sorted_reverse
                       (keyed (map chain_of_path (backup_paths dir))))),
      (backup_paths dir).
    assert (HP : Permutation
                   (map snd (sorted_reverse
                               (keyed (map chain_of_path (backup_paths dir)))))
                   (map chain_of_path (backup_paths dir))).
    { rewrite <- (keyed_snd (map chain_of_path (backup_paths dir))) at 2.
      apply Permutation_map, sorted_reverse_perm. }
    split; [reflexivity|].
    split; [apply NoDup_backup_paths, Hwf|].
    split; [apply (In_backup_paths dir Hwf)|].
    split; [exact HP|].
    rewrite (Permutation_length HP). apply length_map.
  - intros (p & Hp & Hn).
    assert (E : paths_parse (backup_paths dir) = false).
    { apply forallb_false_exists. exists p. split; [|exact Hn].
      apply (In_backup_paths dir Hwf). exact Hp. }
    rewrite E. reflexivity.
Qed.

Lemma scan_one_chain_per_backup_dir_witness :
  exists l paths,
    list_backups sample_fs sample_root = Ok l /\
    NoDup paths /\
    (forall p, In p paths <->
               is_backup_path sample_label_dir
                 p = true) /\
    Permutation l (map chain_of_path paths) /\
    List.length l = List.length paths.
Proof.
  refine (proj1 (scan_one_chain_per_backup_dir
                   sample_fs sample_root sample_label_dir
                   eq_refl eq_refl) _).
  intros p Hp.
  apply (In_backup_paths sample_label_dir eq_refl) in Hp.
  cbn in Hp.
  repeat (destruct Hp as [<- | Hp]; [reflexivity|]). destruct Hp.
Defined.

(** ** The chain invariant *)

Lemma path_increasing_snoc (p : list string) (b : string) :
  path_increasing (p ++ [b])
  = path_increasing p
    && match rev p with
       | a :: _ => dt_ltb (parse_name a) (parse_name b)
       | [] => true
       end.
Proof.
  induction p as [|a p IH]; [reflexivity|].
  destruct p as [|a' p].
  - cbn. rewrite !andb_true_r. reflexivity.
  - change (path_increasing ((a :: a' :: p) ++ [b]))
      with (dt_ltb (parse_name a) (parse_name a')
            && path_increasing ((a' :: p) ++ [b])).
    change (path_increasing (a :: a' :: p))
      with (dt_ltb (parse_name a) (parse_name a')
            && path_increasing (a' :: p)).
    rewrite IH, andb_assoc. f_equal.
    change (rev (a :: a' :: p)) with (rev (a' :: p) ++ [a]).
    destruct (rev (a' :: p)) as [|x l] eqn:E; [|reflexivity].
    apply (f_equal (@List.length string)) in E.
    rewrite length_rev in E. discriminate E.
Qed.

(** The chain of a path is decreasing exactly when the timestamps of the
    directories increase on the way down. *)
Lemma chain_decreasing_chain_of_path (p : list string) :
  chain_decreasing (chain_of_path p) = path_increasing p.
Proof.
  induction p as [|b p IH] using rev_ind; [reflexivity|].
  rewrite path_increasing_snoc, <- IH. unfold chain_of_path.
  rewrite rev_app_distr. cbn [rev app map].
  destruct (rev p) as [|a l]; cbn [map chain_decreasing timestamp].
  - reflexivity.
  - apply andb_comm.
Qed.

(** C9, as stated, fails: the scanner accepts a layout in which a backup
    of January 2020 lies inside a backup of March 2020, and returns for
    the inner directory the chain (January, March), whose parent is later
    than the backup itself. *)
Lemma scan_returns_increasing_chain :
  list_backups older_child_fs sample_root
  = Ok [[mkBackup ts_mar]; [mkBackup ts_jan; mkBackup ts_mar]] /\
  In [mkBackup ts_jan; mkBackup ts_mar]
     [[mkBackup ts_mar]; [mkBackup ts_jan; mkBackup ts_mar]] /\
  chain_decreasing [mkBackup ts_jan; mkBackup ts_mar] = false.
Proof.
  split; [reflexivity|]. split; [right; left; reflexivity | reflexivity].
Qed.

(** C9, amended: every chain list_backups returns lists the timestamp of a
    backup directory followed by those of the backup directories that
    enclose it, nearest first; so, in a layout where the names of the
    backup directories are timestamps that strictly increase from each
    directory to the ones inside it, every chain returned is strictly
    decreasing from index 0 onward. *)
Theorem scan_chains_decreasing_when_names_increase
        (t : node) (root_path : PurePath) (dir : node)
        (l : list (list Backup)) :
  lookup t (fs_path root_path) = Some dir ->
  well_formed dir = true ->
  (forall p, is_backup_path dir p = true -> path_increasing p = true) ->
  list_backups t root_path = Ok l ->
  forall c, In c l ->
            chain_decreasing c = true /\
            exists p, is_backup_path dir p = true /\ c = chain_of_path p.
Proof.
  intros Hdir Hwf Hinc Hl c Hc.
  rewrite list_backups_spec, Hdir in Hl.
  destruct (paths_parse (backup_paths dir)); [|discriminate].
  injection Hl as <-.
  assert (Hin : In c (map chain_of_path (backup_paths dir))).
  { rewrite <- (keyed_snd (map chain_of_path (backup_paths dir))).
    apply in_map_iff in Hc as (x & <- & Hx). apply in_map.
    apply (Permutation_in _ (sorted_reverse_perm _) Hx). }
  apply in_map_iff in Hin as (p & <- & Hp).
  apply (In_backup_paths dir Hwf) in Hp.
  split.
  - rewrite chain_decreasing_chain_of_path. apply Hinc, Hp.
  - exists p. split; [exact Hp | reflexivity].
Qed.

Lemma scan_chains_decreasing_when_names_increase_witness :
  chain_decreasing [mkBackup ts_mar; mkBackup ts_jan] = true /\
  exists p, is_backup_path sample_label_dir p = true /\
            [mkBackup ts_mar; mkBackup ts_jan] = chain_of_path p.
Proof.
  refine (scan_chains_decreasing_when_names_increase
            sample_fs sample_root sample_label_dir
            [[mkBackup ts_mar; mkBackup ts_jan]; [mkBackup ts_feb];
             [mkBackup ts_jan]]
            eq_refl eq_refl _ eq_refl _ _).
  - intros p Hp.
    apply (In_backup_paths sample_label_dir eq_refl) in Hp.
    cbn in Hp.
    repeat (destruct Hp as [<- | Hp]; [reflexivity|]). destruct Hp.
  - left. reflexivity.
Defined.

(** ** cmd_make, step by step *)

Lemma mbind_run {A B : Type} (m : M A) (k : A -> M B) (w : world) :
  mbind m k w
  = match m w with
    | (Ok a, w') => k a w'
    | (Raise e, w') => (Raise e, w')
    end.
Proof. reflexivity. Qed.

Lemma cmd_make_unfold (env : Env) (config : Config) (label : BackupLabel)
      (level : Level) (dry_run : bool) (w : world) :
  cmd_make env config label level dry_run w
  = let root := label_root config label in
    match cmd_make_backup env root level (announced level w) with
    | (Raise e, w1) => (Raise e, w1)
    | (Ok backup, w1) =>
        let w2 := mkWorld (w_fs w1)
                          (w_stdout w1
                             ++ [("Create backup: "
                                    ++ path_str (backup_to_path backup))%string])
                          (w_log w1) (w_dar w1) in
        if path_is_dir (w_fs w2) (config_dir config) then
          match mkdir (w_fs w2) (fs_path (staging_dir env config)) with
          | Raise e => (Raise e, w2)
          | Ok t3 =>
              let command :=
                make_dar_create_command
                  (pdiv (config_dir config)
                        (part1 label ++ "-" ++ part2 label ++ ".dcf")%string)
                  (pjoin (staging_dir env config)
                         (backup_to_path (firstn 1 backup)))
                  (reference_basename_path_of root backup) in
              try_finally
                (if dry_run then log_info (LogCommand command)
                 else run_dar env command)
                (if negb dry_run then
                   write_fs (fun t =>
                               mkdir_parents
                                 t (fs_path (path_parent
                                               (target_path_of root backup))))
                   >> write_fs (fun t =>
                                  rename t (fs_path (staging_dir env config))
                                         (fs_path (target_path_of root backup)))
                 else ret tt)
                (mkWorld t3 (w_stdout w2) (w_log w2) (w_dar w2))
          end
        else (Raise AssertionError, w2)
    end.
Proof.
  unfold cmd_make, label_root, target_path_of, staging_dir.
  rewrite mbind_run.
  assert (E : (match level with
               | level_g =>
                   echo (click_style "Normal" "green" ++ " backup.")%string
               | _ => echo "Differential backup."
               end w) = (Ok tt, announced level w)).
  { unfold announced. destruct level; reflexivity. }
  rewrite E. clear E. rewrite mbind_run.
  destruct (cmd_make_backup env _ level (announced level w))
    as [[backup|e0] w1]; [|reflexivity].
  rewrite mbind_run. cbn [echo]. rewrite mbind_run. cbn [read_fs w_fs].
  rewrite mbind_run.
  destruct (path_is_dir (w_fs w1) (config_dir config)); [|reflexivity].
  cbn [massert ret]. rewrite mbind_run.
  unfold mkdtemp. rewrite mbind_run. unfold write_fs at 1. cbn [w_fs].
  destruct (mkdir (w_fs w1) (fs_path (pdiv (workdir config) (tmpname env))));
    reflexivity.
Qed.

(** The try statement of cmd_make when dry-run is off: the archiver is
    called, and then, whatever its exit status, the finally block creates
    the parent of the target and renames the staging directory. *)
Lemma commit_unfold (env : Env) (command : list string)
      (staging target_parent target : list string) (w : world) :
  try_finally
    (run_dar env command)
    (write_fs (fun t => mkdir_parents t target_parent)
     >> write_fs (fun t => rename t staging target))
    w
  = let log := if dar_ok env command
               then (w_log w ++ [LogCommand command]) ++ [LogDone]
               else w_log w ++ [LogCommand command] in
    let dar := w_dar w ++ [command] in
    match mkdir_parents (w_fs w) target_parent with
    | Raise e => (Raise e, mkWorld (w_fs w) (w_stdout w) log dar)
    | Ok t1 =>
        match rename t1 staging target with
        | Raise e => (Raise e, mkWorld t1 (w_stdout w) log dar)
        | Ok t2 =>
            (if dar_ok env command then Ok tt else Raise CalledProcessError,
             mkWorld t2 (w_stdout w) log dar)
        end
    end.
Proof.
  unfold try_finally, run_dar, check_call, log_info, write_fs, mbind.
  cbn [w_fs w_stdout w_log w_dar].
  destruct (dar_ok env command); cbn [w_fs w_stdout w_log w_dar];
    destruct (mkdir_parents (w_fs w) target_parent) as [t1|e1];
    cbn [w_fs w_stdout w_log w_dar]; try reflexivity;
    destruct (rename t1 staging target) as [t2|e2]; reflexivity.
Qed.

Lemma mkdir_parents_exn (t : node) (p : list string) (e : exn) :
  mkdir_parents t p = Raise e -> e <> CalledProcessError.
Proof.
  revert t. induction p as [|n p IH]; intros t H; cbn [mkdir_parents] in H.
  - injection H as <-. discriminate.
  - destruct t as [|es]; [injection H as <-; discriminate|].
    destruct (lookup_entry n es) as [c|]; [|discriminate].
    destruct (mkdir_parents c p) as [c'|e'] eqn:E; [discriminate|].
    cbn [bind] in H. injection H as <-. apply (IH c E).
Qed.

Lemma place_at_exn (t : node) (p : list string) (sub : node) (e : exn) :
  place_at t p sub = Raise e -> e <> CalledProcessError.
Proof.
  revert t. induction p as [|n p IH]; intros t H; cbn [place_at] in H.
  - injection H as <-. discriminate.
  - destruct t as [|es]; [injection H as <-; discriminate|].
    destruct p as [|m p].
    + destruct (lookup_entry n es); discriminate.
    + destruct (lookup_entry n es) as [c|];
        [|injection H as <-; discriminate].
      destruct (place_at c (m :: p) sub) as [c'|e'] eqn:E; [discriminate|].
      cbn [bind] in H. injection H as <-. apply (IH c E).
Qed.

Lemma rename_exn (t : node) (src dst : list string) (e : exn) :
  rename t src dst = Raise e -> e <> CalledProcessError.
Proof.
  unfold rename. intros H.
  destruct (lookup t src) as [sub|]; [|injection H as <-; discriminate].
  destruct (same_path src dst); [discriminate|].
  destruct (is_prefix src dst); [injection H as <-; discriminate|].
  destruct (lookup t dst) as [[|[|x es]]|]; destruct sub;
    first [apply (place_at_exn _ _ _ _ H) | injection H as <-; discriminate].
Qed.

Lemma mkdir_exn (t : node) (p : list string) (e : exn) :
  mkdir t p = Raise e -> e <> CalledProcessError.
Proof.
  revert t. induction p as [|n p IH]; intros t H; cbn [mkdir] in H.
  - injection H as <-. discriminate.
  - destruct t as [|es]; [injection H as <-; discriminate|].
    destruct (lookup_entry n es) as [c|].
    + destruct (mkdir c p) as [c'|e'] eqn:E; [discriminate|].
      cbn [bind] in H. injection H as <-. apply (IH c E).
    + destruct p; [discriminate | injection H as <-; discriminate].
Qed.

Lemma cmd_make_backup_exn (env : Env) (root : PurePath) (level : Level)
      (w w' : world) (e : exn) :
  cmd_make_backup env root level w = (Raise e, w') ->
  e <> CalledProcessError.
Proof.
  unfold cmd_make_backup, mbind, read_fs, ff, ret, raise, echo.
  destruct (0 <? level_num level)%nat; [|discriminate].
  rewrite list_backups_spec.
  destruct (lookup (w_fs w) (fs_path root)) as [dir|].
  - destruct (paths_parse (backup_paths dir)).
    + destruct (latest_backup _ 1) as [[|g0 g]|];
        destruct (latest_backup _ 2) as [[|f0 f]|]; cbn;
        try destruct (dt_geb (timestamp f0) (timestamp g0));
        intros H; first [discriminate H | injection H as <- _; discriminate].
    + intros H. injection H as <- _. discriminate.
  - destruct (latest_backup [] 1) as [[|g0 g]|] eqn:E; cbn in E;
      try discriminate E.
    cbn. discriminate.
Qed.

Lemma pdiv_data (x : PurePath) : pdiv x data_dir_name = x ++ [data_dir_name].
Proof. reflexivity. Qed.

Lemma path_parent_data (x : PurePath) :
  path_parent (x ++ [data_dir_name]) = x.
Proof.
  destruct x as [|a [|b x]]; try reflexivity.
  unfold path_parent. cbn [app].
  change (b :: x ++ [data_dir_name]) with ((b :: x) ++ [data_dir_name]).
  change (a :: (b :: x) ++ [data_dir_name])
    with ((a :: b :: x) ++ [data_dir_name]).
  apply removelast_last.
Qed.

Lemma fs_path_data (x : PurePath) :
  fs_path (x ++ [data_dir_name]) = fs_path x ++ [data_dir_name].
Proof.
  unfold fs_path. destruct x as [|a x]; [reflexivity|].
  rewrite (has_root_app (a :: x) [data_dir_name]) by discriminate.
  destruct (has_root (a :: x)); reflexivity.
Qed.

Lemma is_prefix_app (p q r : list string) :
  is_prefix p q = true -> is_prefix p (q ++ r) = true.
Proof.
  revert q. induction p as [|a p IH]; intros q H; [reflexivity|].
  destruct q as [|b q]; [discriminate|]. cbn [app is_prefix] in H |- *.
  apply andb_true_iff in H as [Hab H]. rewrite Hab. apply IH, H.
Qed.

Lemma announced_frame (level : Level) (w : world) :
  w_fs (announced level w) = w_fs w /\
  w_log (announced level w) = w_log w /\
  w_dar (announced level w) = w_dar w.
Proof. destruct level; cbn; auto. Qed.

(** The state of the file system after the finally block has run. *)
Lemma commit_moves_staging (t t1 t2 : node) (staging x : list string) :
  lookup t staging = Some (Dir []) ->
  mkdir_parents t x = Ok t1 ->
  rename t1 staging (x ++ [data_dir_name]) = Ok t2 ->
  lookup t2 (x ++ [data_dir_name]) = Some (Dir []) /\
  lookup t2 staging = None.
Proof.
  intros Hs Hm Hr.
  destruct (mkdir_parents_Ok t t1 x Hm) as [_ Hx].
  assert (Hdst : lookup t1 (x ++ [data_dir_name]) = None).
  { rewrite lookup_app, Hx. reflexivity. }
  assert (Hsame : same_path staging (x ++ [data_dir_name]) = false).
  { destruct (same_path staging (x ++ [data_dir_name])) eqn:E;
      [|reflexivity].
    apply same_path_eq in E. subst staging. unfold rename in Hr.
    rewrite Hdst in Hr. discriminate Hr. }
  assert (Hpre : is_prefix staging (x ++ [data_dir_name]) = false).
  { unfold rename in Hr.
    destruct (lookup t1 staging); [|discriminate Hr].
    rewrite Hsame in Hr.
    destruct (is_prefix staging (x ++ [data_dir_name]));
      [discriminate Hr | reflexivity]. }
  assert (Hpre' : is_prefix staging x = false).
  { destruct (is_prefix staging x) eqn:E; [|reflexivity].
    rewrite (is_prefix_app staging x [data_dir_name] E) in Hpre.
    discriminate Hpre. }
  pose proof (mkdir_parents_preserve t t1 x staging (Dir []) Hm Hs Hpre')
    as Hs1.
  destruct (rename_Ok t1 t2 staging _ Hr Hsame) as (sub & E1 & E2 & E3).
  rewrite Hs1 in E1. injection E1 as <-. split; assumption.
Qed.

(** ** The commit step *)

(** C1, as stated, fails: in the sample installation, with dry-run off and
    an archiver that exits nonzero, cmd_make ends with CalledProcessError
    and yet the destination directory, absent before, exists afterwards,
    and the staging directory is no longer in the work directory. *)
Lemma destination_created_though_archiver_failed :
  dar_ok (sample_env false)
         ["dar"; "-N"; "-c"; "/backup/.workdir/tmpabc/2021-12-31_23:59:59";
          "--batch"; "/etc/backup/a-b.dcf"; "--ref";
          "/backup/a/b/2020-01-02_03:04:05/2020-03-02_03:04:05/_data/2020-03-02_03:04:05"]
  = false /\
  path_is_dir sample_fs sample_target = false /\
  fst (cmd_make (sample_env false) sample_config (mkBackupLabel "a" "b")
                level_s false sample_world)
  = Raise CalledProcessError /\
  path_is_dir
    (w_fs (snd (cmd_make (sample_env false) sample_config
                         (mkBackupLabel "a" "b") level_s false sample_world)))
    sample_target = true /\
  lookup
    (w_fs (snd (cmd_make (sample_env false) sample_config
                         (mkBackupLabel "a" "b") level_s false sample_world)))
    ["backup"; ".workdir"; "tmpabc"] = None.
Proof. repeat split. Qed.

(** C1, amended: with dry-run off, the finally block of cmd_make runs
    whether the archiver succeeds or fails.  Whenever cmd_make returns
    normally or ends with the archiver's CalledProcessError, the archiver
    has been called once, the error is raised exactly when it exited
    nonzero, and in both cases the destination <root>/<label>/<chain
    path>/_data is a directory and the staging directory is no longer in
    the work directory: the file system after the run is the one before
    it changed by mkdtemp, by mkdir(parents=True) of the parent of the
    destination, and by one rename of the staging directory to the
    destination. *)
Theorem commit_runs_whatever_the_archiver_status
        (env : Env) (config : Config) (label : BackupLabel) (level : Level)
        (w w' : world) (r : result unit) :
  cmd_make env config label level false w = (r, w') ->
  r = Ok tt \/ r = Raise CalledProcessError ->
  exists backup command,
    fst (cmd_make_backup env (label_root config label) level
                         (announced level w)) = Ok backup /\
    w_dar w' = w_dar w ++ [command] /\
    (r = Raise CalledProcessError <-> dar_ok env command = false) /\
    path_is_dir (w_fs w')
                (target_path_of (label_root config label) backup) = true /\
    lookup (w_fs w') (fs_path (staging_dir env config)) = None /\
    exists t1 t2,
      mkdir (w_fs w) (fs_path (staging_dir env config)) = Ok t1 /\
      mkdir_parents
        t1 (fs_path (path_parent
                       (target_path_of (label_root config label) backup)))
      = Ok t2 /\
      rename t2 (fs_path (staging_dir env config))
             (fs_path (target_path_of (label_root config label) backup))
      = Ok (w_fs w').
Proof.
  intros H Hr. rewrite cmd_make_unfold in H. cbv zeta in H.
  pose proof (cmd_make_backup_frame env (label_root config label) level
                                    (announced level w)) as Hf.
  cbv zeta in Hf.
  destruct (announced_frame level w) as (Ha1 & Ha2 & Ha3).
  destruct (cmd_make_backup env (label_root config label) level
                            (announced level w)) as [[backup|e] w1] eqn:Eb.
  2:{ injection H as <- _. exfalso.
      pose proof (cmd_make_backup_exn _ _ _ _ _ _ Eb).
      destruct Hr as [Hr | Hr]; [discriminate Hr | congruence]. }
  cbn [snd] in Hf. destruct Hf as (Hf1 & Hf2 & Hf3).
  cbn [w_fs w_stdout w_log w_dar] in H.
  destruct (path_is_dir (w_fs w1) (config_dir config)).
  2:{ injection H as <- _. destruct Hr; discriminate. }
  destruct (mkdir (w_fs w1) (fs_path (staging_dir env config)))
    as [t3|e] eqn:Em.
  2:{ injection H as <- _. exfalso. pose proof (mkdir_exn _ _ _ Em).
      destruct Hr as [Hr | Hr]; [discriminate Hr | congruence]. }
  cbn [negb] in H. rewrite commit_unfold in H.
  cbv zeta in H. cbn [w_fs w_stdout w_log w_dar] in H.
  unfold target_path_of in H. rewrite pdiv_data in H.
  rewrite path_parent_data, fs_path_data in H.
  set (x := fs_path (pjoin (label_root config label)
                           (backup_to_path backup))) in *.
  destruct (mkdir_parents t3 x) as [t5|e] eqn:Ep.
  2:{ injection H as <- _. exfalso. pose proof (mkdir_parents_exn _ _ _ Ep).
      destruct Hr as [Hr | Hr]; [discriminate Hr | congruence]. }
  destruct (rename t5 (fs_path (staging_dir env config))
                   (x ++ [data_dir_name])) as [t6|e] eqn:En.
  2:{ injection H as <- _. exfalso. pose proof (rename_exn _ _ _ _ En).
      destruct Hr as [Hr | Hr]; [discriminate Hr | congruence]. }
  injection H as <- <-. cbn [w_fs w_dar].
  destruct (commit_moves_staging t3 t5 t6 _ x (mkdir_Ok _ _ _ Em) Ep En)
    as [Hdst Hsrc].
  eexists backup, _. split; [reflexivity|].
  split; [rewrite Hf3, Ha3; reflexivity|].
  split.
  - destruct (dar_ok env _); split; congruence.
  - split; [|split; [exact Hsrc|]].
    + unfold path_is_dir, target_path_of. rewrite pdiv_data, fs_path_data.
      fold x. rewrite Hdst. reflexivity.
    + exists t3, t5. unfold target_path_of.
      rewrite pdiv_data, path_parent_data, fs_path_data. fold x.
      rewrite <- Ha1, <- Hf1. auto.
Qed.

Lemma commit_runs_whatever_the_archiver_status_witness :
  exists backup command,
    fst (cmd_make_backup (sample_env false)
                         (label_root sample_config (mkBackupLabel "a" "b"))
                         level_s (announced level_s sample_world))
    = Ok backup /\
    w_dar (snd (cmd_make (sample_env false) sample_config
                         (mkBackupLabel "a" "b") level_s false sample_world))
    = w_dar sample_world ++ [command] /\
    (@Raise unit CalledProcessError = Raise CalledProcessError
     <-> dar_ok (sample_env false) command = false) /\
    path_is_dir
      (w_fs (snd (cmd_make (sample_env false) sample_config
                           (mkBackupLabel "a" "b") level_s false
                           sample_world)))
      (target_path_of (label_root sample_config (mkBackupLabel "a" "b"))
                      backup) = true /\
    lookup
      (w_fs (snd (cmd_make (sample_env false) sample_config
                           (mkBackupLabel "a" "b") level_s false
                           sample_world)))
      (fs_path (staging_dir (sample_env false) sample_config)) = None /\
    exists t1 t2,
      mkdir (w_fs sample_world)
            (fs_path (staging_dir (sample_env false) sample_config))
      = Ok t1 /\
      mkdir_parents
        t1 (fs_path (path_parent
                       (target_path_of
                          (label_root sample_config (mkBackupLabel "a" "b"))
                          backup)))
      = Ok t2 /\
      rename t2 (fs_path (staging_dir (sample_env false) sample_config))
             (fs_path (target_path_of
                         (label_root sample_config (mkBackupLabel "a" "b"))
                         backup))
      = Ok (w_fs (snd (cmd_make (sample_env false) sample_config
                                (mkBackupLabel "a" "b") level_s false
                                sample_world))).
Proof.
  apply (commit_runs_whatever_the_archiver_status
           (sample_env false) sample_config (mkBackupLabel "a" "b") level_s
           sample_world _ (Raise CalledProcessError)).
  - reflexivity.
  - right. reflexivity.
Defined.

Lemma make_dar_create_command_ref (env : Env) (config : Config)
      (label : BackupLabel) (root : PurePath) (backup : list Backup) :
  make_dar_create_command
    (pdiv (config_dir config)
          (part1 label ++ "-" ++ part2 label ++ ".dcf")%string)
    (pjoin (staging_dir env config) (backup_to_path (firstn 1 backup)))
    (reference_basename_path_of root backup)
  = base_command env config label backup
      ++ match backup with
         | _ :: ((p0 :: _) as parent) =>
             ["--ref";
              path_str (pdiv (pdiv (pjoin root (backup_to_path parent))
                                   data_dir_name)
                             (strftime (timestamp p0) ts_format))]
         | _ => []
         end.
Proof.
  unfold make_dar_create_command, base_command.
  destruct backup as [|b [|p0 ancestors]]; try reflexivity.
  rewrite reference_basename_path_parent. reflexivity.
Qed.

(** C10: a run of cmd_make with dry-run off that gets as far as the
    archiver (the chain has been built, the configuration directory is
    there and mkdtemp has made the staging directory) calls it exactly
    once, with the command dar -N -c <basename> --batch <config file>
    followed, when the new chain has a parent, by --ref and the path
    root / label path / backup_to_path(parent chain) / _data / <timestamp
    of the parent's leaf>, and by nothing when the new chain has length
    one. *)
Theorem reference_archive_is_parent_leaf
        (env : Env) (config : Config) (label : BackupLabel) (level : Level)
        (w : world) (backup : list Backup) (staged : node) :
  let root := pjoin (root config) (backup_label_to_path label) in
  let w' := snd (cmd_make env config label level false w) in
  fst (cmd_make_backup env root level (announced level w)) = Ok backup ->
  path_is_dir (w_fs w) (config_dir config) = true ->
  mkdir (w_fs w) (fs_path (staging_dir env config)) = Ok staged ->
  w_dar w'
  = w_dar w
      ++ [base_command env config label backup
            ++ match backup with
               | _ :: ((p0 :: _) as parent) =>
                   ["--ref";
                    path_str
                      (pdiv (pdiv (pjoin root (backup_to_path parent))
                                  data_dir_name)
                            (strftime (timestamp p0) ts_format))]
               | _ => []
               end].
Proof.
  cbv zeta. rewrite <- label_root_label_path. intros Hb Hc Hm.
  rewrite cmd_make_unfold. cbv zeta.
  pose proof (cmd_make_backup_frame env (label_root config label) level
                                    (announced level w)) as Hf.
  cbv zeta in Hf.
  destruct (announced_frame level w) as (Ha1 & _ & Ha).
  destruct (cmd_make_backup env (label_root config label) level
                            (announced level w)) as [[backup'|e] w1];
    cbn [fst] in Hb; [|discriminate Hb].
  injection Hb as ->.
  cbn [snd] in Hf. destruct Hf as (Hf1 & _ & Hf). rewrite Ha in Hf.
  rewrite Ha1 in Hf1.
  cbn [w_fs w_stdout w_log w_dar]. rewrite Hf1, Hc, Hm.
  cbn [negb]. rewrite commit_unfold. cbv zeta.
  cbn [w_fs w_stdout w_log w_dar].
  rewrite make_dar_create_command_ref, Hf.
  destruct (mkdir_parents staged _) as [t5|e1]; [|reflexivity].
  destruct (rename t5 _ _) as [t6|e2]; reflexivity.
Qed.

Lemma reference_archive_is_parent_leaf_witness :
  w_dar (snd (cmd_make (sample_env true) sample_config
                       (mkBackupLabel "a" "b") level_s false sample_world))
  = w_dar sample_world
      ++ [base_command (sample_env true) sample_config
                       (mkBackupLabel "a" "b")
                       [mkBackup ts_2021; mkBackup ts_mar; mkBackup ts_jan]
            ++ ["--ref";
                path_str
                  (pdiv (pdiv (pjoin
                                 (pjoin (root sample_config)
                                        (backup_label_to_path
                                           (mkBackupLabel "a" "b")))
                                 (backup_to_path
                                    [mkBackup ts_mar; mkBackup ts_jan]))
                              data_dir_name)
                        (strftime (timestamp (mkBackup ts_mar))
                                  ts_format))]].
Proof.
  apply (reference_archive_is_parent_leaf
           (sample_env true) sample_config (mkBackupLabel "a" "b") level_s
           sample_world
           [mkBackup ts_2021; mkBackup ts_mar; mkBackup ts_jan]
           (Dir [("etc", Dir [("backup", Dir [])]);
                 ("backup",
                  Dir [(".workdir", Dir [("tmpabc", Dir [])]);
                       ("a", Dir [("b", sample_label_dir)])])]));
    reflexivity.
Defined.

(* ------------------------------------------------------------------ *)
(** * Further properties of the code *)

(** ** Directory names read back as they were written *)

Lemma is_digit_cases (c : ascii) :
  is_digit c = true ->
  c = "0"%char \/ c = "1"%char \/ c = "2"%char \/ c = "3"%char \/
  c = "4"%char \/ c = "5"%char \/ c = "6"%char \/ c = "7"%char \/
  c = "8"%char \/ c = "9"%char.
Proof.
  destruct c as [[] [] [] [] [] [] [] []]; intros H;
    try discriminate H; tauto.
Qed.

Ltac digit_cases c H :=
  destruct (is_digit_cases c H)
    as [-> | [-> | [-> | [-> | [-> | [-> | [-> | [-> | [-> | ->]]]]]]]]];
  clear H.

Ltac field_inv a b Ha Hb H :=
  digit_cases a Ha; digit_cases b Hb;
  simpl in H;
  first
    [ discriminate H
    | match type of H with
      | context [regex_match _ _ ?t'] =>
          match goal with
          | |- exists v, _ /\ regex_match ?f ?s0 (set_field ?d v ?t0) = _ =>
              let x := eval cbv in
                (match d with
                 | pm => month t' | pd => day t' | pH => hour t'
                 | pM => minute t' | pS => second t' | _ => year t'
                 end) in
              exists x; split; [reflexivity|];
              simpl;
              destruct (regex_match f s0 t'); [exact H | discriminate H]
          end
      end ].

Lemma regex_match_pm_inv (a b : ascii) fmt s t r :
  is_digit a = true -> is_digit b = true ->
  regex_match (pm :: Lit "-" :: fmt) (String a (String b (String "-" s))) t
  = Some r ->
  exists v, pad2 v = String a (String b "") /\
            regex_match fmt s (set_field pm v t) = Some r.
Proof. intros Ha Hb H. field_inv a b Ha Hb H. Qed.

Lemma regex_match_pd_inv (a b : ascii) fmt s t r :
  is_digit a = true -> is_digit b = true ->
  regex_match (pd :: Lit "_" :: fmt) (String a (String b (String "_" s))) t
  = Some r ->
  exists v, pad2 v = String a (String b "") /\
            regex_match fmt s (set_field pd v t) = Some r.
Proof. intros Ha Hb H. field_inv a b Ha Hb H. Qed.

Lemma regex_match_pH_inv (a b : ascii) fmt s t r :
  is_digit a = true -> is_digit b = true ->
  regex_match (pH :: Lit ":" :: fmt) (String a (String b (String ":" s))) t
  = Some r ->
  exists v, pad2 v = String a (String b "") /\
            regex_match fmt s (set_field pH v t) = Some r.
Proof. intros Ha Hb H. field_inv a b Ha Hb H. Qed.

Lemma regex_match_pM_inv (a b : ascii) fmt s t r :
  is_digit a = true -> is_digit b = true ->
  regex_match (pM :: Lit ":" :: fmt) (String a (String b (String ":" s))) t
  = Some r ->
  exists v, pad2 v = String a (String b "") /\
            regex_match fmt s (set_field pM v t) = Some r.
Proof. intros Ha Hb H. field_inv a b Ha Hb H. Qed.

(** The seconds end the format: the match must use up both digits. *)
Lemma regex_match_pS_inv (a b : ascii) t t' :
  is_digit a = true -> is_digit b = true ->
  regex_match [pS] (String a (String b "")) t = Some (t', EmptyString) ->
  exists v, pad2 v = String a (String b "") /\ t' = set_field pS v t.
Proof.
  intros Ha Hb H. digit_cases a Ha; digit_cases b Hb;
    simpl in H; first [discriminate H | injection H as <-];
    match goal with
    | |- exists v, _ /\ ?t1 = _ =>
        let x := eval cbv in (second t1) in exists x
    end; split; reflexivity.
Qed.

Lemma is_digit_digit_val (c : ascii) :
  is_digit c = true ->
  exists k, 0 <= k <= 9 /\ digit_val c = Some k /\ c = digit k.
Proof.
  intros H. digit_cases c H;
    [exists 0 | exists 1 | exists 2 | exists 3 | exists 4
     | exists 5 | exists 6 | exists 7 | exists 8 | exists 9];
    (split; [lia | split; reflexivity]).
Qed.

Lemma digit_mod (n m : Z) : n mod 10 = m mod 10 -> digit n = digit m.
Proof. unfold digit. intros ->. reflexivity. Qed.

Lemma regex_match_pY_inv (a b c d : ascii) fmt s t r :
  is_digit a = true -> is_digit b = true ->
  is_digit c = true -> is_digit d = true ->
  regex_match (pY :: fmt) (String a (String b (String c (String d s)))) t
  = Some r ->
  exists y, pad4 y = String a (String b (String c (String d ""))) /\
            regex_match fmt s (set_field pY y t) = Some r.
Proof.
  intros Ha Hb Hc Hd H.
  destruct (is_digit_digit_val a Ha) as (ka & Hka & Ea & ->).
  destruct (is_digit_digit_val b Hb) as (kb & Hkb & Eb & ->).
  destruct (is_digit_digit_val c Hc) as (kc & Hkc & Ec & ->).
  destruct (is_digit_digit_val d Hd) as (kd & Hkd & Ed & ->).
  cbn [regex_match regex_of match_seq] in H.
  rewrite Ea, Eb, Ec, Ed in H.
  replace ((0 <=? ka) && (ka <=? 9)) with true in H
    by (symmetry; apply andb_true_iff; split; apply Z.leb_le; lia).
  replace ((0 <=? kb) && (kb <=? 9)) with true in H
    by (symmetry; apply andb_true_iff; split; apply Z.leb_le; lia).
  replace ((0 <=? kc) && (kc <=? 9)) with true in H
    by (symmetry; apply andb_true_iff; split; apply Z.leb_le; lia).
  replace ((0 <=? kd) && (kd <=? 9)) with true in H
    by (symmetry; apply andb_true_iff; split; apply Z.leb_le; lia).
  set (y := 10 * (10 * (10 * (10 * 0 + ka) + kb) + kc) + kd) in H.
  exists y. split.
  - unfold pad4, pad2.
    assert (E1 : (y / 1000) mod 10 = ka mod 10)
      by (subst y; Z.div_mod_to_equations; lia).
    assert (E2 : (y / 100) mod 10 = kb mod 10)
      by (subst y; Z.div_mod_to_equations; lia).
    assert (E3 : (y / 10) mod 10 = kc mod 10)
      by (subst y; Z.div_mod_to_equations; lia).
    assert (E4 : y mod 10 = kd mod 10)
      by (subst y; Z.div_mod_to_equations; lia).
    rewrite (digit_mod _ _ E1), (digit_mod _ _ E2), (digit_mod _ _ E3),
      (digit_mod _ _ E4). reflexivity.
  - destruct (regex_match fmt s (set_field pY y t)); [exact H | discriminate H].
Qed.

Lemma fnmatch_digit (c : ascii) (name : string) (pat : list gchar) :
  fnmatch (String c name) (GDigit :: pat) = true ->
  is_digit c = true /\ fnmatch name pat = true.
Proof. cbn [fnmatch]. apply andb_true_iff. Qed.

Lemma fnmatch_lit (c a : ascii) (name : string) (pat : list gchar) :
  fnmatch (String c name) (GLit a :: pat) = true ->
  c = a /\ fnmatch name pat = true.
Proof.
  cbn [fnmatch]. intros H. apply andb_true_iff in H as [Hc H].
  apply Ascii.eqb_eq in Hc. split; assumption.
Qed.

Lemma fnmatch_nil_string (g : gchar) (pat : list gchar) :
  fnmatch EmptyString (g :: pat) = true -> False.
Proof. destruct g; discriminate. Qed.

Lemma fnmatch_nil_pattern (name : string) :
  fnmatch name [] = true -> name = EmptyString.
Proof. destruct name; [reflexivity | discriminate]. Qed.

(** A name the glob matches has the shape dddd-dd-dd_dd:dd:dd. *)
Lemma fnmatch_glob_shape (name : string) :
  fnmatch name glob_format = true ->
  exists y1 y2 y3 y4 m1 m2 d1 d2 h1 h2 n1 n2 s1 s2 : ascii,
    name
    = String y1 (String y2 (String y3 (String y4 (String "-"
       (String m1 (String m2 (String "-"
       (String d1 (String d2 (String "_"
       (String h1 (String h2 (String ":"
       (String n1 (String n2 (String ":"
       (String s1 (String s2 EmptyString)))))))))))))))))) /\
    (is_digit y1 = true /\ is_digit y2 = true /\
     is_digit y3 = true /\ is_digit y4 = true) /\
    (is_digit m1 = true /\ is_digit m2 = true) /\
    (is_digit d1 = true /\ is_digit d2 = true) /\
    (is_digit h1 = true /\ is_digit h2 = true) /\
    (is_digit n1 = true /\ is_digit n2 = true) /\
    (is_digit s1 = true /\ is_digit s2 = true).
Proof.
  unfold glob_format, dd. cbn [app]. intros H.
  repeat match type of H with
         | fnmatch ?s (_ :: _) = true =>
             is_var s; destruct s as [|? ?];
             [destruct (fnmatch_nil_string _ _ H)|]
         | fnmatch (String _ _) (GDigit :: _) = true =>
             let Hd := fresh "Hd" in
             apply fnmatch_digit in H as [Hd H]
         | fnmatch (String _ _) (GLit _ :: _) = true =>
             let Hl := fresh "Hl" in
             apply fnmatch_lit in H as [Hl H]; subst
         end.
  apply fnmatch_nil_pattern in H. subst.
  do 14 eexists. split; [reflexivity|]. tauto.
Qed.

(** strftime undoes strptime on the names the scanner parses: a name that
    matches the glob and that strptime accepts is the formatted form of
    the timestamp it denotes. *)
Lemma strftime_strptime_name (name : string) (t : datetime) :
  fnmatch name glob_format = true ->
  strptime name ts_format = Ok t ->
  strftime t ts_format = name.
Proof.
  intros Hg Hp.
  destruct (fnmatch_glob_shape name Hg)
    as (y1 & y2 & y3 & y4 & m1 & m2 & d1 & d2 & h1 & h2 & n1 & n2 & s1 & s2
        & -> & (Hy1 & Hy2 & Hy3 & Hy4) & (Hm1 & Hm2) & (Hd1 & Hd2)
        & (Hh1 & Hh2) & (Hn1 & Hn2) & (Hs1 & Hs2)).
  unfold strptime in Hp.
  match type of Hp with
  | match ?m with _ => _ end = _ => destruct m as [[t' rest]|] eqn:E
  end; [|discriminate Hp].
  destruct rest; [|discriminate Hp].
  destruct (valid_datetime t'); [|discriminate Hp].
  injection Hp as ->. unfold ts_format in E.
  apply regex_match_pY_inv in E as (y & Ey & E); try assumption.
  rewrite regex_match_Lit in E.
  apply regex_match_pm_inv in E as (m & Em & E); try assumption.
  apply regex_match_pd_inv in E as (d & Ed & E); try assumption.
  apply regex_match_pH_inv in E as (h & Eh & E); try assumption.
  apply regex_match_pM_inv in E as (n & En & E); try assumption.
  apply regex_match_pS_inv in E as (x & Ex & ->); try assumption.
  rewrite strftime_unfold. cbn [set_field strptime_default year month day
                                 hour minute second microsecond].
  rewrite Ey, Em, Ed, Eh, En, Ex. reflexivity.
Qed.

Lemma parse_name_Ok (name : string) :
  name_parses name = true ->
  strptime name ts_format = Ok (parse_name name).
Proof.
  unfold name_parses, parse_name.
  destruct (strptime name ts_format); [reflexivity | discriminate].
Qed.

Lemma is_backup_path_names (p : list string) :
  forall dir, is_backup_path dir p = true ->
              forall name, In name p -> fnmatch name glob_format = true.
Proof.
  induction p as [|n p IH]; intros dir H name Hin; [destruct Hin|].
  cbn [is_backup_path] in H.
  destruct (lookup dir [n]) as [sub|]; [|discriminate].
  apply andb_true_iff in H as [He H].
  destruct Hin as [<- | Hin].
  - unfold backup_entry in He. apply andb_true_iff in He as [Hg _].
    exact Hg.
  - destruct p as [|m p]; [destruct Hin|]. apply (IH sub H name Hin).
Qed.

(** A backup path leads to a directory that holds a _data directory. *)
Lemma is_backup_path_lookup (p : list string) :
  forall dir, is_backup_path dir p = true ->
              exists sub, lookup dir p = Some sub /\
                          is_dir sub = true /\ has_data_dir sub = true.
Proof.
  induction p as [|n p IH]; intros dir H; [discriminate|].
  cbn [is_backup_path] in H.
  destruct (lookup dir [n]) as [sub|] eqn:E; [|discriminate].
  apply andb_true_iff in H as [He H].
  change (n :: p) with ([n] ++ p). rewrite lookup_app, E.
  destruct p as [|m p].
  - exists sub. unfold backup_entry in He.
    apply andb_true_iff in He as [_ He]. apply andb_true_iff in He.
    split; [reflexivity | exact He].
  - apply (IH sub H).
Qed.

Lemma has_data_dir_lookup (sub : node) :
  has_data_dir sub = true ->
  exists es, lookup sub [data_dir_name] = Some (Dir es).
Proof.
  destruct sub as [|es]; [discriminate|]. cbn [has_data_dir lookup].
  destruct (lookup_entry data_dir_name es) as [[|es']|]; try discriminate.
  intros _. exists es'. reflexivity.
Qed.

Lemma fs_path_app (a x : PurePath) :
  has_root x = false -> fs_path (a ++ x) = fs_path a ++ x.
Proof.
  intros Hx. unfold fs_path. destruct a as [|r a].
  - cbn [app has_root]. rewrite Hx. reflexivity.
  - rewrite (has_root_app (r :: a) x) by discriminate.
    destruct (has_root (r :: a)); reflexivity.
Qed.

Lemma fnmatch_has_root (name : string) (p : PurePath) :
  fnmatch name glob_format = true -> has_root (name :: p) = false.
Proof.
  intros H. destruct name as [|c s]; [reflexivity|].
  cbn in H. apply andb_true_iff in H as [Hc _].
  apply is_digit_not_slash in Hc.
  destruct c as [[] [] [] [] [] [] [] []];
    first [discriminate Hc | reflexivity].
Qed.

(** backup_to_path gives back the path a chain was read from. *)
Lemma backup_to_path_chain_of_path (p : list string) :
  (forall name, In name p ->
                fnmatch name glob_format = true /\ name_parses name = true) ->
  backup_to_path (chain_of_path p) = p.
Proof.
  intros H. rewrite backup_to_path_parts. unfold chain_of_path.
  rewrite <- map_rev, rev_involutive, map_map. cbn [timestamp].
  rewrite <- (map_id p) at 2. apply map_ext_in. intros name Hin.
  destruct (H name Hin) as [Hg Hp].
  apply (strftime_strptime_name name _ Hg (parse_name_Ok name Hp)).
Qed.

(** ** The scanner and the codec together *)

(** The directory of a scanned chain, with the years as strftime pads
    them. *)
Lemma scanned_chain_directory
      (t : node) (root_path : PurePath) (dir : node)
      (l : list (list Backup)) :
  lookup t (fs_path root_path) = Some dir ->
  well_formed dir = true ->
  list_backups t root_path = Ok l ->
  forall c, In c l ->
    is_backup_path dir (backup_to_path c) = true /\
    c = chain_of_path (backup_to_path c) /\
    path_is_dir t (pdiv (pjoin root_path (backup_to_path c)) data_dir_name)
    = true.
Proof.
  intros Hdir Hwf Hl c Hc.
  rewrite list_backups_spec, Hdir in Hl.
  destruct (paths_parse (backup_paths dir)) eqn:Hparse; [|discriminate].
  injection Hl as <-.
  assert (Hin : In c (map chain_of_path (backup_paths dir))).
  { rewrite <- (keyed_snd (map chain_of_path (backup_paths dir))).
    apply in_map_iff in Hc as (x & <- & Hx). apply in_map.
    apply (Permutation_in _ (sorted_reverse_perm _) Hx). }
  apply in_map_iff in Hin as (p & <- & Hp).
  assert (Hnames : forall name, In name p ->
             fnmatch name glob_format = true /\ name_parses name = true).
  { intros name Hname. split.
    - apply (is_backup_path_names p dir); [|exact Hname].
      apply (In_backup_paths dir Hwf), Hp.
    - unfold paths_parse in Hparse. rewrite forallb_forall in Hparse.
      specialize (Hparse p Hp). rewrite forallb_forall in Hparse.
      apply Hparse, Hname. }
  apply (In_backup_paths dir Hwf) in Hp.
  rewrite (backup_to_path_chain_of_path p Hnames).
  split; [exact Hp|]. split; [reflexivity|].
  destruct (is_backup_path_lookup p dir Hp) as (sub & Hsub & _ & Hdata).
  destruct (has_data_dir_lookup sub Hdata) as (es & Hes).
  destruct p as [|n p]; [discriminate Hp|].
  assert (Hroot : has_root ((n :: p) ++ [data_dir_name]) = false).
  { apply fnmatch_has_root. apply Hnames. left. reflexivity. }
  unfold path_is_dir. rewrite pdiv_data. unfold pjoin.
  rewrite (fnmatch_has_root n p (proj1 (Hnames n (or_introl eq_refl)))).
  rewrite <- app_assoc, (fs_path_app _ _ Hroot).
  rewrite lookup_app, Hdir, lookup_app, Hsub, Hes. reflexivity.
Qed.

(** X1: every chain list_backups returns leads back, through
    backup_to_path, to the directory it was read from: the path of the
    chain is the path of a backup directory below the scan root, the chain
    is the chain of that path, and root / path / _data is a directory (the
    one cmd_list measures and cmd_make refers to). *)
Theorem scanned_chain_leads_back_to_its_directory
        (t : node) (root_path : PurePath) (dir : node)
        (l : list (list Backup)) :
  lookup t (fs_path root_path) = Some dir ->
  well_formed dir = true ->
  (forall p name, is_backup_path dir p = true -> In name p ->
                  1000 <= year (parse_name name)) ->
  list_backups t root_path = Ok l ->
  forall c, In c l ->
    is_backup_path dir (backup_to_path c) = true /\
    c = chain_of_path (backup_to_path c) /\
    path_is_dir t (pdiv (pjoin root_path (backup_to_path c)) data_dir_name)
    = true.
Proof.
  intros Hdir Hwf _ Hl.
  apply (scanned_chain_directory t root_path dir l Hdir Hwf Hl).
Qed.

Lemma scanned_chain_leads_back_to_its_directory_witness :
  is_backup_path sample_label_dir
                 (backup_to_path [mkBackup ts_mar; mkBackup ts_jan]) = true /\
  [mkBackup ts_mar; mkBackup ts_jan]
  = chain_of_path (backup_to_path [mkBackup ts_mar; mkBackup ts_jan]) /\
  path_is_dir sample_fs
              (pdiv (pjoin sample_root
                           (backup_to_path [mkBackup ts_mar; mkBackup ts_jan]))
                    data_dir_name) = true.
Proof.
  refine (scanned_chain_leads_back_to_its_directory
            sample_fs sample_root sample_label_dir
            [[mkBackup ts_mar; mkBackup ts_jan]; [mkBackup ts_feb];
             [mkBackup ts_jan]]
            eq_refl eq_refl _ eq_refl _ _).
  - intros p name Hp Hin.
    apply (In_backup_paths sample_label_dir eq_refl) in Hp.
    cbn in Hp.
    repeat (destruct Hp as [<- | Hp];
            [cbn in Hin;
             repeat (destruct Hin as [<- | Hin]; [vm_compute; discriminate|]);
             destruct Hin|]).
    destruct Hp.
  - left. reflexivity.
Defined.

(** ** Edge and error behaviour of list_backups *)

Lemma backup_paths_no_entry (es : list (string * node)) :
  (forall n c, In (n, c) es -> backup_entry n c = false) ->
  backup_paths (Dir es) = [].
Proof.
  induction es as [|[name sub] es IH]; intros H; [reflexivity|].
  rewrite backup_paths_cons, (H name sub (or_introl eq_refl)).
  apply IH. intros n c Hin. apply (H n c). right. exact Hin.
Qed.

(** X2: list_backups does not fail on a scan root that is missing, that is
    not a directory, or that holds no backup directory of its own
    (whatever lies deeper): it returns the empty list. *)
Theorem list_backups_nothing_to_scan (t : node) (root_path : PurePath) :
  lookup t (fs_path root_path) = None \/
  lookup t (fs_path root_path) = Some File \/
  (exists es, lookup t (fs_path root_path) = Some (Dir es) /\
              forall n c, In (n, c) es -> backup_entry n c = false) ->
  list_backups t root_path = Ok [].
Proof.
  rewrite list_backups_spec.
  intros [-> | [-> | (es & -> & H)]]; try reflexivity.
  rewrite (backup_paths_no_entry es H). reflexivity.
Qed.

Lemma list_backups_nothing_to_scan_witness :
  list_backups sample_fs ["/"; "backup"; "c"; "d"] = Ok [].
Proof.
  apply (list_backups_nothing_to_scan sample_fs ["/"; "backup"; "c"; "d"]).
  left. reflexivity.
Defined.

(** ** The forest of chains *)

Lemma is_backup_path_prefix (q : list string) :
  forall dir n,
    q <> [] -> is_backup_path dir (q ++ [n]) = true ->
    is_backup_path dir q = true.
Proof.
  induction q as [|m q IH]; intros dir n Hq H; [contradiction|].
  cbn [app is_backup_path] in H |- *.
  destruct (lookup dir [m]) as [sub|]; [|discriminate].
  apply andb_true_iff in H as [He H]. rewrite He. cbn [andb].
  destruct q as [|k q]; [reflexivity|].
  apply (IH sub n); [discriminate | exact H].
Qed.

(** X4: the result of list_backups is closed under taking the parent: a
    chain with ancestors (length 2 or more) comes with the chain of its
    parent, so every differential backup listed has its base listed too,
    down to a full backup. *)
Theorem list_backups_lists_every_parent
        (t : node) (root_path : PurePath) (dir : node)
        (l : list (list Backup)) :
  lookup t (fs_path root_path) = Some dir ->
  well_formed dir = true ->
  list_backups t root_path = Ok l ->
  forall b parent, In (b :: parent) l -> parent <> [] -> In parent l.
Proof.
  intros Hdir Hwf Hl b parent Hc Hne.
  rewrite list_backups_spec, Hdir in Hl.
  destruct (paths_parse (backup_paths dir)) eqn:Hparse; [|discriminate].
  injection Hl as <-.
  assert (Hmem : forall c,
             In c (map snd (sorted_reverse
                              (keyed (map chain_of_path (backup_paths dir)))))
             <-> In c (map chain_of_path (backup_paths dir))).
  { intros c.
    rewrite <- (keyed_snd (map chain_of_path (backup_paths dir))) at 2.
    split; apply Permutation_in, Permutation_map.
    - apply sorted_reverse_perm.
    - apply Permutation_sym, sorted_reverse_perm. }
  apply Hmem in Hc. apply Hmem.
  apply in_map_iff in Hc as (p & Ep & Hp).
  destruct (exists_last (l := p)) as (q & n & ->).
  { intros ->. discriminate Ep. }
  unfold chain_of_path in Ep. rewrite rev_app_distr in Ep.
  cbn [rev app map] in Ep. injection Ep as _ Ep.
  apply in_map_iff. exists q. split; [exact Ep|].
  apply (In_backup_paths dir Hwf).
  apply (is_backup_path_prefix q dir n).
  - intros ->. cbn in Ep. congruence.
  - apply (In_backup_paths dir Hwf), Hp.
Qed.

Lemma list_backups_lists_every_parent_witness :
  In [mkBackup ts_jan]
     [[mkBackup ts_mar; mkBackup ts_jan]; [mkBackup ts_feb];
      [mkBackup ts_jan]].
Proof.
  apply (list_backups_lists_every_parent
           sample_fs sample_root sample_label_dir
           [[mkBackup ts_mar; mkBackup ts_jan]; [mkBackup ts_feb];
            [mkBackup ts_jan]]
           eq_refl eq_refl eq_refl (mkBackup ts_mar) [mkBackup ts_jan]).
  - left. reflexivity.
  - discriminate.
Defined.

(** ** latest_backup on the result of list_backups *)

Lemma list_backups_sorted (t : node) (root_path : PurePath)
      (l : list (list Backup)) :
  list_backups t root_path = Ok l -> StronglySorted chain_ge l.
Proof.
  rewrite list_backups_spec.
  destruct (lookup t (fs_path root_path)) as [dir|].
  - destruct (paths_parse (backup_paths dir)); [|discriminate].
    intros [= <-]. apply sorted_chains_descending.
  - intros [= <-]. constructor.
Qed.

Lemma chain_ge_refl (c : list Backup) : chain_ge c c.
Proof.
  unfold chain_ge. rewrite (lex_compare_refl _ dt_OrderCmp). discriminate.
Qed.

Lemma latest_backup_first (l : list (list Backup)) (level : nat)
      (x : list Backup) :
  StronglySorted chain_ge l ->
  latest_backup l level = Some x ->
  forall y, In y l -> List.length y = level -> chain_ge x y.
Proof.
  unfold latest_backup.
  induction l as [|a l IH]; intros Hs H y Hy Hlen; [destruct Hy|].
  apply StronglySorted_inv in Hs as [Hs Ha].
  cbn [dropwhile] in H.
  destruct (Nat.eqb_spec (List.length a) level) as [E | E]; cbn [negb] in H.
  - injection H as <-. destruct Hy as [<- | Hy]; [apply chain_ge_refl|].
    rewrite Forall_forall in Ha. apply Ha, Hy.
  - destruct Hy as [<- | Hy]; [contradiction|].
    apply (IH Hs H y Hy Hlen).
Qed.

Lemma latest_backup_None_iff (l : list (list Backup)) (level : nat) :
  latest_backup l level = None <->
  forall y, In y l -> List.length y <> level.
Proof.
  unfold latest_backup.
  induction l as [|a l IH]; cbn [dropwhile].
  - split; [intros _ y [] | reflexivity].
  - destruct (Nat.eqb_spec (List.length a) level) as [E | E]; cbn [negb].
    + split; [discriminate|]. intros H. exfalso. apply (H a); [left|]; auto.
    + rewrite IH. split.
      * intros H y [<- | Hy]; auto.
      * intros H y Hy. apply H. right. exact Hy.
Qed.

(** X5: applied to the list list_backups returns, latest_backup(level)
    gives a chain of that length that is the most recent of its length
    (no chain of that length in the list has a greater timestamp
    sequence), and it gives None exactly when the list has no chain of
    that length. *)
Theorem latest_backup_is_the_most_recent_of_its_level
        (t : node) (root_path : PurePath) (l : list (list Backup))
        (level : nat) :
  list_backups t root_path = Ok l ->
  (forall x, latest_backup l level = Some x ->
             List.length x = level /\ In x l /\
             forall y, In y l -> List.length y = level -> chain_ge x y)
  /\
  (latest_backup l level = None <->
   forall y, In y l -> List.length y <> level).
Proof.
  intros Hl. split; [|apply latest_backup_None_iff].
  intros x Hx. destruct (latest_backup_Some l level x Hx) as [H1 H2].
  split; [exact H1|]. split; [exact H2|].
  apply (latest_backup_first l level x (list_backups_sorted _ _ _ Hl) Hx).
Qed.

Lemma latest_backup_is_the_most_recent_of_its_level_witness :
  List.length [mkBackup ts_feb] = 1%nat /\
  In [mkBackup ts_feb]
     [[mkBackup ts_mar; mkBackup ts_jan]; [mkBackup ts_feb];
      [mkBackup ts_jan]] /\
  forall y,
    In y [[mkBackup ts_mar; mkBackup ts_jan]; [mkBackup ts_feb];
          [mkBackup ts_jan]] ->
    List.length y = 1%nat -> chain_ge [mkBackup ts_feb] y.
Proof.
  apply (proj1 (latest_backup_is_the_most_recent_of_its_level
                  sample_fs sample_root
                  [[mkBackup ts_mar; mkBackup ts_jan]; [mkBackup ts_feb];
                   [mkBackup ts_jan]] 1 eq_refl)).
  reflexivity.
Defined.

(** ** The shape of the chain cmd_make builds *)

(** X6: the chain cmd_make builds is the new backup, stamped with the
    current time, followed by its parent chain.  With level 'g' there is no
    parent and the existing backups are not read.  Otherwise the parent,
    when there is one, is a chain of length 1 or 2 returned by
    list_backups: cmd_make never builds a chain of more than three
    backups, whatever the tree holds. *)
Theorem new_chain_has_at_most_three_backups
        (env : Env) (root : PurePath) (level : Level) (w w' : world)
        (backup : list Backup) :
  cmd_make_backup env root level w = (Ok backup, w') ->
  exists parent,
    backup = mkBackup (now env) :: parent /\
    (List.length backup <= 3)%nat /\
    (level = level_g -> parent = [] /\ w' = w) /\
    (parent <> [] ->
     exists all_backups,
       list_backups (w_fs w) root = Ok all_backups /\
       In parent all_backups /\
       (List.length parent = 1%nat \/ List.length parent = 2%nat)).
Proof.
  unfold cmd_make_backup. destruct level; cbn [level_num Nat.ltb Nat.leb].
  - intros [= <- <-]. exists []. repeat split; try (cbn; lia).
    intros H. contradiction.
  - unfold mbind, read_fs, ff, ret, raise, echo.
    destruct (list_backups (w_fs w) root) as [all|e] eqn:Hall;
      [|discriminate].
    destruct (latest_backup all 1) as [g|] eqn:Hg.
    + destruct (latest_backup_Some _ _ _ Hg) as [Lg Ig].
      destruct g as [|g0 [|? ?]]; try discriminate Lg.
      destruct (latest_backup all 2) as [f|] eqn:Hf.
      * destruct (latest_backup_Some _ _ _ Hf) as [Lf If].
        destruct f as [|f0 [|f1 [|? ?]]]; try discriminate Lf.
        destruct (dt_geb (timestamp f0) (timestamp g0));
          intros [= <- <-]; eexists; (split; [reflexivity|]);
          (split; [cbn; lia|]); (split; [discriminate|]);
          intros _; exists all; (split; [reflexivity|]);
          (split; [assumption|]); cbn; auto.
      * cbn. intros [= <- <-]. eexists. split; [reflexivity|].
        split; [cbn; lia|]. split; [discriminate|].
        intros _. exists all. split; [reflexivity|].
        split; [assumption|]. cbn. auto.
    + destruct (latest_backup all 2); cbn; intros [= <- <-];
        exists []; (split; [reflexivity|]); (split; [cbn; lia|]);
        (split; [discriminate|]); intros H; contradiction.
  - unfold mbind, read_fs, ff, ret, raise, echo.
    destruct (list_backups (w_fs w) root) as [all|e] eqn:Hall;
      [|discriminate].
    destruct (latest_backup all 1) as [g|] eqn:Hg.
    + destruct (latest_backup_Some _ _ _ Hg) as [Lg Ig].
      destruct g as [|g0 [|? ?]]; try discriminate Lg.
      destruct (latest_backup all 2) as [f|] eqn:Hf.
      * destruct (latest_backup_Some _ _ _ Hf) as [Lf If].
        destruct f as [|f0 [|f1 [|? ?]]]; try discriminate Lf.
        destruct (dt_geb (timestamp f0) (timestamp g0));
          intros [= <- <-]; eexists; (split; [reflexivity|]);
          (split; [cbn; lia|]); (split; [discriminate|]);
          intros _; exists all; (split; [reflexivity|]);
          (split; [assumption|]); cbn; auto.
      * cbn. intros [= <- <-]. eexists. split; [reflexivity|].
        split; [cbn; lia|]. split; [discriminate|].
        intros _. exists all. split; [reflexivity|].
        split; [assumption|]. cbn. auto.
    + destruct (latest_backup all 2); cbn; intros [= <- <-];
        exists []; (split; [reflexivity|]); (split; [cbn; lia|]);
        (split; [discriminate|]); intros H; contradiction.
Qed.

Lemma new_chain_has_at_most_three_backups_witness :
  exists parent,
    [mkBackup ts_2021; mkBackup ts_mar; mkBackup ts_jan]
    = mkBackup (now (sample_env true)) :: parent /\
    (List.length [mkBackup ts_2021; mkBackup ts_mar; mkBackup ts_jan]
     <= 3)%nat /\
    (level_s = level_g -> parent = [] /\ sample_world = sample_world) /\
    (parent <> [] ->
     exists all_backups,
       list_backups (w_fs sample_world) sample_root = Ok all_backups /\
       In parent all_backups /\
       (List.length parent = 1%nat \/ List.length parent = 2%nat)).
Proof.
  apply (new_chain_has_at_most_three_backups
           (sample_env true) sample_root level_s sample_world sample_world).
  reflexivity.
Defined.

(** ** What a run of cmd_make touches *)

Lemma app_one_neq {A : Type} (l : list A) (x : A) : l ++ [x] <> l.
Proof.
  intros H. apply (f_equal (@List.length A)) in H.
  rewrite length_app in H. cbn in H. lia.
Qed.

(** X7: with dry-run on, cmd_make never calls the archiver and never
    creates or renames a destination; but when it returns normally it has
    created the staging directory mkdtemp draws in the work directory, and
    leaves it there, empty: the file system after the run is the one
    before it with that one directory added.  The command is only
    logged. *)
Theorem dry_run_only_leaves_the_staging_directory
        (env : Env) (config : Config) (label : BackupLabel) (level : Level)
        (w w' : world) :
  cmd_make env config label level true w = (Ok tt, w') ->
  w_dar w' = w_dar w /\
  mkdir (w_fs w) (fs_path (staging_dir env config)) = Ok (w_fs w') /\
  lookup (w_fs w') (fs_path (staging_dir env config)) = Some (Dir []) /\
  exists command, w_log w' = w_log w ++ [LogCommand command].
Proof.
  intros H. rewrite cmd_make_unfold in H. cbv zeta in H.
  pose proof (cmd_make_backup_frame env (label_root config label) level
                                    (announced level w)) as Hf.
  cbv zeta in Hf.
  destruct (announced_frame level w) as (Ha1 & Ha2 & Ha3).
  destruct (cmd_make_backup env (label_root config label) level
                            (announced level w)) as [[backup|e] w1];
    [|discriminate H].
  cbn [snd] in Hf. destruct Hf as (Hf1 & Hf2 & Hf3).
  cbn [w_fs w_stdout w_log w_dar] in H.
  destruct (path_is_dir (w_fs w1) (config_dir config)); [|discriminate H].
  destruct (mkdir (w_fs w1) (fs_path (staging_dir env config)))
    as [t3|e] eqn:Em; [|discriminate H].
  cbn in H. injection H as <-. cbn [w_fs w_dar w_log].
  rewrite Hf1, Ha1 in Em. rewrite Hf2, Hf3, Ha2, Ha3.
  split; [reflexivity|]. split; [exact Em|].
  split; [apply (mkdir_Ok _ _ _ Em)|]. eexists. reflexivity.
Qed.

Lemma dry_run_only_leaves_the_staging_directory_witness :
  w_dar (snd (cmd_make (sample_env true) sample_config
                       (mkBackupLabel "a" "b") level_s true sample_world))
  = w_dar sample_world /\
  mkdir (w_fs sample_world)
        (fs_path (staging_dir (sample_env true) sample_config))
  = Ok (w_fs (snd (cmd_make (sample_env true) sample_config
                            (mkBackupLabel "a" "b") level_s true
                            sample_world))) /\
  lookup (w_fs (snd (cmd_make (sample_env true) sample_config
                              (mkBackupLabel "a" "b") level_s true
                              sample_world)))
         (fs_path (staging_dir (sample_env true) sample_config))
  = Some (Dir []) /\
  exists command,
    w_log (snd (cmd_make (sample_env true) sample_config
                         (mkBackupLabel "a" "b") level_s true sample_world))
    = w_log sample_world ++ [LogCommand command].
Proof.
  apply (dry_run_only_leaves_the_staging_directory
           (sample_env true) sample_config (mkBackupLabel "a" "b") level_s
           sample_world).
  reflexivity.
Defined.

(** X8: with dry-run off, a run of cmd_make either raises before it has
    touched anything (no archiver call, the file system as it was), or
    calls the archiver exactly once. *)
Theorem cmd_make_fails_clean_or_calls_the_archiver_once
        (env : Env) (config : Config) (label : BackupLabel) (level : Level)
        (w w' : world) (r : result unit) :
  cmd_make env config label level false w = (r, w') ->
  (w_dar w' = w_dar w /\ w_fs w' = w_fs w /\ exists e, r = Raise e) \/
  (exists command, w_dar w' = w_dar w ++ [command] /\ w_dar w' <> w_dar w).
Proof.
  intros H. rewrite cmd_make_unfold in H. cbv zeta in H.
  pose proof (cmd_make_backup_frame env (label_root config label) level
                                    (announced level w)) as Hf.
  cbv zeta in Hf.
  destruct (announced_frame level w) as (Ha1 & Ha2 & Ha3).
  destruct (cmd_make_backup env (label_root config label) level
                            (announced level w)) as [[backup|e] w1];
    cbn [snd] in Hf; destruct Hf as (Hf1 & Hf2 & Hf3);
    rewrite Ha1 in Hf1; rewrite Ha3 in Hf3.
  2:{ injection H as <- <-. left. repeat split; try assumption.
      exists e. reflexivity. }
  cbn [w_fs w_stdout w_log w_dar] in H.
  destruct (path_is_dir (w_fs w1) (config_dir config)).
  2:{ injection H as <- <-. left. repeat split; try assumption.
      eexists. reflexivity. }
  destruct (mkdir (w_fs w1) (fs_path (staging_dir env config)))
    as [t3|e] eqn:Em.
  2:{ injection H as <- <-. left. repeat split; try assumption.
      eexists. reflexivity. }
  right. cbn [negb] in H. rewrite commit_unfold in H. cbv zeta in H.
  cbn [w_fs w_stdout w_log w_dar] in H.
  eexists.
  destruct (mkdir_parents t3 _) as [t5|e1];
    [destruct (rename t5 _ _) as [t6|e2]|];
    injection H as _ <-; cbn [w_dar]; rewrite Hf3;
    (split; [reflexivity | apply app_one_neq]).
Qed.

Lemma cmd_make_fails_clean_or_calls_the_archiver_once_witness :
  (w_dar (snd (cmd_make (sample_env true) sample_config
                        (mkBackupLabel "a" "b") level_s false sample_world))
   = w_dar sample_world /\
   w_fs (snd (cmd_make (sample_env true) sample_config
                       (mkBackupLabel "a" "b") level_s false sample_world))
   = w_fs sample_world /\
   exists e, @Ok unit tt = Raise e) \/
  (exists command,
      w_dar (snd (cmd_make (sample_env true) sample_config
                           (mkBackupLabel "a" "b") level_s false
                           sample_world))
      = w_dar sample_world ++ [command] /\
      w_dar (snd (cmd_make (sample_env true) sample_config
                           (mkBackupLabel "a" "b") level_s false
                           sample_world))
      <> w_dar sample_world).
Proof.
  apply (cmd_make_fails_clean_or_calls_the_archiver_once
           (sample_env true) sample_config (mkBackupLabel "a" "b") level_s
           sample_world).
  reflexivity.
Defined.

Lemma mkdir_keeps_paths (t t' : node) (q p : list string) (x : node) :
  mkdir t q = Ok t' -> lookup t p = Some x ->
  exists x', lookup t' p = Some x'.
Proof.
  revert t t' p x. induction q as [|n q IH]; intros t t' p x H Hp;
    [discriminate|].
  cbn [mkdir] in H. destruct t as [|es]; [discriminate|].
  destruct p as [|a p]; [exists t'; reflexivity|].
  cbn [lookup] in Hp.
  destruct (lookup_entry n es) as [c|] eqn:E.
  - destruct (mkdir c q) as [c'|e] eqn:Ec; [|discriminate].
    cbn [bind] in H. injection H as <-. cbn [lookup].
    destruct (String.eqb_spec a n) as [-> | Hne].
    + rewrite E in Hp. rewrite (lookup_entry_update_same n c' c es E).
      apply (IH c c' p x Ec Hp).
    + rewrite (lookup_entry_update_other a n c' es Hne).
      destruct (lookup_entry a es); [|discriminate]. exists x. exact Hp.
  - destruct q as [|m q]; [|discriminate]. injection H as <-.
    cbn [lookup].
    destruct (String.eqb_spec a n) as [-> | Hne].
    + rewrite E in Hp. discriminate.
    + rewrite (lookup_entry_app_other a n _ es Hne).
      destruct (lookup_entry a es); [|discriminate]. exists x. exact Hp.
Qed.

Lemma mkdir_parents_existing (t : node) (p : list string) (x : node) :
  lookup t p = Some x -> mkdir_parents t p = Raise FileExistsError.
Proof.
  revert t. induction p as [|n p IH]; intros t H; [reflexivity|].
  cbn [lookup] in H. cbn [mkdir_parents].
  destruct t as [|es]; [discriminate|].
  destruct (lookup_entry n es) as [c|]; [|discriminate].
  rewrite (IH c H). reflexivity.
Qed.

(** X9: the directory of the new backup must not exist yet.  When
    root/label/<chain path> is already there (a backup with the same
    timestamp under the same parent), a run with dry-run off cannot
    succeed; if it got as far as the archiver, the archiver has run, the
    run ends with FileExistsError whatever the archiver's exit status, and
    the staging directory, never renamed, is left in the work
    directory. *)
Theorem existing_backup_directory_is_an_error
        (env : Env) (config : Config) (label : BackupLabel) (level : Level)
        (w w' : world) (r : result unit) (backup : list Backup) (x : node) :
  cmd_make env config label level false w = (r, w') ->
  fst (cmd_make_backup env (label_root config label) level
                       (announced level w)) = Ok backup ->
  lookup (w_fs w)
         (fs_path (pjoin (label_root config label) (backup_to_path backup)))
  = Some x ->
  (exists e, r = Raise e) /\
  (w_dar w' <> w_dar w ->
   r = Raise FileExistsError /\
   mkdir (w_fs w) (fs_path (staging_dir env config)) = Ok (w_fs w') /\
   lookup (w_fs w') (fs_path (staging_dir env config)) = Some (Dir [])).
Proof.
  intros H Hb Hx. rewrite cmd_make_unfold in H. cbv zeta in H.
  pose proof (cmd_make_backup_frame env (label_root config label) level
                                    (announced level w)) as Hf.
  cbv zeta in Hf.
  destruct (announced_frame level w) as (Ha1 & Ha2 & Ha3).
  destruct (cmd_make_backup env (label_root config label) level
                            (announced level w)) as [[backup'|e] w1];
    cbn [fst] in Hb; [|discriminate Hb].
  injection Hb as ->.
  cbn [snd] in Hf. destruct Hf as (Hf1 & Hf2 & Hf3).
  rewrite Ha1 in Hf1. rewrite Ha3 in Hf3.
  cbn [w_fs w_stdout w_log w_dar] in H.
  destruct (path_is_dir (w_fs w1) (config_dir config)).
  2:{ injection H as <- <-. split; [eexists; reflexivity|].
      intros Hd. contradiction. }
  destruct (mkdir (w_fs w1) (fs_path (staging_dir env config)))
    as [t3|e] eqn:Em.
  2:{ injection H as <- <-. split; [eexists; reflexivity|].
      intros Hd. contradiction. }
  cbn [negb] in H. rewrite commit_unfold in H. cbv zeta in H.
  cbn [w_fs w_stdout w_log w_dar] in H.
  unfold target_path_of in H. rewrite pdiv_data, path_parent_data in H.
  rewrite Hf1 in Em.
  destruct (mkdir_keeps_paths _ _ _ _ _ Em Hx) as (x' & Hx').
  rewrite (mkdir_parents_existing _ _ _ Hx') in H.
  injection H as <- <-. cbn [w_fs].
  split; [eexists; reflexivity|]. intros _.
  split; [reflexivity|]. split; [exact Em | apply (mkdir_Ok _ _ _ Em)].
Qed.

Lemma existing_backup_directory_is_an_error_witness :
  (exists e,
      fst (cmd_make clash_env sample_config (mkBackupLabel "a" "b")
                    level_g false sample_world) = Raise e) /\
  (w_dar (snd (cmd_make clash_env sample_config (mkBackupLabel "a" "b")
                        level_g false sample_world))
   <> w_dar sample_world ->
   fst (cmd_make clash_env sample_config (mkBackupLabel "a" "b")
                 level_g false sample_world) = Raise FileExistsError /\
   mkdir (w_fs sample_world)
         (fs_path (staging_dir clash_env sample_config))
   = Ok (w_fs (snd (cmd_make clash_env sample_config
                             (mkBackupLabel "a" "b") level_g false
                             sample_world))) /\
   lookup (w_fs (snd (cmd_make clash_env sample_config
                               (mkBackupLabel "a" "b") level_g false
                               sample_world)))
          (fs_path (staging_dir clash_env sample_config))
   = Some (Dir [])).
Proof.
  refine (existing_backup_directory_is_an_error
            clash_env sample_config (mkBackupLabel "a" "b") level_g
            sample_world _ _ [mkBackup ts_jan] _ _ eq_refl _).
  - reflexivity.
  - reflexivity.
Defined.

(** ** Accepted labels *)

Lemma split_parts_no_slash (s w : string) :
  In w (split "/" s) -> no_slash w = true.
Proof.
  revert w. induction s as [|c s IH]; intros w H; cbn [split] in H.
  - destruct H as [<- | []]. reflexivity.
  - destruct (Ascii.eqb c "/") eqn:Ec.
    + destruct H as [<- | H]; [reflexivity | apply IH, H].
    + destruct (split "/" s) as [|x xs] eqn:Es.
      * destruct H as [<- | []]. unfold no_slash. cbn. rewrite Ec.
        reflexivity.
      * destruct H as [<- | H].
        -- unfold no_slash. cbn [string_forall]. rewrite Ec. cbn [negb andb].
           apply IH. left. reflexivity.
        -- apply IH. right. exact H.
Qed.

(** A component of PurePath(v) that re.match accepts is a plain name. *)
Lemma accepted_part_is_a_name (v part : string) :
  In part (PurePath_of v) ->
  truthy (re_match_label part) = true ->
  no_slash part = true /\ is_component part = true /\
  exists c s, part = String c s /\ label_char c = true.
Proof.
  intros Hin Hm.
  assert (Hc : exists c s, part = String c s /\ label_char c = true).
  { unfold re_match_label in Hm. destruct part as [|c s]; [discriminate|].
    cbn [take_while] in Hm. destruct (label_char c) eqn:E; [|discriminate].
    exists c, s. split; [reflexivity | exact E]. }
  destruct Hc as (c & s & -> & Hc).
  unfold PurePath_of in Hin. apply in_app_or in Hin as [Hin | Hin].
  - exfalso. destruct (String.eqb (path_root v) ""); [destruct Hin|].
    destruct Hin as [E | []].
    assert (Hr : path_root v = "/" \/ path_root v = "//" \/ path_root v = "").
    { unfold path_root.
      destruct v as [|a v]; [tauto|].
      destruct (Ascii.eqb_spec a "/") as [-> | Ha].
      - destruct v as [|b v]; [tauto|].
        destruct (Ascii.eqb_spec b "/") as [-> | Hb].
        + destruct v as [|d v]; [tauto|].
          destruct (Ascii.eqb_spec d "/") as [-> | Hd]; [tauto|].
          right. left.
          destruct d as [[] [] [] [] [] [] [] []];
            first [reflexivity | contradiction Hd; reflexivity].
        + left.
          destruct b as [[] [] [] [] [] [] [] []];
            first [reflexivity | contradiction Hb; reflexivity].
      - right. right.
        destruct a as [[] [] [] [] [] [] [] []];
          first [reflexivity | contradiction Ha; reflexivity]. }
    rewrite E in Hr.
    destruct Hr as [Hr | [Hr | Hr]]; try discriminate Hr;
      injection Hr as -> _; discriminate Hc.
  - apply filter_In in Hin as [Hin Hcomp].
    split; [apply (split_parts_no_slash v _ Hin)|].
    split; [exact Hcomp|]. exists c, s. split; [reflexivity | exact Hc].
Qed.

(** X10: a label validate_backup_label accepts is a plain two-level
    relative path.  Its two parts are the components of the value given,
    each a non-empty name without "/" that is neither "." nor ".." and
    does not start with "."; backup_label_to_path gives back exactly these
    two parts; and below any root the label denotes root/part1/part2,
    never a place outside root. *)
Theorem accepted_label_stays_below_root
        (required : bool) (v : string) (label : BackupLabel) :
  validate_backup_label required (Some v) = Ok (Some label) ->
  PurePath_of v = [part1 label; part2 label] /\
  backup_label_to_path label = [part1 label; part2 label] /\
  path_str (backup_label_to_path label)
  = (part1 label ++ "/" ++ part2 label)%string /\
  (forall root : PurePath,
      pdiv (pdiv root (part1 label)) (part2 label)
      = root ++ [part1 label; part2 label]) /\
  (forall part, part = part1 label \/ part = part2 label ->
                no_slash part = true /\
                exists c s, part = String c s /\ label_char c = true).
Proof.
  unfold validate_backup_label. intros H.
  destruct (Nat.eqb (List.length (PurePath_of v)) 2); [|discriminate H].
  cbn [negb] in H.
  destruct (forallb (fun part => truthy (re_match_label part))
                    (PurePath_of v)) eqn:F; [|discriminate H].
  cbn [negb] in H.
  destruct (PurePath_of v) as [|a [|b [|c rest]]] eqn:Ev; try discriminate H.
  injection H as <-. cbn [part1 part2].
  cbn [forallb] in F. apply andb_true_iff in F as [Fa F].
  apply andb_true_iff in F as [Fb _].
  destruct (accepted_part_is_a_name v a) as (Na & Ca & Sa);
    [rewrite Ev; left; reflexivity | exact Fa |].
  destruct (accepted_part_is_a_name v b) as (Nb & Cb & Sb);
    [rewrite Ev; right; left; reflexivity | exact Fb |].
  assert (Hdiv : forall (root : PurePath) (x : string),
             no_slash x = true -> is_component x = true ->
             pdiv root x = root ++ [x]).
  { intros root x Nx Cx. unfold pdiv, pjoin.
    rewrite (PurePath_of_component x Nx Cx), (has_root_no_slash x [] Nx).
    reflexivity. }
  assert (Hpath : backup_label_to_path {| part1 := a; part2 := b |} = [a; b]).
  { unfold backup_label_to_path. cbn [part1 part2].
    rewrite (PurePath_of_component a Na Ca), (Hdiv [a] b Nb Cb).
    reflexivity. }
  split; [reflexivity|]. split; [exact Hpath|]. split.
  - rewrite Hpath. unfold path_str. rewrite (has_root_no_slash a [b] Na).
    reflexivity.
  - split.
    + intros root. rewrite (Hdiv root a Na Ca), (Hdiv _ b Nb Cb).
      rewrite <- app_assoc. reflexivity.
    + intros part [-> | ->]; split; assumption.
Qed.

Lemma accepted_label_stays_below_root_witness :
  PurePath_of "a!//b/" = [part1 (mkBackupLabel "a!" "b");
                          part2 (mkBackupLabel "a!" "b")] /\
  backup_label_to_path (mkBackupLabel "a!" "b")
  = [part1 (mkBackupLabel "a!" "b"); part2 (mkBackupLabel "a!" "b")] /\
  path_str (backup_label_to_path (mkBackupLabel "a!" "b"))
  = (part1 (mkBackupLabel "a!" "b") ++ "/"
       ++ part2 (mkBackupLabel "a!" "b"))%string /\
  (forall root : PurePath,
      pdiv (pdiv root (part1 (mkBackupLabel "a!" "b")))
           (part2 (mkBackupLabel "a!" "b"))
      = root ++ [part1 (mkBackupLabel "a!" "b");
                 part2 (mkBackupLabel "a!" "b")]) /\
  (forall part,
      part = part1 (mkBackupLabel "a!" "b") \/
      part = part2 (mkBackupLabel "a!" "b") ->
      no_slash part = true /\
      exists c s, part = String c s /\ label_char c = true).
Proof.
  apply (accepted_label_stays_below_root true "a!//b/").
  reflexivity.
Defined.

(** ** The labels under a root *)

Lemma is_dir_at_iterdir (t : node) (p : list string) :
  is_dir_at t p = true -> exists es,
    lookup t p = Some (Dir es) /\ iterdir t p = Ok (map fst es).
Proof.
  unfold is_dir_at, iterdir.
  destruct (lookup t p) as [[|es]|]; try discriminate.
  intros _. exists es. split; reflexivity.
Qed.

Lemma lookup_entry_names (n : string) (c : node) (es : list (string * node)) :
  lookup_entry n es = Some c -> In n (map fst es).
Proof.
  intros H. apply lookup_entry_In in H.
  apply (in_map fst) in H. exact H.
Qed.

(** The names subdirs yields for a directory. *)
Lemma subdirs_spec (t : node) (p : list string) :
  is_dir_at t p = true ->
  exists names,
    subdirs t p = Ok names /\
    forall n, In n names <->
              is_dir_at t (p ++ [n]) = true /\ hidden n = false.
Proof.
  intros Hd. destruct (is_dir_at_iterdir t p Hd) as (es & Hes & Hit).
  unfold subdirs. rewrite Hit. cbn [bind]. eexists. split; [reflexivity|].
  intros n. rewrite filter_In, andb_true_iff, negb_true_iff. split.
  - intros [_ H]. exact H.
  - intros [H1 H2]. split; [|split; assumption].
    unfold is_dir_at in H1. rewrite lookup_app, Hes in H1. cbn [lookup] in H1.
    destruct (lookup_entry n es) as [c|] eqn:E; [|discriminate].
    apply (lookup_entry_names n c es E).
Qed.

Lemma labels_below_spec (t : node) (root : list string)
      (paths : list string) :
  (forall n, In n paths -> is_dir_at t (root ++ [n]) = true) ->
  exists labels,
    labels_below t root paths = Ok labels /\
    forall a b, In (mkBackupLabel a b) labels <->
                In a paths /\
                is_dir_at t (root ++ [a; b]) = true /\ hidden b = false.
Proof.
  induction paths as [|n paths IH]; intros Hd.
  - exists []. split; [reflexivity|]. intros a b. cbn. tauto.
  - destruct (subdirs_spec t (root ++ [n]) (Hd n (or_introl eq_refl)))
      as (subs & Hs & Hsub).
    destruct IH as (rest & Hr & Hrest).
    { intros m Hm. apply Hd. right. exact Hm. }
    cbn [labels_below]. rewrite Hs, Hr. cbn [bind].
    eexists. split; [reflexivity|]. intros a b.
    rewrite in_app_iff, in_map_iff, Hrest. cbn [In]. split.
    + intros [(x & E & Hx) | (H1 & H2)].
      * injection E as <- <-. apply Hsub in Hx.
        rewrite <- app_assoc in Hx. cbn [app] in Hx. tauto.
      * tauto.
    + intros ([<- | Ha] & H2 & H3).
      * left. exists b. split; [reflexivity|]. apply Hsub.
        rewrite <- app_assoc. cbn [app]. tauto.
      * right. tauto.
Qed.

Lemma is_dir_at_parent (t : node) (p : list string) (n : string) :
  is_dir_at t (p ++ [n]) = true -> is_dir_at t p = true.
Proof.
  unfold is_dir_at. rewrite lookup_app.
  destruct (lookup t p) as [[|es]|]; cbn; try discriminate. reflexivity.
Qed.

(** What get_backup_labels computes, by the kind of its root. *)
Lemma get_backup_labels_spec (t : node) (root : PurePath) :
  match lookup t (fs_path root) with
  | None => get_backup_labels t root = Raise FileNotFoundError
  | Some File => get_backup_labels t root = Raise NotADirectoryError
  | Some (Dir _) =>
      exists labels,
        get_backup_labels t root = Ok labels /\
        forall a b,
          In (mkBackupLabel a b) labels <->
          is_dir_at t (fs_path root ++ [a; b]) = true /\
          hidden a = false /\ hidden b = false
  end.
Proof.
  unfold get_backup_labels.
  destruct (lookup t (fs_path root)) as [[|es]|] eqn:E.
  - unfold subdirs, iterdir. rewrite E. reflexivity.
  - assert (Hd : is_dir_at t (fs_path root) = true)
      by (unfold is_dir_at; rewrite E; reflexivity).
    destruct (subdirs_spec t (fs_path root) Hd) as (paths & Hp & Hpaths).
    destruct (labels_below_spec t (fs_path root) paths)
      as (labels & Hl & Hlabels).
    { intros n Hn. apply Hpaths in Hn. tauto. }
    rewrite Hp. cbn [bind]. exists labels. split; [exact Hl|].
    intros a b. rewrite Hlabels, Hpaths. split; [tauto|].
    intros (H1 & H2 & H3). repeat split; try assumption.
    apply (is_dir_at_parent t (fs_path root ++ [a]) b).
    rewrite <- app_assoc. exact H1.
  - unfold subdirs, iterdir. rewrite E. reflexivity.
Qed.


(** X11: get_backup_labels fails only on the root: FileNotFoundError when
    it is missing, NotADirectoryError when it is a file.  Otherwise it
    yields the label (a, b) exactly when root/a/b is a directory and
    neither a nor b starts with a dot; hidden directories such as the
    work directory .workdir, and plain files, give no label. *)
Theorem get_backup_labels_lists_the_visible_directories
        (t : node) (root : PurePath) :
  match lookup t (fs_path root) with
  | None => get_backup_labels t root = Raise FileNotFoundError
  | Some File => get_backup_labels t root = Raise NotADirectoryError
  | Some (Dir _) =>
      exists labels,
        get_backup_labels t root = Ok labels /\
        forall a b,
          In (mkBackupLabel a b) labels <->
          is_dir_at t (fs_path root ++ [a; b]) = true /\
          hidden a = false /\ hidden b = false
  end.
Proof. apply get_backup_labels_spec. Qed.

Lemma label_char_not_hidden (c : ascii) (s : string) :
  label_char c = true -> hidden (String c s) = false.
Proof.
  intros H. unfold hidden. cbn [String.prefix].
  destruct (ascii_dec "." c) as [<- | Hne]; [discriminate H | reflexivity].
Qed.

(** X12: validate_backup_label and get_backup_labels agree: a label the
    validator accepts and whose directory root/part1/part2 exists is among
    the labels get_backup_labels yields for that root. *)
Theorem accepted_label_with_a_directory_is_listed
        (t : node) (root : PurePath) (required : bool) (v : string)
        (label : BackupLabel) (labels : list BackupLabel) :
  validate_backup_label required (Some v) = Ok (Some label) ->
  is_dir_at t (fs_path root ++ [part1 label; part2 label]) = true ->
  get_backup_labels t root = Ok labels ->
  In label labels.
Proof.
  intros Hv Hd Hl.
  pose proof (get_backup_labels_spec t root) as Hspec.
  destruct (lookup t (fs_path root)) as [[|es]|] eqn:E;
    try (rewrite Hspec in Hl; discriminate Hl).
  destruct Hspec as (labels' & Hl' & Hlabels).
  rewrite Hl' in Hl. injection Hl as ->.
  unfold validate_backup_label in Hv.
  destruct (Nat.eqb (List.length (PurePath_of v)) 2); [|discriminate Hv].
  cbn [negb] in Hv.
  destruct (forallb (fun part => truthy (re_match_label part))
                    (PurePath_of v)) eqn:F; [|discriminate Hv].
  cbn [negb] in Hv.
  destruct (PurePath_of v) as [|a [|b [|c rest]]] eqn:Ev; try discriminate Hv.
  injection Hv as <-. cbn [part1 part2] in Hd.
  cbn [forallb] in F. apply andb_true_iff in F as [Fa F].
  apply andb_true_iff in F as [Fb _].
  destruct (accepted_part_is_a_name v a) as (_ & _ & ca & sa & -> & Ha);
    [rewrite Ev; left; reflexivity | exact Fa |].
  destruct (accepted_part_is_a_name v b) as (_ & _ & cb & sb & -> & Hb);
    [rewrite Ev; right; left; reflexivity | exact Fb |].
  apply Hlabels. split; [exact Hd|].
  split; apply label_char_not_hidden; assumption.
Qed.

Lemma accepted_label_with_a_directory_is_listed_witness :
  In (mkBackupLabel "a" "b") [mkBackupLabel "a" "b"].
Proof.
  apply (accepted_label_with_a_directory_is_listed
           sample_fs ["/"; "backup"] true "a/b"
           (mkBackupLabel "a" "b") [mkBackupLabel "a" "b"]);
    reflexivity.
Defined.

(** ** The path of a chain determines the chain *)

Lemma strftime_injective (t1 t2 : datetime) :
  valid_datetime t1 = true -> microsecond t1 = 0 ->
  valid_datetime t2 = true -> microsecond t2 = 0 ->
  strftime t1 ts_format = strftime t2 ts_format -> t1 = t2.
Proof.
  intros V1 U1 V2 U2 E.
  pose proof (strptime_strftime t1 V1 U1) as P1.
  pose proof (strptime_strftime t2 V2 U2) as P2.
  rewrite E in P1. congruence.
Qed.

Lemma map_strftime_injective (c1 c2 : list Backup) :
  codec_chain c1 = true -> codec_chain c2 = true ->
  map (fun b => strftime (timestamp b) ts_format) c1
  = map (fun b => strftime (timestamp b) ts_format) c2 ->
  c1 = c2.
Proof.
  revert c2. induction c1 as [|[t1] c1 IH]; intros [|[t2] c2] H1 H2 E;
    try discriminate E; [reflexivity|].
  cbn [codec_chain forallb timestamp] in H1, H2.
  apply andb_true_iff in H1 as [Ht1 H1].
  apply andb_true_iff in H2 as [Ht2 H2].
  apply andb_true_iff in Ht1 as [Ht1 _].
  apply andb_true_iff in Ht2 as [Ht2 _].
  apply andb_true_iff in Ht1 as [V1 U1].
  apply andb_true_iff in Ht2 as [V2 U2].
  apply Z.eqb_eq in U1, U2.
  cbn [map timestamp] in E.
  assert (Et := f_equal (hd EmptyString) E).
  assert (El := f_equal (@tl string) E).
  cbn [hd tl] in Et, El. clear E.
  rewrite (strftime_injective t1 t2 V1 U1 V2 U2 Et).
  f_equal. apply (IH c2 H1 H2 El).
Qed.

(** X13: backup_to_path is injective on chains of valid whole-second
    timestamps, and the path has one component per backup of the chain:
    two different chains never share a directory, and the nesting depth of
    a backup directory is the length of its chain. *)
Theorem backup_to_path_is_injective (c1 c2 : list Backup) :
  codec_chain c1 = true -> codec_chain c2 = true ->
  (backup_to_path c1 = backup_to_path c2 -> c1 = c2) /\
  List.length (backup_to_path c1) = List.length c1.
Proof.
  intros H1 H2. split.
  - rewrite !backup_to_path_parts, !map_rev. intros E.
    apply (f_equal (@rev string)) in E. rewrite !rev_involutive in E.
    apply (map_strftime_injective c1 c2 H1 H2 E).
  - rewrite backup_to_path_parts, length_map, length_rev. reflexivity.
Qed.

Lemma backup_to_path_is_injective_witness :
  (backup_to_path [mkBackup ts_mar; mkBackup ts_jan]
   = backup_to_path [mkBackup ts_mar; mkBackup ts_jan] ->
   [mkBackup ts_mar; mkBackup ts_jan] = [mkBackup ts_mar; mkBackup ts_jan]) /\
  List.length (backup_to_path [mkBackup ts_mar; mkBackup ts_jan])
  = List.length [mkBackup ts_mar; mkBackup ts_jan].
Proof.
  apply (backup_to_path_is_injective
           [mkBackup ts_mar; mkBackup ts_jan]
           [mkBackup ts_mar; mkBackup ts_jan]); reflexivity.
Defined.

(** ** main: the work directory *)

Lemma is_prefix_skipn (p q : list string) :
  is_prefix p q = true -> q = p ++ skipn (List.length p) q.
Proof.
  revert q. induction p as [|a p IH]; intros q H; [reflexivity|].
  destruct q as [|b q]; [discriminate|]. cbn [is_prefix] in H.
  apply andb_true_iff in H as [Hab H]. apply String.eqb_eq in Hab.
  subst b. cbn [List.length skipn app]. f_equal. apply IH, H.
Qed.

Lemma is_prefix_app_self (p q : list string) : is_prefix p (p ++ q) = true.
Proof.
  induction p as [|a p IH]; [reflexivity|].
  cbn [app is_prefix]. rewrite String.eqb_refl. exact IH.
Qed.

Lemma skipn_app_self (p q : list string) : skipn (List.length p) (p ++ q) = q.
Proof. induction p as [|a p IH]; [reflexivity | exact IH]. Qed.

Lemma In_skipn_tl (n : nat) (l : list string) (x : string) :
  In x (skipn (S n) l) -> In x (tl l).
Proof.
  destruct l as [|a l]; [intros []|]. cbn [skipn tl].
  revert l. induction n as [|n IH]; intros l H; [exact H|].
  destruct l as [|b l]; [destruct H|]. right. apply IH, H.
Qed.

Lemma path_root_cases (s : string) :
  path_root s = "" \/ path_root s = "/" \/ path_root s = "//".
Proof.
  unfold path_root.
  repeat match goal with
         | |- context [match ?x with EmptyString => _ | String _ _ => _ end] =>
             destruct x
         | |- context [match ?a with Ascii _ _ _ _ _ _ _ _ => _ end] =>
             destruct a as [[] [] [] [] [] [] [] []]
         end; auto.
Qed.

(** The components of PurePath(s) below its root hold no slash. *)
Lemma PurePath_of_components (s x : string) :
  In x (PurePath_of s) ->
  (has_root (PurePath_of s) = false \/ In x (tl (PurePath_of s))) ->
  no_slash x = true.
Proof.
  unfold PurePath_of.
  destruct (path_root_cases s) as [E | [E | E]]; rewrite E;
    cbn [String.eqb Ascii.eqb Bool.eqb app has_root tl].
  - intros H _. apply filter_In in H as [H _].
    apply (split_parts_no_slash s x H).
  - intros _ [H | H]; [discriminate|].
    apply filter_In in H as [H _]. apply (split_parts_no_slash s x H).
  - intros _ [H | H]; [discriminate|].
    apply filter_In in H as [H _]. apply (split_parts_no_slash s x H).
Qed.

Lemma no_slash_append_slash (x z : string) :
  no_slash (String.append x (String "/" z)) = false.
Proof.
  unfold no_slash. induction x as [|c x IH]; [reflexivity|].
  cbn [String.append string_forall]. rewrite IH. apply andb_false_r.
Qed.

(** A path of slash-free components that prints as a slash-free name is
    that one name. *)
Lemma path_str_single (rel : PurePath) (name : string) :
  (forall x, In x rel -> no_slash x = true) ->
  no_slash name = true -> name <> "." ->
  path_str rel = name -> rel = [name].
Proof.
  intros Hrel Hname Hdot E.
  destruct rel as [|x [|y l]].
  - cbn in E. congruence.
  - rewrite (path_str_component x (Hrel x (or_introl eq_refl))) in E.
    congruence.
  - exfalso. unfold path_str in E.
    rewrite (has_root_no_slash x (y :: l) (Hrel x (or_introl eq_refl))) in E.
    change (concat "/" (x :: y :: l))
      with (String.append x (String "/" (concat "/" (y :: l)))) in E.
    rewrite <- E in Hname.
    rewrite no_slash_append_slash in Hname. discriminate.
Qed.

Lemma has_root_app_relative (p q : PurePath) :
  has_root q = false -> has_root (p ++ q) = has_root p.
Proof. intros H. destruct p as [|a p]; [exact H | reflexivity]. Qed.

(** X14: main never hands the commands a work directory other than
    root/.workdir, where root is PurePath(--root), or PurePath('/backup')
    when --root is missing or empty. Without --workdir it always succeeds;
    with one, any other value ends in ValueError (relative_to) or
    AssertionError. *)
Theorem main_work_directory_is_below_root
        (r w : option string) (d : bool) :
  match main r w d with
  | Ok cfg =>
      root cfg
      = PurePath_of (match nonempty r with Some s => s | None => DESTDIR end)
      /\ workdir cfg = root cfg ++ [".workdir"]
      /\ debug cfg = d
      /\ config_dir cfg = PurePath_of ETC
  | Raise e =>
      nonempty w <> None /\ (e = ValueError \/ e = AssertionError)
  end.
Proof.
  unfold main.
  set (rt := PurePath_of
               (match nonempty r with Some s => s | None => DESTDIR end)).
  destruct (nonempty w) as [s|] eqn:Ew.
  - unfold relative_to.
    destruct (Bool.eqb (has_root (PurePath_of s)) (has_root rt)
              && is_prefix rt (PurePath_of s)) eqn:Erel; cbn [bind].
    + apply andb_true_iff in Erel as [Hroot Hpre].
      apply Bool.eqb_prop in Hroot.
      destruct (String.eqb (path_str (skipn (List.length rt) (PurePath_of s)))
                           ".workdir") eqn:Estr.
      * cbn [make_Config root workdir debug config_dir].
        repeat split.
        apply String.eqb_eq in Estr.
        rewrite (is_prefix_skipn rt (PurePath_of s) Hpre) at 1. f_equal.
        apply path_str_single; [|reflexivity|discriminate|exact Estr].
        intros x Hx.
        assert (Hin : In x (PurePath_of s)).
        { rewrite (is_prefix_skipn rt (PurePath_of s) Hpre).
          apply in_or_app. right. exact Hx. }
        apply (PurePath_of_components s x Hin).
        destruct rt as [|a rt'] eqn:Ert.
        -- left. rewrite Hroot. reflexivity.
        -- right. cbn [List.length] in Hx. apply (In_skipn_tl _ _ _ Hx).
      * split; [discriminate | right; reflexivity].
    + split; [discriminate | left; reflexivity].
  - change (pdiv rt ".workdir") with (pjoin rt [".workdir"]).
    unfold pjoin. cbn [has_root].
    unfold relative_to.
    rewrite (has_root_app_relative rt [".workdir"] eq_refl).
    rewrite Bool.eqb_reflx, is_prefix_app_self. cbn [andb bind].
    rewrite skipn_app_self.
    cbn [make_Config root workdir debug config_dir]. repeat split.
Qed.

(** ** dir_size *)

Lemma fold_left_Zadd (l : list Z) (a : Z) :
  fold_left Z.add l a = a + fold_left Z.add l 0.
Proof.
  revert a. induction l as [|x l IH]; intros a; cbn [fold_left]; [lia|].
  rewrite (IH (a + x)), (IH (0 + x)). lia.
Qed.

Lemma fold_left_Zadd_perm (l1 l2 : list Z) :
  Permutation l1 l2 -> fold_left Z.add l1 0 = fold_left Z.add l2 0.
Proof.
  induction 1 as [|x l1 l2 _ IH|x y l|l1 l2 l3 _ IH1 _ IH2];
    cbn [fold_left].
  - reflexivity.
  - rewrite (fold_left_Zadd l1 (0 + x)), (fold_left_Zadd l2 (0 + x)). lia.
  - rewrite (fold_left_Zadd l (0 + y + x)), (fold_left_Zadd l (0 + x + y)).
    lia.
  - congruence.
Qed.

Lemma names_distinct_NoDup (l : list string) :
  names_distinct l = true -> NoDup l.
Proof.
  induction l as [|n l IH]; cbn [names_distinct]; intros H; constructor.
  - apply andb_true_iff in H as [H _]. apply negb_true_iff in H.
    intros Hin. assert (E : existsb (String.eqb n) l = true).
    { apply existsb_exists. exists n. split; [exact Hin|].
      apply String.eqb_refl. }
    congruence.
  - apply andb_true_iff in H as [_ H]. apply IH, H.
Qed.

Lemma lookup_entry_present (n : string) (es : list (string * node)) :
  In n (map fst es) <-> lookup_entry n es <> None.
Proof.
  induction es as [|[m x] es IH]; cbn [map fst In lookup_entry].
  - split; [intros [] | intros H; apply H; reflexivity].
  - destruct (String.eqb_spec m n) as [-> | Hne].
    + split; [discriminate | intros _; left; reflexivity].
    + rewrite <- IH. split; [intros [E | H]; [contradiction | exact H]|].
      intros H. right. exact H.
Qed.

Lemma lookup_single (es : list (string * node)) (n : string) :
  lookup (Dir es) [n] = lookup_entry n es.
Proof.
  cbn [lookup]. destruct (lookup_entry n es); reflexivity.
Qed.

(** X15: dir_size looks one level deep and at nothing else: two
    directories whose direct entries have the same names and kinds have
    the same size, in whatever order the entries are listed and whatever
    their subdirectories hold. *)
Theorem dir_size_depends_on_the_direct_entries
        (st_size : list string -> Z) (t1 t2 d1 d2 : node)
        (p : list string) :
  lookup t1 p = Some d1 -> lookup t2 p = Some d2 ->
  is_dir d1 = true -> is_dir d2 = true ->
  well_formed d1 = true -> well_formed d2 = true ->
  (forall name, kind_of (lookup d1 [name]) = kind_of (lookup d2 [name])) ->
  exists n,
    dir_size st_size t1 p = Ok n /\ dir_size st_size t2 p = Ok n.
Proof.
  intros L1 L2 D1 D2 W1 W2 K.
  destruct d1 as [|es1]; [discriminate|].
  destruct d2 as [|es2]; [discriminate|].
  unfold dir_size, iterdir. rewrite L1, L2. cbn [bind].
  eexists. split; [reflexivity|]. f_equal.
  assert (Hf : forall child,
             fsize st_size t2 (p ++ [child])
             = fsize st_size t1 (p ++ [child])).
  { intros child. unfold fsize, is_file_at.
    rewrite !lookup_app, L1, L2. specialize (K child).
    destruct (lookup (Dir es1) [child]) as [[|?]|],
             (lookup (Dir es2) [child]) as [[|?]|];
      cbn in K; try discriminate K; reflexivity. }
  rewrite (map_ext _ _ Hf).
  apply fold_left_Zadd_perm, Permutation_map, NoDup_Permutation.
  - cbn [well_formed] in W2. apply andb_true_iff in W2 as [W2 _].
    apply names_distinct_NoDup, W2.
  - cbn [well_formed] in W1. apply andb_true_iff in W1 as [W1 _].
    apply names_distinct_NoDup, W1.
  - intros n. rewrite !lookup_entry_present, <- !lookup_single.
    specialize (K n).
    destruct (lookup (Dir es1) [n]) as [[|?]|],
             (lookup (Dir es2) [n]) as [[|?]|];
      cbn in K; try discriminate K;
      split; intros H; try discriminate; exact H.
Qed.

Lemma dir_size_depends_on_the_direct_entries_witness :
  exists n,
    dir_size (fun p => Z.of_nat (List.length p) + 5) size_fs_a ["d"] = Ok n /\
    dir_size (fun p => Z.of_nat (List.length p) + 5) size_fs_b ["d"] = Ok n.
Proof.
  apply (dir_size_depends_on_the_direct_entries
           (fun p => Z.of_nat (List.length p) + 5) size_fs_a size_fs_b
           (Dir [("x", File); ("sub", Dir [("deep", File)]); ("y", File)])
           (Dir [("y", File); ("sub", Dir []); ("x", File)])
           ["d"]);
    try reflexivity.
  intros name. cbn [lookup lookup_entry].
  destruct (String.eqb_spec "x" name) as [<- | Hx]; [reflexivity|].
  destruct (String.eqb_spec "sub" name) as [<- | Hs]; [reflexivity|].
  destruct (String.eqb_spec "y" name) as [<- | Hy]; reflexivity.
Defined.

(** ** human_size *)

Lemma round_half_even_nearest (n d : Z) :
  0 < d -> 2 * Z.abs (n - round_half_even n d * d) <= d.
Proof.
  intros Hd. unfold round_half_even.
  pose proof (Z.div_mod n d ltac:(lia)) as E.
  pose proof (Z.mod_pos_bound n d Hd) as B.
  set (q := n / d) in *. set (r := n mod d) in *.
  destruct (2 * r <? d) eqn:E1; [apply Z.ltb_lt in E1; nia|].
  apply Z.ltb_ge in E1.
  destruct (d <? 2 * r) eqn:E2; [apply Z.ltb_lt in E2; nia|].
  apply Z.ltb_ge in E2.
  destruct (Z.even q); nia.
Qed.

Lemma round_half_even_between (n d a b : Z) :
  0 < d -> a * d <= n <= b * d -> a <= round_half_even n d <= b.
Proof.
  intros Hd H. pose proof (round_half_even_nearest n d Hd) as N.
  set (r := round_half_even n d) in *. nia.
Qed.

Lemma float_of_int_exact (num : Z) :
  0 < num < 2 ^ 53 -> float_of_int num = Some num.
Proof.
  intros H. unfold float_of_int.
  assert (L : Z.log2 num < 53) by (apply Z.log2_lt_pow2; lia).
  destruct (Z.log2 num + 1 <=? 53) eqn:E; [reflexivity|].
  apply Z.leb_gt in E. lia.
Qed.

(** X16: for a size from 1024 up to 1024^5 - 1, human_size picks the unit
    K, M, G or T by the power of 1024 the size reaches, and prints the
    number of tenths of that unit nearest to the size; the number printed
    lies between 1.0 and 1024.0, both included. *)
Theorem human_size_prints_the_nearest_tenth (num k : Z) :
  1 <= k <= 4 -> 1024 ^ k <= num < 1024 ^ (k + 1) ->
  exists tenths,
    human_size num
    = Some (String.append (str_Z (tenths / 10))
              (String.append "."
                 (String.append (str_Z (tenths mod 10))
                    (nth (Z.to_nat (k - 1)) units ""))))
    /\ 10 <= tenths <= 10240
    /\ 2 * Z.abs (10 * num - tenths * 1024 ^ k) <= 1024 ^ k.
Proof.
  intros Hk Hnum.
  exists (round_half_even (10 * num) (1024 ^ k)).
  assert (Hd : 0 < 1024 ^ k) by (apply Z.pow_pos_nonneg; lia).
  assert (Hs : 1024 ^ (k + 1) = 1024 * 1024 ^ k)
    by (rewrite Z.pow_add_r by lia; change (1024 ^ 1) with 1024; lia).
  split; [|split].
  - unfold human_size.
    assert (k = 1 \/ k = 2 \/ k = 3 \/ k = 4) as [-> | [-> | [-> | ->]]]
        by lia;
      (change (1024 ^ 1) with 1024 in *;
       change (1024 ^ 2) with 1048576 in *;
       change (1024 ^ 3) with 1073741824 in *;
       change (1024 ^ 4) with 1099511627776 in *;
       change (1024 ^ (1 + 1)) with 1048576 in *;
       change (1024 ^ (2 + 1)) with 1073741824 in *;
       change (1024 ^ (3 + 1)) with 1099511627776 in *;
       change (1024 ^ (4 + 1)) with 1125899906842624 in *;
       replace (num <? 1024) with false by (symmetry; apply Z.ltb_ge; lia);
       rewrite float_of_int_exact
         by (change (2 ^ 53) with 9007199254740992; lia);
       unfold units; cbn [human_size_loop];
       change (1024 * 1) with 1024;
       change (1024 * 1024) with 1048576;
       change (1024 * 1048576) with 1073741824;
       change (1024 * 1073741824) with 1099511627776;
       change (1024 * 1099511627776) with 1125899906842624;
       repeat match goal with
              | |- context [num <? ?c] =>
                  first [ replace (num <? c) with false
                            by (symmetry; apply Z.ltb_ge; lia)
                        | replace (num <? c) with true
                            by (symmetry; apply Z.ltb_lt; lia) ]
              end;
       reflexivity).
  - apply round_half_even_between; [exact Hd | lia].
  - apply round_half_even_nearest, Hd.
Qed.

Lemma human_size_prints_the_nearest_tenth_witness :
  exists tenths,
    human_size 1048575
    = Some (String.append (str_Z (tenths / 10))
              (String.append "."
                 (String.append (str_Z (tenths mod 10))
                    (nth (Z.to_nat (1 - 1)) units ""))))
    /\ 10 <= tenths <= 10240
    /\ 2 * Z.abs (10 * 1048575 - tenths * 1024 ^ 1) <= 1024 ^ 1.
Proof.
  apply (human_size_prints_the_nearest_tenth 1048575 1); lia.
Defined.

(** ** cmd_list *)

Lemma path_is_dir_dir_size (st_size : list string -> Z) (t : node)
      (p : PurePath) :
  path_is_dir t p = true -> exists n, dir_size st_size t (fs_path p) = Ok n.
Proof.
  unfold path_is_dir, dir_size, iterdir.
  destruct (lookup t (fs_path p)) as [[|es]|]; try discriminate.
  intros _. eexists. reflexivity.
Qed.

Lemma print_backups_lines (st_size : list string -> Z) (t : node)
      (full_path : PurePath) (backups : list (list Backup)) :
  (forall c, In c backups ->
             path_is_dir t (pdiv (pjoin full_path (backup_to_path c))
                                 data_dir_name) = true) ->
  snd (print_backups st_size t full_path backups) = Some OverflowError \/
  (snd (print_backups st_size t full_path backups) = None /\
   Forall2 (fun line c =>
              exists size,
                line = (" - " ++ path_str (backup_to_path c)
                         ++ " (" ++ size ++ ")")%string)
           (fst (print_backups st_size t full_path backups)) backups).
Proof.
  induction backups as [|c backups IH]; intros H.
  - right. split; [reflexivity | constructor].
  - cbn [print_backups]. unfold backup_line.
    destruct (path_is_dir_dir_size st_size t _ (H c (or_introl eq_refl)))
      as (n & ->).
    destruct (human_size n) as [size|]; [|left; reflexivity].
    destruct (IH (fun c' Hc' => H c' (or_intror Hc'))) as [E | [E F]];
      destruct (print_backups st_size t full_path backups) as [lines r];
      cbn [fst snd] in *.
    + left. exact E.
    + right. split; [exact E|]. constructor; [|exact F].
      exists size. reflexivity.
Qed.

(** X17: cmd_list --label finds the directory of every backup it lists,
    in a tree of plain files and directories where the label directory
    lists each name once and every backup directory below it has a year
    from 1000 on (the years strftime writes with four digits).  When the
    scan of the label succeeds there, the run prints the three header
    lines, the label, and one line per chain of list_backups in the
    reverse of its order, the oldest first; dir_size finds each _data
    directory.  The run then ends without exception, unless human_size
    meets a size of 2^1024 bytes or more (OverflowError). *)
Theorem cmd_list_prints_every_scanned_backup
        (st_size : list string -> Z) (t : node) (config : Config)
        (label : BackupLabel) (dir : node) (l : list (list Backup)) :
  let full_path := pjoin (root config) (backup_label_to_path label) in
  lookup t (fs_path full_path) = Some dir ->
  well_formed dir = true ->
  (forall p name, is_backup_path dir p = true -> In name p ->
                  1000 <= year (parse_name name)) ->
  list_backups t full_path = Ok l ->
  snd (cmd_list st_size t config false (Some label)) = Some OverflowError \/
  (snd (cmd_list st_size t config false (Some label)) = None /\
   exists lines,
     fst (cmd_list st_size t config false (Some label))
     = list_header config
         ++ (path_str (backup_label_to_path label) ++ ":")%string :: lines
     /\ Forall2 (fun line c =>
                   exists size,
                     line = (" - " ++ path_str (backup_to_path c)
                              ++ " (" ++ size ++ ")")%string)
                lines (rev l)).
Proof.
  intros full_path Hdir Hwf _ Hl.
  assert (H : forall c, In c (rev l) ->
                path_is_dir t (pdiv (pjoin full_path (backup_to_path c))
                                    data_dir_name) = true).
  { intros c Hc. apply in_rev in Hc.
    apply (scanned_chain_directory t full_path dir l Hdir Hwf Hl c Hc). }
  unfold cmd_list. cbn [print_labels]. unfold print_label.
  fold full_path. rewrite Hl.
  destruct (print_backups_lines st_size t full_path (rev l) H) as [E | [E F]];
    destruct (print_backups st_size t full_path (rev l)) as [lines r];
    cbn [fst snd] in *; subst r.
  - left. reflexivity.
  - right. split; [reflexivity|]. exists lines.
    rewrite app_nil_r. split; [reflexivity | exact F].
Qed.

Lemma cmd_list_prints_every_scanned_backup_witness :
  snd (cmd_list (fun _ => 7) sample_fs sample_config false
                (Some (mkBackupLabel "a" "b"))) = Some OverflowError \/
  (snd (cmd_list (fun _ => 7) sample_fs sample_config false
                 (Some (mkBackupLabel "a" "b"))) = None /\
   exists lines,
     fst (cmd_list (fun _ => 7) sample_fs sample_config false
                   (Some (mkBackupLabel "a" "b")))
     = list_header sample_config
         ++ (path_str (backup_label_to_path (mkBackupLabel "a" "b"))
              ++ ":")%string :: lines
     /\ Forall2 (fun line c =>
                   exists size,
                     line = (" - " ++ path_str (backup_to_path c)
                              ++ " (" ++ size ++ ")")%string)
                lines
                (rev [[mkBackup ts_mar; mkBackup ts_jan]; [mkBackup ts_feb];
                      [mkBackup ts_jan]])).
Proof.
  refine (cmd_list_prints_every_scanned_backup
            (fun _ => 7) sample_fs sample_config (mkBackupLabel "a" "b")
            sample_label_dir
            [[mkBackup ts_mar; mkBackup ts_jan]; [mkBackup ts_feb];
             [mkBackup ts_jan]]
            eq_refl eq_refl _ eq_refl).
  intros p name Hp Hin.
  apply (In_backup_paths sample_label_dir eq_refl) in Hp.
  cbn in Hp.
  repeat (destruct Hp as [<- | Hp];
          [cbn in Hin;
           repeat (destruct Hin as [<- | Hin]; [vm_compute; discriminate|]);
           destruct Hin|]).
  destruct Hp.
Defined.

Lemma print_label_exceptions (st_size : list string -> Z) (t : node)
      (config : Config) (label : BackupLabel) :
  well_formed t = true ->
  snd (print_label st_size t config label) = None \/
  snd (print_label st_size t config label) = Some OverflowError \/
  snd (print_label st_size t config label) = Some (Exn ValueError).
Proof.
  intros Hwf. unfold print_label.
  set (full_path := pjoin (root config) (backup_label_to_path label)).
  destruct (list_backups t full_path) as [l|e] eqn:Hl.
  - assert (H : forall c, In c (rev l) ->
                  path_is_dir t (pdiv (pjoin full_path (backup_to_path c))
                                      data_dir_name) = true).
    { intros c Hc. apply in_rev in Hc.
      destruct (lookup t (fs_path full_path)) as [dir|] eqn:Hdir.
      - apply (scanned_chain_directory t full_path dir l Hdir
                 (lookup_well_formed t dir _ Hwf Hdir) Hl c Hc).
      - rewrite list_backups_spec, Hdir in Hl. injection Hl as <-.
        destruct Hc. }
    destruct (print_backups_lines st_size t full_path (rev l) H)
      as [E | [E _]];
      destruct (print_backups st_size t full_path (rev l)) as [lines r];
      cbn [fst snd] in *; subst r; auto.
  - right. right. cbn [snd]. rewrite list_backups_spec in Hl.
    destruct (lookup t (fs_path full_path)) as [dir|]; [|discriminate].
    destruct (paths_parse (backup_paths dir)); [discriminate|].
    injection Hl as <-. reflexivity.
Qed.

Lemma print_labels_exceptions (st_size : list string -> Z) (t : node)
      (config : Config) (labels : list BackupLabel) :
  well_formed t = true ->
  snd (print_labels st_size t config labels) = None \/
  snd (print_labels st_size t config labels) = Some OverflowError \/
  snd (print_labels st_size t config labels) = Some (Exn ValueError).
Proof.
  intros Hwf. induction labels as [|label labels IH]; [left; reflexivity|].
  cbn [print_labels].
  pose proof (print_label_exceptions st_size t config label Hwf) as H.
  destruct (print_label st_size t config label) as [lines [e|]];
    cbn [snd] in H |- *.
  - destruct H as [H | H]; [discriminate | right; exact H].
  - destruct (print_labels st_size t config labels) as [lines' r].
    exact IH.
Qed.

(** The ways a run of cmd_list over a tree can end. *)
Lemma cmd_list_outcomes
      (st_size : list string -> Z) (t : node) (config : Config)
      (tree : bool) (label : option BackupLabel) (e : listing_exn) :
  well_formed t = true ->
  snd (cmd_list st_size t config tree label) = Some e ->
  e = Exn ValueError \/ e = OverflowError \/
  (label = None /\ tree = false /\ path_is_dir t (root config) = false /\
   (e = Exn FileNotFoundError \/ e = Exn NotADirectoryError)).
Proof.
  intros Hwf He. unfold cmd_list in He.
  destruct tree; [discriminate He|].
  assert (Hp : forall labels,
             snd (let (lines, r) := print_labels st_size t config labels in
                  (list_header config ++ lines, r)) = Some e ->
             e = Exn ValueError \/ e = OverflowError).
  { intros labels H.
    pose proof (print_labels_exceptions st_size t config labels Hwf) as P.
    destruct (print_labels st_size t config labels) as [lines r].
    cbn [snd] in *. destruct P as [P | [P | P]]; rewrite P in H.
    - discriminate.
    - injection H as <-. right. reflexivity.
    - injection H as <-. left. reflexivity. }
  destruct label as [label|].
  - destruct (Hp [label] He) as [H | H]; auto.
  - pose proof (get_backup_labels_spec t (root config)) as G.
    unfold path_is_dir.
    destruct (lookup t (fs_path (root config))) as [[|es]|].
    + rewrite G in He. injection He as <-. right. right. auto.
    + destruct G as (labels & G & _). rewrite G in He.
      destruct (Hp labels He) as [H | H]; auto.
    + rewrite G in He. injection He as <-. right. right. auto.
Qed.

(** X18: cmd_list does not lose a directory it has found.  In a tree of
    plain files and directories that lists each name once and whose
    backup directories have years from 1000 on, a run of cmd_list ends
    with FileNotFoundError or NotADirectoryError only when no label is
    given and the root itself is not a directory: the label directories
    get_backup_labels yields, the paths backup_to_path rebuilds from the
    scanned chains and their _data directories are all found again,
    whatever labels and backups there are. *)
Theorem cmd_list_finds_what_it_lists
        (st_size : list string -> Z) (t : node) (config : Config)
        (tree : bool) (label : option BackupLabel) (e : exn) :
  well_formed t = true ->
  years_from_1000 t = true ->
  snd (cmd_list st_size t config tree label) = Some (Exn e) ->
  e = FileNotFoundError \/ e = NotADirectoryError ->
  label = None /\ tree = false /\ path_is_dir t (root config) = false.
Proof.
  intros Hwf _ He Hkind.
  destruct (cmd_list_outcomes st_size t config tree label (Exn e) Hwf He)
    as [H | [H | (Hl & Ht & Hr & _)]].
  - injection H as ->. destruct Hkind; discriminate.
  - discriminate H.
  - auto.
Qed.

Lemma cmd_list_finds_what_it_lists_witness :
  @None BackupLabel = None /\ false = false /\
  path_is_dir sample_fs
              (root (make_Config ["/"; "srv"] ["/"; "srv"; ".workdir"] false))
  = false.
Proof.
  apply (cmd_list_finds_what_it_lists
           (fun _ => 7) sample_fs
           (make_Config ["/"; "srv"] ["/"; "srv"; ".workdir"] false)
           false None FileNotFoundError);
    first [reflexivity | left; reflexivity].
Defined.

(** ** A new backup and the next scan *)

(** What exists keeps its kind when a directory is made. *)
Lemma mkdir_kind (t t' : node) (q : list string) :
  mkdir t q = Ok t' ->
  forall p y, lookup t p = Some y ->
              kind_of (lookup t' p) = kind_of (Some y).
Proof.
  revert t t'. induction q as [|n q IH]; intros t t' H p y Hp;
    [discriminate|].
  cbn [mkdir] in H. destruct t as [|es]; [discriminate|].
  destruct p as [|a p].
  - injection Hp as <-.
    destruct (lookup_entry n es) as [c|].
    + destruct (mkdir c q); [|discriminate]. injection H as <-. reflexivity.
    + destruct q; [|discriminate]. injection H as <-. reflexivity.
  - cbn [lookup] in Hp. destruct (lookup_entry n es) as [c|] eqn:E.
    + destruct (mkdir c q) as [c'|] eqn:Ec; [|discriminate].
      cbn [bind] in H. injection H as <-. cbn [lookup].
      destruct (String.eqb_spec a n) as [-> | Hne].
      * rewrite E in Hp. rewrite (lookup_entry_update_same n c' c es E).
        apply (IH c c' Ec p y Hp).
      * rewrite (lookup_entry_update_other a n c' es Hne).
        destruct (lookup_entry a es); [rewrite Hp; reflexivity | discriminate].
    + destruct q; [|discriminate]. injection H as <-. cbn [lookup].
      destruct (String.eqb_spec a n) as [-> | Hne];
        [rewrite E in Hp; discriminate|].
      rewrite (lookup_entry_app_other a n _ es Hne).
      destruct (lookup_entry a es); [rewrite Hp; reflexivity | discriminate].
Qed.

Lemma mkdir_parents_kind (t t' : node) (q : list string) :
  mkdir_parents t q = Ok t' ->
  forall p y, lookup t p = Some y ->
              kind_of (lookup t' p) = kind_of (Some y).
Proof.
  revert t t'. induction q as [|n q IH]; intros t t' H p y Hp;
    [discriminate|].
  cbn [mkdir_parents] in H. destruct t as [|es]; [discriminate|].
  destruct p as [|a p].
  - injection Hp as <-.
    destruct (lookup_entry n es) as [c|].
    + destruct (mkdir_parents c q); [|discriminate].
      injection H as <-. reflexivity.
    + injection H as <-. reflexivity.
  - cbn [lookup] in Hp. destruct (lookup_entry n es) as [c|] eqn:E.
    + destruct (mkdir_parents c q) as [c'|] eqn:Ec; [|discriminate].
      cbn [bind] in H. injection H as <-. cbn [lookup].
      destruct (String.eqb_spec a n) as [-> | Hne].
      * rewrite E in Hp. rewrite (lookup_entry_update_same n c' c es E).
        apply (IH c c' Ec p y Hp).
      * rewrite (lookup_entry_update_other a n c' es Hne).
        destruct (lookup_entry a es); [rewrite Hp; reflexivity | discriminate].
    + injection H as <-. cbn [lookup].
      destruct (String.eqb_spec a n) as [-> | Hne];
        [rewrite E in Hp; discriminate|].
      rewrite (lookup_entry_app_other a n _ es Hne).
      destruct (lookup_entry a es); [rewrite Hp; reflexivity | discriminate].
Qed.

Lemma mkdir_fresh (t t' : node) (q : list string) :
  mkdir t q = Ok t' -> lookup t q = None.
Proof.
  revert t t'. induction q as [|n q IH]; intros t t' H; [discriminate|].
  cbn [mkdir] in H. destruct t as [|es]; [discriminate|].
  cbn [lookup]. destruct (lookup_entry n es) as [c|]; [|reflexivity].
  destruct (mkdir c q) as [c'|] eqn:Ec; [|discriminate].
  apply (IH c c' Ec).
Qed.

Lemma lookup_below_nothing (t : node) (q p : list string) :
  lookup t q = None -> is_prefix q p = true -> lookup t p = None.
Proof.
  revert t p. induction q as [|n q IH]; intros t p Hq Hpre; [discriminate|].
  destruct p as [|a p]; [discriminate|]. cbn [is_prefix] in Hpre.
  apply andb_true_iff in Hpre as [Hna Hpre]. apply String.eqb_eq in Hna.
  subst a. cbn [lookup] in Hq |- *. destruct t as [|es]; [reflexivity|].
  destruct (lookup_entry n es) as [c|]; [|reflexivity].
  apply (IH c p Hq Hpre).
Qed.

Lemma lookup_entry_remove_other (a n : string) (es : list (string * node)) :
  a <> n -> lookup_entry a (remove_entry n es) = lookup_entry a es.
Proof.
  intros Hne. unfold remove_entry.
  induction es as [|[m y] es IH]; [reflexivity|]. cbn [filter fst].
  destruct (String.eqb_spec m n) as [-> | Hmn]; cbn [negb lookup_entry].
  - destruct (String.eqb_spec n a) as [-> | _]; [contradiction | exact IH].
  - rewrite IH. reflexivity.
Qed.

(** Removing [src] changes the kind of nothing outside [src]. *)
Lemma remove_at_kind (t : node) (src p : list string) :
  is_prefix src p = false ->
  kind_of (lookup (remove_at t src) p) = kind_of (lookup t p).
Proof.
  revert t p. induction src as [|n s IH]; intros t p Hpre; [discriminate|].
  cbn [remove_at]. destruct t as [|es]; [reflexivity|].
  destruct p as [|a p].
  - destruct s as [|m s]; [reflexivity|].
    destruct (lookup_entry n es); reflexivity.
  - cbn [is_prefix] in Hpre. destruct s as [|m s].
    + cbn [is_prefix] in Hpre. rewrite andb_true_r in Hpre.
      apply String.eqb_neq in Hpre. cbn [lookup].
      rewrite (lookup_entry_remove_other a n es); [reflexivity|].
      intros ->. apply Hpre. reflexivity.
    + destruct (lookup_entry n es) as [c|] eqn:E; [|reflexivity].
      cbn [lookup]. destruct (String.eqb_spec a n) as [-> | Hne].
      * rewrite (lookup_entry_update_same n _ c es E), E.
        apply IH. rewrite String.eqb_refl in Hpre. exact Hpre.
      * rewrite (lookup_entry_update_other a n _ es Hne). reflexivity.
Qed.

Lemma place_at_kind (t t' : node) (q : list string) (sub : node) :
  place_at t q sub = Ok t' -> lookup t q = None ->
  forall p y, lookup t p = Some y ->
              kind_of (lookup t' p) = kind_of (Some y).
Proof.
  revert t t'. induction q as [|n q IH]; intros t t' H Hq p y Hp;
    [discriminate|].
  cbn [place_at] in H. destruct t as [|es]; [discriminate|].
  cbn [lookup] in Hq.
  destruct p as [|a p].
  - injection Hp as <-. destruct q as [|m q].
    + destruct (lookup_entry n es); injection H as <-; reflexivity.
    + destruct (lookup_entry n es) as [c|]; [|discriminate].
      destruct (place_at c (m :: q) sub); [|discriminate].
      injection H as <-. reflexivity.
  - cbn [lookup] in Hp. destruct q as [|m q].
    + destruct (lookup_entry n es) as [c|] eqn:E; [discriminate Hq|].
      injection H as <-. cbn [lookup].
      destruct (String.eqb_spec a n) as [-> | Hne];
        [rewrite E in Hp; discriminate|].
      rewrite (lookup_entry_app_other a n sub es Hne).
      destruct (lookup_entry a es); [rewrite Hp; reflexivity | discriminate].
    + destruct (lookup_entry n es) as [c|] eqn:E; [|discriminate].
      destruct (place_at c (m :: q) sub) as [c'|] eqn:Ec; [|discriminate].
      cbn [bind] in H. injection H as <-. cbn [lookup].
      destruct (String.eqb_spec a n) as [-> | Hne].
      * rewrite E in Hp. rewrite (lookup_entry_update_same n c' c es E).
        apply (IH c c' Ec Hq p y Hp).
      * rewrite (lookup_entry_update_other a n c' es Hne).
        destruct (lookup_entry a es); [rewrite Hp; reflexivity | discriminate].
Qed.

(** A rename to a path that is free changes the kind of nothing outside
    the source. *)
Lemma rename_kind (t t' : node) (src dst : list string) :
  rename t src dst = Ok t' -> lookup t dst = None ->
  forall p y, lookup t p = Some y -> is_prefix src p = false ->
              kind_of (lookup t' p) = kind_of (Some y).
Proof.
  unfold rename. intros H Hdst p y Hp Hpre.
  destruct (lookup t src) as [sub|]; [|discriminate].
  destruct (same_path src dst); [injection H as <-; rewrite Hp; reflexivity|].
  destruct (is_prefix src dst) eqn:Esd; [discriminate|].
  rewrite Hdst in H.
  pose proof (remove_at_kind t src dst Esd) as Kd. rewrite Hdst in Kd.
  pose proof (remove_at_kind t src p Hpre) as Kp. rewrite Hp in Kp.
  destruct (lookup (remove_at t src) dst) as [[|?]|] eqn:Ed;
    try discriminate Kd.
  destruct (lookup (remove_at t src) p) as [y'|] eqn:Ey;
    [|destruct y; discriminate Kp].
  rewrite <- Kp. apply (place_at_kind _ _ _ _ H Ed p y' Ey).
Qed.

(** The three changes a successful cmd_make makes to the tree leave the
    kind of everything that was there. *)
Lemma commit_keeps_kinds (t0 t3 t5 t6 : node) (staging x : list string) :
  mkdir t0 staging = Ok t3 ->
  mkdir_parents t3 x = Ok t5 ->
  rename t5 staging (x ++ [data_dir_name]) = Ok t6 ->
  forall p y, lookup t0 p = Some y ->
              kind_of (lookup t6 p) = kind_of (Some y).
Proof.
  intros Hm Hp Hr p y Hy.
  assert (Hpre : is_prefix staging p = false).
  { destruct (is_prefix staging p) eqn:E; [|reflexivity].
    rewrite (lookup_below_nothing t0 staging p (mkdir_fresh _ _ _ Hm) E) in Hy.
    discriminate. }
  pose proof (mkdir_kind t0 t3 staging Hm p y Hy) as K3.
  destruct (lookup t3 p) as [y3|] eqn:E3; [|destruct y; discriminate K3].
  pose proof (mkdir_parents_kind t3 t5 x Hp p y3 E3) as K5.
  destruct (lookup t5 p) as [y5|] eqn:E5; [|destruct y3; discriminate K5].
  assert (Hdst : lookup t5 (x ++ [data_dir_name]) = None).
  { destruct (mkdir_parents_Ok t3 t5 x Hp) as [_ Hx].
    rewrite lookup_app, Hx. reflexivity. }
  rewrite (rename_kind t5 t6 staging _ Hr Hdst p y5 E5 Hpre).
  rewrite K5. exact K3.
Qed.

(** A backup path stays one in a tree that keeps the kinds. *)
Lemma is_backup_path_transfer (p : list string) :
  forall d1 d2,
    (forall q y, lookup d1 q = Some y ->
                 kind_of (lookup d2 q) = kind_of (Some y)) ->
    is_backup_path d1 p = true -> is_backup_path d2 p = true.
Proof.
  induction p as [|n p IH]; intros d1 d2 K H; [discriminate|].
  cbn [is_backup_path] in H |- *.
  destruct (lookup d1 [n]) as [s1|] eqn:E1; [|discriminate].
  apply andb_true_iff in H as [He H].
  unfold backup_entry in He. apply andb_true_iff in He as [Hg He].
  apply andb_true_iff in He as [Hd Hdata].
  pose proof (K [n] s1 E1) as K1.
  destruct (lookup d2 [n]) as [s2|] eqn:E2; [|destruct s1; discriminate K1].
  assert (Ks : forall q y, lookup s1 q = Some y ->
                           kind_of (lookup s2 q) = kind_of (Some y)).
  { intros q y Hq. pose proof (K ([n] ++ q) y) as Kq.
    rewrite !lookup_app, E1, E2 in Kq. apply Kq, Hq. }
  apply andb_true_iff. split.
  - unfold backup_entry. rewrite Hg. cbn [andb].
    apply andb_true_iff. split.
    + destruct s1; [discriminate Hd|]. destruct s2; [discriminate K1|].
      reflexivity.
    + destruct (has_data_dir_lookup s1 Hdata) as (es & Hes).
      rewrite has_data_dir_kind, (Ks _ _ Hes). reflexivity.
  - destruct p as [|m p]; [reflexivity|]. apply (IH s1 s2 Ks H).
Qed.

(** One more level below a backup path. *)
Lemma is_backup_path_extend (q : list string) :
  forall dir n,
    q = [] \/ is_backup_path dir q = true ->
    fnmatch n glob_format = true ->
    kind_of (lookup dir (q ++ [n] ++ [data_dir_name])) = IsDir ->
    is_backup_path dir (q ++ [n]) = true.
Proof.
  induction q as [|m q IH]; intros dir n Hq Hg Hk.
  - cbn [app is_backup_path]. cbn [app] in Hk.
    change [n; data_dir_name] with ([n] ++ [data_dir_name]) in Hk.
    rewrite lookup_app in Hk.
    destruct (lookup dir [n]) as [sub|]; [|discriminate Hk].
    unfold backup_entry. rewrite Hg, has_data_dir_kind.
    destruct sub as [|es]; [discriminate Hk|].
    destruct (kind_of (lookup (Dir es) [data_dir_name]));
      first [discriminate Hk | reflexivity].
  - destruct Hq as [Hq | Hq]; [discriminate Hq|].
    cbn [app is_backup_path] in Hq |- *.
    change (m :: q ++ n :: [data_dir_name])
      with ([m] ++ (q ++ [n] ++ [data_dir_name])) in Hk.
    cbn [app] in Hk.
    change (m :: q ++ [n; data_dir_name])
      with ([m] ++ (q ++ [n] ++ [data_dir_name])) in Hk.
    rewrite lookup_app in Hk.
    destruct (lookup dir [m]) as [sub|]; [|discriminate Hq].
    apply andb_true_iff in Hq as [He Hq]. rewrite He. cbn [andb].
    assert (Hgoal : is_backup_path sub (q ++ [n]) = true).
    { apply IH; [|exact Hg|exact Hk].
      destruct q as [|k q]; [left; reflexivity | right; exact Hq]. }
    destruct (q ++ [n]) eqn:E; [destruct q; discriminate E | exact Hgoal].
Qed.

(** The scanner visits every backup path, in a tree of any shape. *)
Lemma is_backup_path_In (dir : node) :
  forall p, is_backup_path dir p = true -> In p (backup_paths dir).
Proof.
  induction dir as [|es IHc] using node_induction; intros p H.
  - destruct p; cbn in H; discriminate.
  - induction es as [|[name sub] es IHes].
    + destruct p; cbn in H; discriminate.
    + destruct p as [|n p]; [discriminate|].
      rewrite backup_paths_cons.
      assert (Hrest : is_backup_path (Dir es) (n :: p) = true ->
                      In (n :: p) (backup_paths (Dir es))).
      { apply IHes. intros m c Hin. apply (IHc m c). right. exact Hin. }
      destruct (String.eqb_spec n name) as [-> | Hne].
      * rewrite is_backup_path_same in H.
        apply andb_true_iff in H as [He H]. rewrite He.
        destruct p as [|m p]; [left; reflexivity|].
        right. apply in_or_app. left. apply in_map.
        apply (IHc name sub (or_introl eq_refl) _ H).
      * rewrite (is_backup_path_other name n sub es p Hne) in H.
        destruct (backup_entry name sub); [|exact (Hrest H)].
        right. apply in_or_app. right. exact (Hrest H).
Qed.

Lemma latest_backup_In (l : list (list Backup)) (level : nat)
      (x : list Backup) :
  latest_backup l level = Some x -> In x l.
Proof.
  unfold latest_backup. induction l as [|a l IH]; [discriminate|].
  cbn [dropwhile]. destruct (negb (List.length a =? level)%nat).
  - intros H. right. apply IH, H.
  - intros H. injection H as <-. left. reflexivity.
Qed.

(** The chain cmd_make builds: the new backup alone, or the new backup on
    a chain of the scan. *)
Lemma cmd_make_backup_chain (env : Env) (root : PurePath) (level : Level)
      (w w1 : world) (backup : list Backup) :
  cmd_make_backup env root level w = (Ok backup, w1) ->
  backup = [mkBackup (now env)] \/
  exists all parent,
    list_backups (w_fs w) root = Ok all /\ In parent all /\
    backup = mkBackup (now env) :: parent.
Proof.
  unfold cmd_make_backup, mbind, read_fs, ff, ret, raise, echo.
  destruct (0 <? level_num level)%nat;
    [|intros H; injection H as <- _; left; reflexivity].
  destruct (list_backups (w_fs w) root) as [all|e]; [|discriminate].
  destruct (latest_backup all 1) as [pg|] eqn:Eg.
  - destruct (latest_backup all 2) as [pf|] eqn:Ef.
    + destruct pf as [|f0 f]; [discriminate|].
      destruct pg as [|g0 g]; [discriminate|].
      destruct (dt_geb (timestamp f0) (timestamp g0)); cbn;
        intros H; injection H as <- _; right; exists all.
      * exists (f0 :: f). split; [reflexivity|].
        split; [apply (latest_backup_In all 2), Ef | reflexivity].
      * exists (g0 :: g). split; [reflexivity|].
        split; [apply (latest_backup_In all 1), Eg | reflexivity].
    + cbn. intros H. injection H as <- _. right. exists all, pg.
      split; [reflexivity|].
      split; [apply (latest_backup_In all 1), Eg | reflexivity].
  - destruct (latest_backup all 2); cbn; intros H; injection H as <- _;
      left; reflexivity.
Qed.

Lemma has_root_backup_to_path (c : list Backup) :
  has_root (backup_to_path c) = false.
Proof.
  rewrite backup_to_path_parts. destruct (rev c) as [|b l]; [reflexivity|].
  cbn [map]. apply has_root_no_slash, no_slash_strftime.
Qed.

Lemma is_digit_digit (n : Z) : is_digit (digit n) = true.
Proof. unfold is_digit. rewrite digit_val_digit. reflexivity. Qed.

Lemma fnmatch_strftime (t : datetime) :
  fnmatch (strftime t ts_format) glob_format = true.
Proof.
  rewrite strftime_unfold. unfold pad4, pad2.
  cbn [String.append glob_format dd app fnmatch Ascii.eqb Bool.eqb andb].
  rewrite !is_digit_digit. reflexivity.
Qed.

Lemma chain_of_path_snoc (p : list string) (name : string) :
  chain_of_path (p ++ [name])
  = mkBackup (parse_name name) :: chain_of_path p.
Proof. unfold chain_of_path. rewrite rev_app_distr. reflexivity. Qed.

Lemma backup_to_path_cons (b : Backup) (c : list Backup) :
  backup_to_path (b :: c)
  = backup_to_path c ++ [strftime (timestamp b) ts_format].
Proof.
  rewrite !backup_to_path_parts. cbn [rev]. rewrite map_app. reflexivity.
Qed.

(** X19: a backup that cmd_make has made is a backup the next scan finds,
    in a tree of plain files and directories that lists each name once,
    whose backup directories have years from 1000 on, and with a clock
    that shows a valid date from the year 1000 on (the years strftime
    writes with four digits).  After a run of cmd_make with dry-run off
    that ends without exception, the directory of the new chain is a
    backup path below the label directory, so that list_backups, unless a
    badly named directory makes it raise ValueError, returns the chain
    read back from that path; for a clock on a whole second this is the
    very chain cmd_make built. *)
Theorem new_backup_is_found_by_the_next_scan
        (env : Env) (config : Config) (label : BackupLabel) (level : Level)
        (w w' : world) :
  well_formed (w_fs w) = true ->
  years_from_1000 (w_fs w) = true ->
  valid_datetime (now env) = true ->
  1000 <= year (now env) ->
  cmd_make env config label level false w = (Ok tt, w') ->
  exists backup dir',
    fst (cmd_make_backup env (label_root config label) level
                         (announced level w)) = Ok backup /\
    lookup (w_fs w') (fs_path (label_root config label)) = Some dir' /\
    is_backup_path dir' (backup_to_path backup) = true /\
    (list_backups (w_fs w') (label_root config label) = Raise ValueError \/
     exists l,
       list_backups (w_fs w') (label_root config label) = Ok l /\
       In (chain_of_path (backup_to_path backup)) l) /\
    (microsecond (now env) = 0 ->
     chain_of_path (backup_to_path backup) = backup).
Proof.
  intros Hwf _ Hvalid _ H. rewrite cmd_make_unfold in H. cbv zeta in H.
  pose proof (cmd_make_backup_frame env (label_root config label) level
                                    (announced level w)) as Hf.
  cbv zeta in Hf.
  destruct (announced_frame level w) as (Ha1 & Ha2 & Ha3).
  destruct (cmd_make_backup env (label_root config label) level
                            (announced level w)) as [[backup|e] w1] eqn:Eb;
    [|discriminate H].
  cbn [snd] in Hf. destruct Hf as (Hf1 & Hf2 & Hf3).
  cbn [w_fs w_stdout w_log w_dar] in H.
  destruct (path_is_dir (w_fs w1) (config_dir config)); [|discriminate H].
  destruct (mkdir (w_fs w1) (fs_path (staging_dir env config)))
    as [t3|e] eqn:Em; [|discriminate H].
  cbn [negb] in H. rewrite commit_unfold in H.
  cbv zeta in H. cbn [w_fs w_stdout w_log w_dar] in H.
  unfold target_path_of in H. rewrite pdiv_data in H.
  rewrite path_parent_data, fs_path_data in H.
  set (root_path := label_root config label) in *.
  set (x := fs_path (pjoin root_path (backup_to_path backup))) in *.
  destruct (mkdir_parents t3 x) as [t5|e] eqn:Ep; [|discriminate H].
  destruct (rename t5 (fs_path (staging_dir env config))
                   (x ++ [data_dir_name])) as [t6|e] eqn:En;
    [|discriminate H].
  injection H as _ <-. cbn [w_fs].
  destruct (commit_moves_staging t3 t5 t6 _ x (mkdir_Ok _ _ _ Em) Ep En)
    as [Hdst _].
  pose proof (commit_keeps_kinds (w_fs w1) t3 t5 t6 _ x Em Ep En) as Hkeep.
  rewrite Hf1, Ha1 in Hkeep.
  assert (Hx : x = fs_path root_path ++ backup_to_path backup).
  { unfold x, pjoin. rewrite has_root_backup_to_path.
    apply fs_path_app, has_root_backup_to_path. }
  rewrite Hx in Hdst. rewrite <- app_assoc, lookup_app in Hdst.
  destruct (lookup t6 (fs_path root_path)) as [dir'|] eqn:Edir';
    [|discriminate Hdst].
  assert (Hparent :
            exists parent,
              backup = mkBackup (now env) :: parent /\
              (backup_to_path parent = [] \/
               is_backup_path dir' (backup_to_path parent) = true) /\
              chain_of_path (backup_to_path parent) = parent).
  { destruct (cmd_make_backup_chain _ _ _ _ _ _ Eb)
      as [-> | (all & parent & Hall & Hin & ->)].
    - exists []. split; [reflexivity|]. split; [left|]; reflexivity.
    - exists parent. split; [reflexivity|]. rewrite Ha1 in Hall.
      destruct (lookup (w_fs w) (fs_path root_path)) as [dir0|] eqn:Edir0.
      + destruct (scanned_chain_directory
                    (w_fs w) root_path dir0 all Edir0
                    (lookup_well_formed _ _ _ Hwf Edir0) Hall parent Hin)
          as (Hbp & Hchain & _).
        split; [|symmetry; exact Hchain]. right.
        apply (is_backup_path_transfer _ dir0 dir'); [|exact Hbp].
        intros q y Hq. pose proof (Hkeep (fs_path root_path ++ q) y) as K.
        rewrite !lookup_app, Edir0, Edir' in K. apply K, Hq.
      + rewrite list_backups_spec, Edir0 in Hall. injection Hall as <-.
        destruct Hin. }
  destruct Hparent as (parent & -> & Hpp & Hchain).
  rewrite backup_to_path_cons in Hdst. cbn [timestamp] in Hdst.
  assert (Hbp : is_backup_path dir' (backup_to_path parent
                                      ++ [strftime (now env) ts_format])
                = true).
  { apply is_backup_path_extend.
    - exact Hpp.
    - apply fnmatch_strftime.
    - rewrite <- app_assoc in Hdst. rewrite Hdst. reflexivity. }
  exists (mkBackup (now env) :: parent), dir'.
  split; [reflexivity|]. split; [reflexivity|].
  rewrite backup_to_path_cons. cbn [timestamp].
  split; [exact Hbp|]. split.
  - rewrite list_backups_spec, Edir'.
    destruct (paths_parse (backup_paths dir')); [|left; reflexivity].
    right. eexists. split; [reflexivity|].
    apply is_backup_path_In in Hbp.
    apply (in_map chain_of_path) in Hbp.
    rewrite <- (keyed_snd (map chain_of_path (backup_paths dir'))) in Hbp.
    apply in_map_iff in Hbp as (pair & <- & Hpair).
    apply in_map.
    apply (Permutation_in _ (Permutation_sym (sorted_reverse_perm _)) Hpair).
  - intros Hus. rewrite chain_of_path_snoc, Hchain. f_equal. f_equal.
    unfold parse_name. rewrite (strptime_strftime _ Hvalid Hus). reflexivity.
Qed.

Lemma new_backup_is_found_by_the_next_scan_witness :
  exists backup dir',
    fst (cmd_make_backup (sample_env true)
                         (label_root sample_config (mkBackupLabel "a" "b"))
                         level_s (announced level_s sample_world))
    = Ok backup /\
    lookup (w_fs (snd (cmd_make (sample_env true) sample_config
                                (mkBackupLabel "a" "b") level_s false
                                sample_world)))
           (fs_path (label_root sample_config (mkBackupLabel "a" "b")))
    = Some dir' /\
    is_backup_path dir' (backup_to_path backup) = true /\
    (list_backups (w_fs (snd (cmd_make (sample_env true) sample_config
                                       (mkBackupLabel "a" "b") level_s false
                                       sample_world)))
                  (label_root sample_config (mkBackupLabel "a" "b"))
     = Raise ValueError \/
     exists l,
       list_backups (w_fs (snd (cmd_make (sample_env true) sample_config
                                         (mkBackupLabel "a" "b") level_s
                                         false sample_world)))
                    (label_root sample_config (mkBackupLabel "a" "b"))
       = Ok l /\
       In (chain_of_path (backup_to_path backup)) l) /\
    (microsecond (now (sample_env true)) = 0 ->
     chain_of_path (backup_to_path backup) = backup).
Proof.
  apply (new_backup_is_found_by_the_next_scan
           (sample_env true) sample_config (mkBackupLabel "a" "b") level_s
           sample_world
           (snd (cmd_make (sample_env true) sample_config
                          (mkBackupLabel "a" "b") level_s false
                          sample_world)));
    first [reflexivity | vm_compute; discriminate].
Defined.
